(** * Prompt analyzer and optimizer: a shallow embedding

    The development follows [src/analyzer.js] (the object [PromptAnalyzer]) and
    the optimizer source (the object [PromptOptimizer]).

    Conventions of the embedding.
    - A JavaScript string is the list of its UTF-16 code units ([jsstring]).
      Regular expressions, [trim], [split], [includes], ... work on code units
      exactly as in ECMAScript; [toLowerCase] maps code points by the
      tables of Unicode 14.0.
    - A JavaScript number is an IEEE 754 binary64 value, Rocq's primitive
      [float]; counters that only ever hold array lengths are [nat].
    - A regular-expression literal is a term of [regex], run by a
      backtracking matcher with the priorities of ECMAScript (leftmost,
      greedy or lazy as written).
    - The mutable fields that [optimize] stores on the optimizer object, and
      the technique array it allocates, live in an explicit store.
    - A lookup in an object literal sees the properties inherited from
      [Object.prototype]; a call of one of them ends in [TypeError] or in
      [Foreign].
    - [options.format] ranges over the five values of the page's selector. *)

From Stdlib Require Import ZArith NArith List Bool Ascii String Lia.
From Stdlib Require Floats Uint63 DecimalString.
Import PrimFloat.
Import ListNotations.
Open Scope string_scope.
Open Scope list_scope.
Open Scope nat_scope.

Set Implicit Arguments.
Set Warnings "-inexact-float".

(* ================================================================== *)
(** * JavaScript strings *)
(* ================================================================== *)

Module JsString.

Definition jsstring := list N.

(** A string literal of the source. *)
Definition str (s : string) : jsstring := map N_of_ascii (list_ascii_of_string s).

Definition nl : N := 10%N.

(** A piece of a literal between double quotes. *)
Definition quoted (s : string) : jsstring := [34%N] ++ str s ++ [34%N].

Definition in_range (lo hi c : N) : bool := (lo <=? c)%N && (c <=? hi)%N.

Definition mem (c : N) (cs : list N) : bool := existsb (N.eqb c) cs.

(** LineTerminator: LF, CR, LS, PS. *)
Definition is_line_terminator (c : N) : bool := mem c [10; 13; 8232; 8233]%N.

(** WhiteSpace and LineTerminator, the set of [\s] and of [trim]. *)
Definition is_space (c : N) : bool :=
  in_range 9 13 c || mem c [32; 160; 5760; 8232; 8233; 8239; 8287; 12288; 65279]%N
  || in_range 8192 8202 c.

Definition is_digit (c : N) : bool := in_range 48 57 c.

Definition is_upper (c : N) : bool := in_range 65 90 c.
Definition is_lower (c : N) : bool := in_range 97 122 c.

(** The characters of [\w], which decide [\b]. *)
Definition is_word (c : N) : bool :=
  is_upper c || is_lower c || is_digit c || N.eqb c 95.

(** Canonicalize of a case-insensitive pattern: upper case, and a code unit
    above U+007F never becomes an ASCII one.  Every case-insensitive pattern
    of the source is made of ASCII characters only, for which comparing these
    canonical forms is exact. *)
Definition canon (c : N) : N := if is_lower c then (c - 32)%N else c.

(** ** Lower case

    [String.prototype.toLowerCase] reads the string as code points (a high
    surrogate followed by a low one is one code point), maps every code point
    to its lower case by the Unicode Character Database, [SpecialCasing.txt]
    included as far as it does not depend on the language, and writes the
    result back as code units.  The tables are those of Unicode 14.0. *)

Definition is_high_surrogate (c : N) : bool := in_range 55296 56319 c.
Definition is_low_surrogate (c : N) : bool := in_range 56320 57343 c.

(** StringToCodePoints. *)
Fixpoint codePoints (s : jsstring) : list N :=
  match s with
  | [] => []
  | hi :: s' =>
      match s' with
      | lo :: s'' =>
          if is_high_surrogate hi && is_low_surrogate lo
          then (65536 + (hi - 55296) * 1024 + (lo - 56320))%N :: codePoints s''
          else hi :: codePoints s'
      | [] => [hi]
      end
  end.

(** CodePointsToString. *)
Definition codeUnits (cp : N) : jsstring :=
  if (cp <? 65536)%N then [cp]
  else [55296 + (cp - 65536) / 1024; 56320 + (cp - 65536) mod 1024]%N.

(** The code points with a lower case other than themselves, in increasing
    order.  An entry [(first, last, step, image)] stands for the code points
    [first], [first + step], ... up to [last], which map to [image],
    [image + step], ... *)
Definition lowercase_mapping : list (N * N * N * N) :=
  [
    (65, 90, 1, 97); (192, 214, 1, 224); (216, 222, 1, 248); (256, 302, 2, 257);
    (306, 310, 2, 307); (313, 327, 2, 314); (330, 374, 2, 331); (376, 376, 1, 255);
    (377, 381, 2, 378); (385, 385, 1, 595); (386, 388, 2, 387); (390, 390, 1, 596);
    (391, 391, 1, 392); (393, 394, 1, 598); (395, 395, 1, 396); (398, 398, 1, 477);
    (399, 399, 1, 601); (400, 400, 1, 603); (401, 401, 1, 402); (403, 403, 1, 608);
    (404, 404, 1, 611); (406, 406, 1, 617); (407, 407, 1, 616); (408, 408, 1, 409);
    (412, 412, 1, 623); (413, 413, 1, 626); (415, 415, 1, 629); (416, 420, 2, 417);
    (422, 422, 1, 640); (423, 423, 1, 424); (425, 425, 1, 643); (428, 428, 1, 429);
    (430, 430, 1, 648); (431, 431, 1, 432); (433, 434, 1, 650); (435, 437, 2, 436);
    (439, 439, 1, 658); (440, 440, 1, 441); (444, 444, 1, 445); (452, 452, 1, 454);
    (453, 453, 1, 454); (455, 455, 1, 457); (456, 456, 1, 457); (458, 458, 1, 460);
    (459, 475, 2, 460); (478, 494, 2, 479); (497, 497, 1, 499); (498, 500, 2, 499);
    (502, 502, 1, 405); (503, 503, 1, 447); (504, 542, 2, 505); (544, 544, 1, 414);
    (546, 562, 2, 547); (570, 570, 1, 11365); (571, 571, 1, 572); (573, 573, 1, 410);
    (574, 574, 1, 11366); (577, 577, 1, 578); (579, 579, 1, 384); (580, 580, 1, 649);
    (581, 581, 1, 652); (582, 590, 2, 583); (880, 882, 2, 881); (886, 886, 1, 887);
    (895, 895, 1, 1011); (902, 902, 1, 940); (904, 906, 1, 941); (908, 908, 1, 972);
    (910, 911, 1, 973); (913, 929, 1, 945); (931, 939, 1, 963); (975, 975, 1, 983);
    (984, 1006, 2, 985); (1012, 1012, 1, 952); (1015, 1015, 1, 1016); (1017, 1017, 1, 1010);
    (1018, 1018, 1, 1019); (1021, 1023, 1, 891); (1024, 1039, 1, 1104); (1040, 1071, 1, 1072);
    (1120, 1152, 2, 1121); (1162, 1214, 2, 1163); (1216, 1216, 1, 1231); (1217, 1229, 2, 1218);
    (1232, 1326, 2, 1233); (1329, 1366, 1, 1377); (4256, 4293, 1, 11520);
    (4295, 4295, 1, 11559); (4301, 4301, 1, 11565); (5024, 5103, 1, 43888);
    (5104, 5109, 1, 5112); (7312, 7354, 1, 4304); (7357, 7359, 1, 4349); (7680, 7828, 2, 7681);
    (7838, 7838, 1, 223); (7840, 7934, 2, 7841); (7944, 7951, 1, 7936); (7960, 7965, 1, 7952);
    (7976, 7983, 1, 7968); (7992, 7999, 1, 7984); (8008, 8013, 1, 8000); (8025, 8031, 2, 8017);
    (8040, 8047, 1, 8032); (8072, 8079, 1, 8064); (8088, 8095, 1, 8080); (8104, 8111, 1, 8096);
    (8120, 8121, 1, 8112); (8122, 8123, 1, 8048); (8124, 8124, 1, 8115); (8136, 8139, 1, 8050);
    (8140, 8140, 1, 8131); (8152, 8153, 1, 8144); (8154, 8155, 1, 8054); (8168, 8169, 1, 8160);
    (8170, 8171, 1, 8058); (8172, 8172, 1, 8165); (8184, 8185, 1, 8056); (8186, 8187, 1, 8060);
    (8188, 8188, 1, 8179); (8486, 8486, 1, 969); (8490, 8490, 1, 107); (8491, 8491, 1, 229);
    (8498, 8498, 1, 8526); (8544, 8559, 1, 8560); (8579, 8579, 1, 8580); (9398, 9423, 1, 9424);
    (11264, 11311, 1, 11312); (11360, 11360, 1, 11361); (11362, 11362, 1, 619);
    (11363, 11363, 1, 7549); (11364, 11364, 1, 637); (11367, 11371, 2, 11368);
    (11373, 11373, 1, 593); (11374, 11374, 1, 625); (11375, 11375, 1, 592);
    (11376, 11376, 1, 594); (11378, 11378, 1, 11379); (11381, 11381, 1, 11382);
    (11390, 11391, 1, 575); (11392, 11490, 2, 11393); (11499, 11501, 2, 11500);
    (11506, 11506, 1, 11507); (42560, 42604, 2, 42561); (42624, 42650, 2, 42625);
    (42786, 42798, 2, 42787); (42802, 42862, 2, 42803); (42873, 42875, 2, 42874);
    (42877, 42877, 1, 7545); (42878, 42886, 2, 42879); (42891, 42891, 1, 42892);
    (42893, 42893, 1, 613); (42896, 42898, 2, 42897); (42902, 42920, 2, 42903);
    (42922, 42922, 1, 614); (42923, 42923, 1, 604); (42924, 42924, 1, 609);
    (42925, 42925, 1, 620); (42926, 42926, 1, 618); (42928, 42928, 1, 670);
    (42929, 42929, 1, 647); (42930, 42930, 1, 669); (42931, 42931, 1, 43859);
    (42932, 42946, 2, 42933); (42948, 42948, 1, 42900); (42949, 42949, 1, 642);
    (42950, 42950, 1, 7566); (42951, 42953, 2, 42952); (42960, 42960, 1, 42961);
    (42966, 42968, 2, 42967); (42997, 42997, 1, 42998); (65313, 65338, 1, 65345);
    (66560, 66599, 1, 66600); (66736, 66771, 1, 66776); (66928, 66938, 1, 66967);
    (66940, 66954, 1, 66979); (66956, 66962, 1, 66995); (66964, 66965, 1, 67003);
    (68736, 68786, 1, 68800); (71840, 71871, 1, 71872); (93760, 93791, 1, 93792);
    (125184, 125217, 1, 125218) ]%N.

(** The property Cased, as ranges of code points in increasing order. *)
Definition cased : list (N * N) :=
  [
    (65, 90); (97, 122); (170, 170); (181, 181); (186, 186); (192, 214); (216, 246); (248, 442);
    (444, 447); (452, 659); (661, 696); (704, 705); (736, 740); (837, 837); (880, 883);
    (886, 887); (890, 893); (895, 895); (902, 902); (904, 906); (908, 908); (910, 929);
    (931, 1013); (1015, 1153); (1162, 1327); (1329, 1366); (1376, 1416); (4256, 4293);
    (4295, 4295); (4301, 4301); (4304, 4346); (4349, 4351); (5024, 5109); (5112, 5117);
    (7296, 7304); (7312, 7354); (7357, 7359); (7424, 7615); (7680, 7957); (7960, 7965);
    (7968, 8005); (8008, 8013); (8016, 8023); (8025, 8025); (8027, 8027); (8029, 8029);
    (8031, 8061); (8064, 8116); (8118, 8124); (8126, 8126); (8130, 8132); (8134, 8140);
    (8144, 8147); (8150, 8155); (8160, 8172); (8178, 8180); (8182, 8188); (8305, 8305);
    (8319, 8319); (8336, 8348); (8450, 8450); (8455, 8455); (8458, 8467); (8469, 8469);
    (8473, 8477); (8484, 8484); (8486, 8486); (8488, 8488); (8490, 8493); (8495, 8500);
    (8505, 8505); (8508, 8511); (8517, 8521); (8526, 8526); (8544, 8575); (8579, 8580);
    (9398, 9449); (11264, 11492); (11499, 11502); (11506, 11507); (11520, 11557);
    (11559, 11559); (11565, 11565); (42560, 42605); (42624, 42653); (42786, 42887);
    (42891, 42894); (42896, 42954); (42960, 42961); (42963, 42963); (42965, 42969);
    (42997, 42998); (43000, 43002); (43824, 43866); (43868, 43880); (43888, 43967);
    (64256, 64262); (64275, 64279); (65313, 65338); (65345, 65370); (66560, 66639);
    (66736, 66771); (66776, 66811); (66928, 66938); (66940, 66954); (66956, 66962);
    (66964, 66965); (66967, 66977); (66979, 66993); (66995, 67001); (67003, 67004);
    (67456, 67456); (67459, 67461); (67463, 67504); (67506, 67514); (68736, 68786);
    (68800, 68850); (71840, 71903); (93760, 93823); (119808, 119892); (119894, 119964);
    (119966, 119967); (119970, 119970); (119973, 119974); (119977, 119980); (119982, 119993);
    (119995, 119995); (119997, 120003); (120005, 120069); (120071, 120074); (120077, 120084);
    (120086, 120092); (120094, 120121); (120123, 120126); (120128, 120132); (120134, 120134);
    (120138, 120144); (120146, 120485); (120488, 120512); (120514, 120538); (120540, 120570);
    (120572, 120596); (120598, 120628); (120630, 120654); (120656, 120686); (120688, 120712);
    (120714, 120744); (120746, 120770); (120772, 120779); (122624, 122633); (122635, 122654);
    (125184, 125251); (127280, 127305); (127312, 127337); (127344, 127369) ]%N.

(** The property Case_Ignorable, as ranges of code points in increasing
    order. *)
Definition case_ignorable : list (N * N) :=
  [
    (39, 39); (46, 46); (58, 58); (94, 94); (96, 96); (168, 168); (173, 173); (175, 175);
    (180, 180); (183, 184); (688, 879); (884, 885); (890, 890); (900, 901); (903, 903);
    (1155, 1161); (1369, 1369); (1375, 1375); (1425, 1469); (1471, 1471); (1473, 1474);
    (1476, 1477); (1479, 1479); (1524, 1524); (1536, 1541); (1552, 1562); (1564, 1564);
    (1600, 1600); (1611, 1631); (1648, 1648); (1750, 1757); (1759, 1768); (1770, 1773);
    (1807, 1807); (1809, 1809); (1840, 1866); (1958, 1968); (2027, 2037); (2042, 2042);
    (2045, 2045); (2070, 2093); (2137, 2139); (2184, 2184); (2192, 2193); (2200, 2207);
    (2249, 2306); (2362, 2362); (2364, 2364); (2369, 2376); (2381, 2381); (2385, 2391);
    (2402, 2403); (2417, 2417); (2433, 2433); (2492, 2492); (2497, 2500); (2509, 2509);
    (2530, 2531); (2558, 2558); (2561, 2562); (2620, 2620); (2625, 2626); (2631, 2632);
    (2635, 2637); (2641, 2641); (2672, 2673); (2677, 2677); (2689, 2690); (2748, 2748);
    (2753, 2757); (2759, 2760); (2765, 2765); (2786, 2787); (2810, 2815); (2817, 2817);
    (2876, 2876); (2879, 2879); (2881, 2884); (2893, 2893); (2901, 2902); (2914, 2915);
    (2946, 2946); (3008, 3008); (3021, 3021); (3072, 3072); (3076, 3076); (3132, 3132);
    (3134, 3136); (3142, 3144); (3146, 3149); (3157, 3158); (3170, 3171); (3201, 3201);
    (3260, 3260); (3263, 3263); (3270, 3270); (3276, 3277); (3298, 3299); (3328, 3329);
    (3387, 3388); (3393, 3396); (3405, 3405); (3426, 3427); (3457, 3457); (3530, 3530);
    (3538, 3540); (3542, 3542); (3633, 3633); (3636, 3642); (3654, 3662); (3761, 3761);
    (3764, 3772); (3782, 3782); (3784, 3789); (3864, 3865); (3893, 3893); (3895, 3895);
    (3897, 3897); (3953, 3966); (3968, 3972); (3974, 3975); (3981, 3991); (3993, 4028);
    (4038, 4038); (4141, 4144); (4146, 4151); (4153, 4154); (4157, 4158); (4184, 4185);
    (4190, 4192); (4209, 4212); (4226, 4226); (4229, 4230); (4237, 4237); (4253, 4253);
    (4348, 4348); (4957, 4959); (5906, 5908); (5938, 5939); (5970, 5971); (6002, 6003);
    (6068, 6069); (6071, 6077); (6086, 6086); (6089, 6099); (6103, 6103); (6109, 6109);
    (6155, 6159); (6211, 6211); (6277, 6278); (6313, 6313); (6432, 6434); (6439, 6440);
    (6450, 6450); (6457, 6459); (6679, 6680); (6683, 6683); (6742, 6742); (6744, 6750);
    (6752, 6752); (6754, 6754); (6757, 6764); (6771, 6780); (6783, 6783); (6823, 6823);
    (6832, 6862); (6912, 6915); (6964, 6964); (6966, 6970); (6972, 6972); (6978, 6978);
    (7019, 7027); (7040, 7041); (7074, 7077); (7080, 7081); (7083, 7085); (7142, 7142);
    (7144, 7145); (7149, 7149); (7151, 7153); (7212, 7219); (7222, 7223); (7288, 7293);
    (7376, 7378); (7380, 7392); (7394, 7400); (7405, 7405); (7412, 7412); (7416, 7417);
    (7468, 7530); (7544, 7544); (7579, 7679); (8125, 8125); (8127, 8129); (8141, 8143);
    (8157, 8159); (8173, 8175); (8189, 8190); (8203, 8207); (8216, 8217); (8228, 8228);
    (8231, 8231); (8234, 8238); (8288, 8292); (8294, 8303); (8305, 8305); (8319, 8319);
    (8336, 8348); (8400, 8432); (11388, 11389); (11503, 11505); (11631, 11631); (11647, 11647);
    (11744, 11775); (11823, 11823); (12293, 12293); (12330, 12333); (12337, 12341);
    (12347, 12347); (12441, 12446); (12540, 12542); (40981, 40981); (42232, 42237);
    (42508, 42508); (42607, 42610); (42612, 42621); (42623, 42623); (42652, 42655);
    (42736, 42737); (42752, 42785); (42864, 42864); (42888, 42890); (42994, 42996);
    (43000, 43001); (43010, 43010); (43014, 43014); (43019, 43019); (43045, 43046);
    (43052, 43052); (43204, 43205); (43232, 43249); (43263, 43263); (43302, 43309);
    (43335, 43345); (43392, 43394); (43443, 43443); (43446, 43449); (43452, 43453);
    (43471, 43471); (43493, 43494); (43561, 43566); (43569, 43570); (43573, 43574);
    (43587, 43587); (43596, 43596); (43632, 43632); (43644, 43644); (43696, 43696);
    (43698, 43700); (43703, 43704); (43710, 43711); (43713, 43713); (43741, 43741);
    (43756, 43757); (43763, 43764); (43766, 43766); (43867, 43871); (43881, 43883);
    (44005, 44005); (44008, 44008); (44013, 44013); (64286, 64286); (64434, 64450);
    (65024, 65039); (65043, 65043); (65056, 65071); (65106, 65106); (65109, 65109);
    (65279, 65279); (65287, 65287); (65294, 65294); (65306, 65306); (65342, 65342);
    (65344, 65344); (65392, 65392); (65438, 65439); (65507, 65507); (65529, 65531);
    (66045, 66045); (66272, 66272); (66422, 66426); (67456, 67461); (67463, 67504);
    (67506, 67514); (68097, 68099); (68101, 68102); (68108, 68111); (68152, 68154);
    (68159, 68159); (68325, 68326); (68900, 68903); (69291, 69292); (69446, 69456);
    (69506, 69509); (69633, 69633); (69688, 69702); (69744, 69744); (69747, 69748);
    (69759, 69761); (69811, 69814); (69817, 69818); (69821, 69821); (69826, 69826);
    (69837, 69837); (69888, 69890); (69927, 69931); (69933, 69940); (70003, 70003);
    (70016, 70017); (70070, 70078); (70089, 70092); (70095, 70095); (70191, 70193);
    (70196, 70196); (70198, 70199); (70206, 70206); (70367, 70367); (70371, 70378);
    (70400, 70401); (70459, 70460); (70464, 70464); (70502, 70508); (70512, 70516);
    (70712, 70719); (70722, 70724); (70726, 70726); (70750, 70750); (70835, 70840);
    (70842, 70842); (70847, 70848); (70850, 70851); (71090, 71093); (71100, 71101);
    (71103, 71104); (71132, 71133); (71219, 71226); (71229, 71229); (71231, 71232);
    (71339, 71339); (71341, 71341); (71344, 71349); (71351, 71351); (71453, 71455);
    (71458, 71461); (71463, 71467); (71727, 71735); (71737, 71738); (71995, 71996);
    (71998, 71998); (72003, 72003); (72148, 72151); (72154, 72155); (72160, 72160);
    (72193, 72202); (72243, 72248); (72251, 72254); (72263, 72263); (72273, 72278);
    (72281, 72283); (72330, 72342); (72344, 72345); (72752, 72758); (72760, 72765);
    (72767, 72767); (72850, 72871); (72874, 72880); (72882, 72883); (72885, 72886);
    (73009, 73014); (73018, 73018); (73020, 73021); (73023, 73029); (73031, 73031);
    (73104, 73105); (73109, 73109); (73111, 73111); (73459, 73460); (78896, 78904);
    (92912, 92916); (92976, 92982); (92992, 92995); (94031, 94031); (94095, 94111);
    (94176, 94177); (94179, 94180); (110576, 110579); (110581, 110587); (110589, 110590);
    (113821, 113822); (113824, 113827); (118528, 118573); (118576, 118598); (119143, 119145);
    (119155, 119170); (119173, 119179); (119210, 119213); (119362, 119364); (121344, 121398);
    (121403, 121452); (121461, 121461); (121476, 121476); (121499, 121503); (121505, 121519);
    (122880, 122886); (122888, 122904); (122907, 122913); (122915, 122916); (122918, 122922);
    (123184, 123197); (123566, 123566); (123628, 123631); (125136, 125142); (125252, 125259);
    (127995, 127999); (917505, 917505); (917536, 917631); (917760, 917999) ]%N.

Fixpoint in_ranges (c : N) (ranges : list (N * N)) : bool :=
  match ranges with
  | [] => false
  | (first, last) :: ranges' =>
      if (c <? first)%N then false
      else if (c <=? last)%N then true
      else in_ranges c ranges'
  end.

Definition is_cased (c : N) : bool := in_ranges c cased.
Definition is_case_ignorable (c : N) : bool := in_ranges c case_ignorable.

Fixpoint mapped (c : N) (mapping : list (N * N * N * N)) : N :=
  match mapping with
  | [] => c
  | (first, last, step, image) :: mapping' =>
      if (c <? first)%N then c
      else if (c <=? last)%N then
        if ((c - first) mod step =? 0)%N then (image + (c - first))%N else c
      else mapped c mapping'
  end.

(** The lower case of a code point where it does not depend on the code
    points around it. *)
Definition lower_char (c : N) : N := mapped c lowercase_mapping.

(** The first code point that is not case-ignorable is a cased one. *)
Fixpoint cased_next (cps : list N) : bool :=
  match cps with
  | [] => false
  | c :: cps' => if is_case_ignorable c then cased_next cps' else is_cased c
  end.

(** Final_Sigma: a cased letter comes before, none comes after, case-ignorable
    code points apart; [before] holds the code points before, the nearest
    first. *)
Definition final_sigma (before after : list N) : bool :=
  cased_next before && negb (cased_next after).

(** The two code points whose lower case is more than the mapping of the
    table: U+0130 becomes "i" and a combining dot, and U+03A3 becomes the
    final sigma U+03C2 in the context Final_Sigma. *)
Fixpoint lower_from (before cps : list N) : list N :=
  match cps with
  | [] => []
  | c :: cps' =>
      (if (c =? 304)%N then [105; 775]%N
       else if (c =? 931)%N then [if final_sigma before cps' then 962 else 963]%N
       else [lower_char c])
      ++ lower_from (c :: before) cps'
  end.

Definition toLowerCase (s : jsstring) : jsstring :=
  flat_map codeUnits (lower_from [] (codePoints s)).

Fixpoint str_eqb (s t : jsstring) : bool :=
  match s, t with
  | [], [] => true
  | c :: s', d :: t' => N.eqb c d && str_eqb s' t'
  | _, _ => false
  end.

Fixpoint startsWith (s p : jsstring) : bool :=
  match p, s with
  | [], _ => true
  | c :: p', d :: s' => N.eqb c d && startsWith s' p'
  | _ :: _, [] => false
  end.

(** [s.indexOf(p)], counted from the current position. *)
Fixpoint indexOf_from (i : nat) (s p : jsstring) : option nat :=
  if startsWith s p then Some i
  else match s with
       | [] => None
       | _ :: s' => indexOf_from (S i) s' p
       end.

Definition indexOf (s p : jsstring) : option nat := indexOf_from 0 s p.

Definition includes (s p : jsstring) : bool :=
  match indexOf s p with Some _ => true | None => false end.

Fixpoint trimStart (s : jsstring) : jsstring :=
  match s with
  | c :: s' => if is_space c then trimStart s' else s
  | [] => []
  end.

Definition trimEnd (s : jsstring) : jsstring := rev (trimStart (rev s)).

Definition trim (s : jsstring) : jsstring := trimEnd (trimStart s).

(** [l.join(sep)]. *)
Fixpoint join (sep : jsstring) (l : list jsstring) : jsstring :=
  match l with
  | [] => []
  | [s] => s
  | s :: l' => s ++ sep ++ join sep l'
  end.

(** [s.slice(0, n)] and [s.slice(n)] for [0 <= n]. *)
Definition slice_to (n : nat) (s : jsstring) : jsstring := firstn n s.
Definition slice_from (n : nat) (s : jsstring) : jsstring := skipn n s.

End JsString.
Import JsString.

(* ================================================================== *)
(** * Regular expressions *)
(* ================================================================== *)

Module Regex.

(** The syntax used by the patterns of the two source files. *)
Inductive regex : Type :=
| Empty                                   (* the empty pattern *)
| Lit (c : N)                             (* a pattern character *)
| Dot                                     (* .  *)
| Digit                                   (* \d *)
| Space                                   (* \s *)
| OneOf (cs : list N)                     (* [...]  *)
| NoneOf (cs : list N)                    (* [^...] *)
| Bol                                     (* ^  *)
| WordB                                   (* \b *)
| Seq (r1 r2 : regex)
| Alt (r1 r2 : regex)
| Rep (greedy : bool) (lo : nat) (hi : option nat) (r : regex)
| NegLook (r : regex).                    (* (?!r) *)

(** A match continues with the character before the current position (none
    at the start of the input) and the rest of the input; it answers with
    what is left of the input where the whole match ends. *)
Definition cont := option N -> jsstring -> option jsstring.

Definition orelse (a b : option jsstring) : option jsstring :=
  match a with Some _ => a | None => b end.

Definition word_before (prev : option N) : bool :=
  match prev with Some c => is_word c | None => false end.

Definition word_after (rest : jsstring) : bool :=
  match rest with c :: _ => is_word c | [] => false end.

Definition one (p : N -> bool) (k : cont) (rest : jsstring) : option jsstring :=
  match rest with
  | c :: rest' => if p c then k (Some c) rest' else None
  | [] => None
  end.

Definition hi_zero (hi : option nat) : bool :=
  match hi with Some 0 => true | _ => false end.

(** RepeatMatcher: an iteration that is not required ([lo = 0]) and consumes
    nothing is rejected.  Every iteration lowers [lo + List.length rest], so the
    fuel [S (lo + List.length rest)] given by [rmatch] is never used up. *)
Fixpoint rep_loop (body : cont -> cont) (greedy : bool) (k : cont)
  (fuel lo : nat) (hi : option nat) (prev : option N) (rest : jsstring)
  : option jsstring :=
  match fuel with
  | 0 => None
  | S fuel' =>
      let again :=
        if hi_zero hi then None
        else body (fun prev' rest' =>
                     if (lo =? 0) && (List.length rest' =? List.length rest) then None
                     else rep_loop body greedy k fuel' (Nat.pred lo) (option_map Nat.pred hi) prev' rest')
                  prev rest in
      let stop := if lo =? 0 then k prev rest else None in
      if lo =? 0
      then (if greedy then orelse again stop else orelse stop again)
      else again
  end.

(** [ci] is the [i] flag. *)
Fixpoint rmatch (ci : bool) (r : regex) (k : cont) (prev : option N) (rest : jsstring)
  {struct r} : option jsstring :=
  match r with
  | Empty => k prev rest
  | Lit c => one (fun x => if ci then N.eqb (canon x) (canon c) else N.eqb x c) k rest
  | Dot => one (fun x => negb (is_line_terminator x)) k rest
  | Digit => one is_digit k rest
  | Space => one is_space k rest
  | OneOf cs => one (fun x => mem x cs) k rest
  | NoneOf cs => one (fun x => negb (mem x cs)) k rest
  | Bol => match prev with None => k prev rest | Some _ => None end
  | WordB => if xorb (word_before prev) (word_after rest) then k prev rest else None
  | Seq r1 r2 => rmatch ci r1 (rmatch ci r2 k) prev rest
  | Alt r1 r2 => orelse (rmatch ci r1 k prev rest) (rmatch ci r2 k prev rest)
  | Rep greedy lo hi r' =>
      rep_loop (rmatch ci r') greedy k (S (lo + List.length rest)) lo hi prev rest
  | NegLook r' =>
      match rmatch ci r' (fun _ rest' => Some rest') prev rest with
      | Some _ => None
      | None => k prev rest
      end
  end.

(** A pattern with its flags; [g] only matters to [match] and [replace]. *)
Record pattern := Pattern { re : regex; flag_i : bool; flag_g : bool }.

(** The match that starts exactly at the current position, as its length. *)
Definition match_here (p : pattern) (prev : option N) (rest : jsstring) : option nat :=
  match rmatch (flag_i p) (re p) (fun _ rest' => Some rest') prev rest with
  | Some rest' => Some (List.length rest - List.length rest')
  | None => None
  end.

(** [p.test(text)] for a pattern without the [g] flag: is there a match
    starting at some position. *)
Fixpoint search (p : pattern) (prev : option N) (rest : jsstring) : bool :=
  match match_here p prev rest with
  | Some _ => true
  | None => match rest with
            | [] => false
            | c :: rest' => search p (Some c) rest'
            end
  end.

Definition test (p : pattern) (text : jsstring) : bool := search p None text.

(** All matches from left to right, none overlapping; after an empty match
    the scan moves on by one code unit.  [skip] counts the code units of the
    last match that are still to be passed. *)
Fixpoint scan_matches (p : pattern) (prev : option N) (rest : jsstring) (skip : nat)
  : list jsstring :=
  match skip with
  | S n => match rest with
           | c :: rest' => scan_matches p (Some c) rest' n
           | [] => []
           end
  | 0 =>
      match match_here p prev rest with
      | Some n =>
          firstn n rest ::
          match rest with
          | c :: rest' => scan_matches p (Some c) rest' (Nat.pred n)
          | [] => []
          end
      | None =>
          match rest with
          | c :: rest' => scan_matches p (Some c) rest' 0
          | [] => []
          end
      end
  end.

(** [text.match(p)] for a pattern with the [g] flag: [null] when nothing
    matches, the array of the matched substrings otherwise. *)
Definition js_match (p : pattern) (text : jsstring) : option (list jsstring) :=
  match scan_matches p None text 0 with
  | [] => None
  | ms => Some ms
  end.

(** [text.replace(p, f)] for a pattern with the [g] flag; [f] receives the
    matched substring (a replacement string is a constant [f]). *)
Fixpoint scan_replace (p : pattern) (f : jsstring -> jsstring)
  (prev : option N) (rest : jsstring) (skip : nat) : jsstring :=
  match skip with
  | S n => match rest with
           | c :: rest' => scan_replace p f (Some c) rest' n
           | [] => []
           end
  | 0 =>
      match match_here p prev rest with
      | Some n =>
          f (firstn n rest) ++
          match rest with
          | c :: rest' =>
              if n =? 0 then c :: scan_replace p f (Some c) rest' 0
              else scan_replace p f (Some c) rest' (Nat.pred n)
          | [] => []
          end
      | None =>
          match rest with
          | c :: rest' => c :: scan_replace p f (Some c) rest' 0
          | [] => []
          end
      end
  end.

Definition replace_all (p : pattern) (f : jsstring -> jsstring) (text : jsstring) : jsstring :=
  scan_replace p f None text 0.

(** [text.replace(p, s)] for a pattern without the [g] flag: the first match
    only. *)
Fixpoint scan_replace_first (p : pattern) (s : jsstring) (prev : option N) (rest : jsstring)
  : jsstring :=
  match match_here p prev rest with
  | Some n => s ++ skipn n rest
  | None => match rest with
            | c :: rest' => c :: scan_replace_first p s (Some c) rest'
            | [] => []
            end
  end.

Definition replace_first (p : pattern) (s : jsstring) (text : jsstring) : jsstring :=
  scan_replace_first p s None text.

(** [text.split(p)]: [piece] holds, reversed, the code units since the end
    of the last separator.  A separator match is tried at every position; an
    empty match directly after the last separator is not a separator. *)
Fixpoint scan_split (p : pattern) (prev : option N) (rest : jsstring) (skip : nat)
  (piece : jsstring) : list jsstring :=
  match skip with
  | S n => match rest with
           | c :: rest' => scan_split p (Some c) rest' n piece
           | [] => [rev piece]
           end
  | 0 =>
      match rest with
      | [] => [rev piece]
      | c :: rest' =>
          match match_here p prev rest with
          | Some 0 =>
              match piece with
              | [] => scan_split p (Some c) rest' 0 [c]
              | _ => rev piece :: scan_split p (Some c) rest' 0 [c]
              end
          | Some (S n) => rev piece :: scan_split p (Some c) rest' n []
          | None => scan_split p (Some c) rest' 0 (c :: piece)
          end
      end
  end.

Definition split (p : pattern) (text : jsstring) : list jsstring :=
  match text with
  | [] => match match_here p None [] with Some _ => [] | None => [[]] end
  | _ => scan_split p None text 0 []
  end.

(** Building blocks for writing the literals down. *)
Fixpoint lits (s : jsstring) : regex :=
  match s with
  | [] => Empty
  | [c] => Lit c
  | c :: s' => Seq (Lit c) (lits s')
  end.

Definition L (s : string) : regex := lits (str s).

Fixpoint seqs (rs : list regex) : regex :=
  match rs with
  | [] => Empty
  | [r] => r
  | r :: rs' => Seq r (seqs rs')
  end.

Fixpoint alts (rs : list regex) : regex :=
  match rs with
  | [] => Empty
  | [r] => r
  | r :: rs' => Alt r (alts rs')
  end.

Definition words (ws : list string) : regex := alts (map L ws).

Definition star (r : regex) : regex := Rep true 0 None r.
Definition plus (r : regex) : regex := Rep true 1 None r.
Definition between (lo hi : nat) (r : regex) : regex := Rep true lo (Some hi) r.
Definition at_least (lo : nat) (r : regex) : regex := Rep true lo None r.
Definition lazy_star (r : regex) : regex := Rep false 0 None r.

(** The flags of a literal: [/r/], [/r/i], [/r/g], [/r/gi]. *)
Definition plain (r : regex) : pattern := Pattern r false false.
Definition ci (r : regex) : pattern := Pattern r true false.
Definition g (r : regex) : pattern := Pattern r false true.
Definition gi (r : regex) : pattern := Pattern r true true.

Definition whitespace : pattern := plain (plus Space).          (* /\s+/ *)
Definition sentence_end : pattern := plain (plus (OneOf (str ".!?"))). (* /[.!?]+/ *)

(** A string read as a condition. *)
Definition nonempty (s : jsstring) : bool :=
  match s with [] => false | _ => true end.

End Regex.
Import Regex.

(* ================================================================== *)
(** * JavaScript numbers *)
(* ================================================================== *)

Module JsNumber.

Import FloatOps SpecFloat.

Definition of_Z (z : Z) : float :=
  if (z <? 0)%Z then PrimFloat.opp (PrimFloat.of_uint63 (Uint63.of_Z (- z)))
  else PrimFloat.of_uint63 (Uint63.of_Z z).

(** The number of an array length or of a counter. *)
Definition num (n : nat) : float := of_Z (Z.of_nat n).

(** An integer result, keeping the sign of a zero that comes from a negative
    argument. *)
Definition integral (negative : bool) (z : Z) : float :=
  if (z =? 0)%Z && negative then PrimFloat.neg_zero else of_Z z.

Definition pad_zeros (n : nat) (s : jsstring) : jsstring :=
  repeat 48%N (n - List.length s) ++ s.

Definition decimal (z : Z) : jsstring :=
  str (DecimalString.NilZero.string_of_uint (N.to_uint (Z.to_N z))).

(** [x.toFixed(f)] for [1 <= f] and [x] below 1e21: the integer [n] with
    [n / 10^f] nearest to [x] (the larger one at a tie), written with [f]
    digits after the point. *)
Definition toFixed (f : nat) (x : float) : jsstring :=
  match Prim2SF x with
  | S754_nan => str "NaN"
  | S754_infinity s => (if s then str "-" else []) ++ str "Infinity"
  | S754_zero _ => str "0." ++ repeat 48%N f
  | S754_finite s m e =>
      let p := (Z.pos m * 10 ^ Z.of_nat f)%Z in
      let n := if (0 <=? e)%Z then (p * 2 ^ e)%Z
               else let d := (2 ^ (- e))%Z in ((2 * p + d) / (2 * d))%Z in
      let ds := pad_zeros (S f) (decimal n) in
      (if s then str "-" else []) ++
      firstn (List.length ds - f) ds ++ str "." ++ skipn (List.length ds - f) ds
  end.

End JsNumber.
Import JsNumber.

Module Math.

Import FloatOps SpecFloat.

(** [Math.ceil]: the exact value of a finite float is [m * 2^e]; with
    [0 <= e] it is an integer already. *)
Definition ceil (x : float) : float :=
  match Prim2SF x with
  | S754_finite s m e =>
      if (0 <=? e)%Z then x
      else let n := if s then Z.neg m else Z.pos m in
           integral s (- ((- n) / 2 ^ (- e)))%Z
  | _ => x
  end.

(** [Math.round]: the nearest integer, a tie going up. *)
Definition round (x : float) : float :=
  match Prim2SF x with
  | S754_finite s m e =>
      if (0 <=? e)%Z then x
      else let n := if s then Z.neg m else Z.pos m in
           let d := (2 ^ (- e))%Z in
           integral s ((2 * n + d) / (2 * d))%Z
  | _ => x
  end.

Definition is_neg_zero (x : float) : bool :=
  match Prim2SF x with S754_zero true => true | _ => false end.

(** [Math.max] and [Math.min] of two numbers. *)
Definition max (a b : float) : float :=
  if PrimFloat.is_nan a || PrimFloat.is_nan b then PrimFloat.nan
  else if PrimFloat.ltb a b then b
  else if PrimFloat.ltb b a then a
  else if is_neg_zero a then b else a.

Definition min (a b : float) : float :=
  if PrimFloat.is_nan a || PrimFloat.is_nan b then PrimFloat.nan
  else if PrimFloat.ltb a b then a
  else if PrimFloat.ltb b a then b
  else if is_neg_zero a then a else b.

Definition abs (x : float) : float := PrimFloat.abs x.

End Math.

(* ================================================================== *)
(** * Objects used as lookup tables, and abnormal results *)
(* ================================================================== *)

Module JsObject.

(** The properties every object literal inherits from [Object.prototype]. *)
Definition object_prototype : list string :=
  [ "constructor"; "hasOwnProperty"; "isPrototypeOf"; "propertyIsEnumerable";
    "toLocaleString"; "toString"; "valueOf"; "__proto__";
    "__defineGetter__"; "__defineSetter__"; "__lookupGetter__"; "__lookupSetter__" ].

(** [table[key]] on an object literal [table]: an own property, else a
    property found on the prototype, else [undefined]. *)
Inductive property (A : Type) : Type :=
| Own (a : A)
| Inherited (name : string)
| Undefined.
Arguments Inherited {A} name.
Arguments Undefined {A}.

Fixpoint find_own {A : Type} (own : list (string * A)) (key : jsstring) : option A :=
  match own with
  | [] => None
  | (name, a) :: own' => if str_eqb (str name) key then Some a else find_own own' key
  end.

Definition get {A : Type} (own : list (string * A)) (key : jsstring) : property A :=
  match find_own own key with
  | Some a => Own a
  | None =>
      match find (fun name => str_eqb (str name) key) object_prototype with
      | Some name => Inherited name
      | None => Undefined
      end
  end.

(** What a call comes to.  [Foreign] stands for a value that is not of the
    expected kind: the result of calling a function of [Object.prototype]
    (a wrapper object, a boolean, the string "[object Object]", the receiver,
    a function or [undefined]), or a result built around such a value.  The
    embedding follows such a value as far as the next exception, and no
    further. *)
Inductive outcome (A : Type) : Type :=
| Ok (a : A)
| TypeError
| Foreign.
Arguments TypeError {A}.
Arguments Foreign {A}.

(** [f.call(this, text)] where [f] is the inherited property [name]:
    [__proto__] is the prototype object itself, which has no [call];
    [__defineGetter__] and [__defineSetter__] reject a missing accessor
    function; the other nine are functions that return. *)
Definition call_inherited {A : Type} (name : string) : outcome A :=
  if existsb (String.eqb name) ["__proto__"; "__defineGetter__"; "__defineSetter__"]
  then TypeError else Foreign.

(** Of the nine, [__lookupGetter__] and [__lookupSetter__] return
    [undefined], unless their argument names an accessor property on the
    prototype chain of the receiver: for an object literal that is
    [__proto__] alone.  The other seven return a value with properties. *)
Definition returns_undefined (name : string) (arg : jsstring) : bool :=
  existsb (String.eqb name) ["__lookupGetter__"; "__lookupSetter__"]
  && negb (str_eqb arg (str "__proto__")).

End JsObject.
Import JsObject.

(* ================================================================== *)
(** * The analysis report *)
(* ================================================================== *)

Inductive Altitude : Type := TooLow | TooHigh | JustRight | Unknown.

Definition altitude_eqb (a b : Altitude) : bool :=
  match a, b with
  | TooLow, TooLow | TooHigh, TooHigh | JustRight, JustRight | Unknown, Unknown => true
  | _, _ => false
  end.

Module Flags.
Record t : Type := Make {
  role : bool; tone : bool; background : bool; task : bool; examples : bool;
  chainOfThought : bool; outputFormat : bool; constraints : bool;
  prefill : bool; xmlStructure : bool }.
End Flags.

(** The [components] object.  [getEmptyAnalysis] builds it without the ten
    flags: reading one of them there gives [undefined]. *)
Module Components.
Record t : Type := Make {
  flags : option Flags.t;
  presentCount : float;
  missingCount : float;
  score : float;
  missing : list jsstring }.
End Components.

Module TokenEfficiency.
Record t : Type := Make {
  total : float; useful : float; efficiency : float; rating : jsstring }.
End TokenEfficiency.

Module SignalDensity.
Record t : Type := Make {
  density : float;
  highValueCount : option float;
  fillerCount : option float;
  rating : jsstring }.
End SignalDensity.

Module Redundancy.
Record t : Type := Make { score : float; level : jsstring }.
End Redundancy.

Module ContextEngineering.
Record t : Type := Make {
  tokenEfficiency : TokenEfficiency.t;
  signalDensity : SignalDensity.t;
  altitude : Altitude;
  redundancy : Redundancy.t }.
End ContextEngineering.

Module ModelFit.
Record t : Type := Make {
  compatibility : float;
  strengths : list jsstring;
  issues : list jsstring;
  model : option jsstring }.
End ModelFit.

Module Rating.
Record t : Type := Make { label : jsstring; color : jsstring }.
End Rating.

Module Breakdown.
Record t : Type := Make {
  components : float; efficiency : float; altitude : float; modelFit : float }.
End Breakdown.

Module OverallScore.
Record t : Type := Make {
  score : float;
  maxScore : float;
  rating : Rating.t;
  breakdown : option Breakdown.t }.
End OverallScore.

Module Report.
Record t : Type := Make {
  tokenCount : float;
  components : Components.t;
  contextEngineering : ContextEngineering.t;
  modelFit : ModelFit.t;
  overallScore : OverallScore.t }.
End Report.

(** A follow-up question of [getFollowUpQuestions]. *)
Module Question.
Record t : Type := Make {
  id : jsstring; label : jsstring; question : jsstring; placeholder : jsstring }.
End Question.

(** [!components.flag]: a missing property is [undefined], which is falsy. *)
Definition lacks (f : Flags.t -> bool) (c : Components.t) : bool :=
  match Components.flags c with
  | Some fl => negb (f fl)
  | None => true
  end.

(** [components.flag] read as a condition. *)
Definition has (f : Flags.t -> bool) (c : Components.t) : bool := negb (lacks f c).

(* ================================================================== *)
(** * PromptAnalyzer (src/analyzer.js) *)
(* ================================================================== *)

Module PromptAnalyzer.

(** [patterns.some(p => p.test(text))] *)
Definition some (patterns : list pattern) (text : jsstring) : bool :=
  existsb (fun p => test p text) patterns.

Definition countTokens (text : jsstring) : float :=
  let words := num (List.length (split whitespace (trim text))) in
  let chars := num (List.length text) in
  let byChars := Math.ceil (chars / 3.5)%float in
  let byWords := Math.ceil (words / 0.75)%float in
  Math.round ((byChars + byWords) / 2)%float.

Definition hasRole (text : jsstring) : bool :=
  some [ ci (L "[ROLE]");
         ci (seqs [L "you are "; words ["a"; "an"]; L " "; between 3 50 Dot; L " ";
                   words ["expert"; "specialist"; "assistant"; "professional"]]);
         ci (seqs [L "act as "; words ["a"; "an"]]);
         ci (L "your role is") ] text.

Definition toneWords : list string :=
  ["professional"; "casual"; "formal"; "friendly"; "technical"; "conversational";
   "academic"; "creative"].

Definition hasTone (text : jsstring) : bool :=
  test (ci (seqs [words ["tone"; "style"; "voice"]; between 0 20 Dot; words toneWords])) text.

Definition hasBackground (text : jsstring) : bool :=
  some [ ci (L "[BACKGROUND]"); ci (L "[CONTEXT]"); ci (L "background:");
         ci (L "context:"); ci (L "given that") ] text.

Definition taskVerbs : list string :=
  ["write"; "create"; "analyze"; "generate"; "explain"; "summarize"; "evaluate";
   "design"; "build"; "help"].

Definition hasTask (text : jsstring) : bool :=
  test (ci (seqs [WordB; words taskVerbs; WordB; at_least 5 Dot])) text.

Definition hasExamples (text : jsstring) : bool :=
  some [ ci (L "[EXAMPLE]"); ci (L "for example"); ci (L "e.g."); ci (L "such as:");
         ci (L "example:") ] text.

Definition hasChainOfThought (text : jsstring) : bool :=
  some [ ci (seqs [L "think step"; between 0 10 Dot; L "step"]);
         ci (L "thinking");
         ci (L "reason through");
         ci (seqs [L "analyze"; between 0 10 Dot; L "before"]);
         ci (seqs [L "first"; star Dot; L "then"]) ] text.

Definition hasOutputFormat (text : jsstring) : bool :=
  some [ ci (L "[OUTPUT]"); ci (L "[FORMAT]");
         ci (seqs [L "output"; between 0 20 Dot; words ["format"; "should be"; "must be"]]);
         ci (seqs [L "format"; between 0 20 Dot; L ":"]);
         ci (words ["json"; "markdown"; "html"; "csv"]) ] text.

Definition hasConstraints (text : jsstring) : bool :=
  some [ ci (L "[CONSTRAINTS]"); ci (L "[REQUIREMENTS]");
         ci (seqs [L "must "; words ["not"; "never"; "always"]]);
         ci (seqs [L "should "; words ["not"; "never"; "always"]]);
         ci (L "do not") ] text.

Definition hasPrefill (text : jsstring) : bool :=
  includes text (str "[OUTPUT]:") || includes text (str "Begin with:").

Definition xml_tag : regex := seqs [L "<"; plus (NoneOf (str ">")); L ">"].   (* <[^>]+> *)

Definition hasXMLStructure (text : jsstring) : bool := test (plain xml_tag) text.

(** [Object.entries(components)], in the order the literal lists the keys. *)
Definition entries (c : Flags.t) : list (string * bool) :=
  [ ("role", Flags.role c); ("tone", Flags.tone c); ("background", Flags.background c);
    ("task", Flags.task c); ("examples", Flags.examples c);
    ("chainOfThought", Flags.chainOfThought c); ("outputFormat", Flags.outputFormat c);
    ("constraints", Flags.constraints c); ("prefill", Flags.prefill c);
    ("xmlStructure", Flags.xmlStructure c) ].

Definition names : list (string * string) :=
  [ ("role", "Role/Persona"); ("tone", "Tone Context"); ("background", "Background Data");
    ("task", "Task Description"); ("examples", "Examples");
    ("chainOfThought", "Chain-of-Thought"); ("outputFormat", "Output Format");
    ("constraints", "Constraints"); ("prefill", "Response Prefill");
    ("xmlStructure", "XML Structure") ].

Definition listMissingComponents (components : Flags.t) : list jsstring :=
  fold_left
    (fun missing '(key, value) =>
       match value, find_own names (str key) with
       | false, Some name => missing ++ [str name]
       | _, _ => missing
       end)
    (entries components) [].

Definition analyzeComponents (text : jsstring) : Components.t :=
  let components :=
    Flags.Make (hasRole text) (hasTone text) (hasBackground text) (hasTask text)
      (hasExamples text) (hasChainOfThought text) (hasOutputFormat text)
      (hasConstraints text) (hasPrefill text) (hasXMLStructure text) in
  let present := num (List.length (filter (fun v => v) (map snd (entries components)))) in
  let missing := (10 - present)%float in
  Components.Make (Some components) present missing ((present / 10) * 100)%float
    (listMissingComponents components).

Definition highSignalPatterns : list pattern :=
  [ gi (words ["must"; "never"; "always"; "required"; "specifically"; "exactly"]);
    gi (words ["format:"; "output:"; "structure:"; "style:"]);
    gi (words ["example:"; "e.g."; "for instance:"]);
    g xml_tag;
    g (seqs [L "["; plus (NoneOf (str "]")); L "]"]) ].

Definition countHighSignalTokens (text : jsstring) : float :=
  let highSignalChars :=
    fold_left
      (fun chars pattern =>
         let matches := match js_match pattern text with Some ms => ms | None => [] end in
         fold_left (fun chars m => chars + List.length m) matches chars)
      highSignalPatterns 0 in
  Math.ceil (num highSignalChars / 3.5)%float.

Definition rateEfficiency (efficiency : float) : jsstring :=
  if (85 <=? efficiency)%float then str "excellent"
  else if (70 <=? efficiency)%float then str "good"
  else if (50 <=? efficiency)%float then str "fair"
  else str "poor".

Definition calculateTokenEfficiency (text : jsstring) : TokenEfficiency.t :=
  let total := countTokens text in
  let useful := countHighSignalTokens text in
  let efficiency := (if 0 <? total then (useful / total) * 100 else 0)%float in
  TokenEfficiency.Make total useful (Math.round efficiency) (rateEfficiency efficiency).

Definition rateDensity (density : float) : jsstring :=
  if (80 <=? density)%float then str "high"
  else if (60 <=? density)%float then str "medium"
  else str "low".

Definition calculateSignalDensity (text : jsstring) : SignalDensity.t :=
  let words := split whitespace (trim text) in
  let totalWords := num (List.length words) in
  let highValueWords :=
    num (List.length (filter (test (ci (Seq Bol (Regex.words
      ["must"; "never"; "always"; "required"; "specific"; "exact"; "only"; "format";
       "output"; "constraint"])))) words)) in
  let fillerWords :=
    num (List.length (filter (test (ci (Seq Bol (Regex.words
      ["very"; "really"; "quite"; "basically"; "actually"; "literally"; "perhaps";
       "maybe"; "possibly"])))) words)) in
  let density :=
    (if 0 <? totalWords then ((highValueWords - fillerWords) / totalWords) * 100 + 50
     else 50)%float in
  SignalDensity.Make (Math.max 0 (Math.min 100 (Math.round density)))
    (Some highValueWords) (Some fillerWords) (rateDensity density).

Definition lowMarkers : list pattern :=
  [ gi (seqs [L "if "; between 5 30 Dot; L " then"]);
    gi (seqs [L "when "; between 5 30 Dot; L " do"]);
    gi (seqs [L "step "; plus Digit; L ":"]);
    gi (seqs [L "first "; between 5 20 Dot; L " second "; between 5 20 Dot; L " third"]) ].

Definition highMarkers : list pattern :=
  [ gi (L "be helpful"); gi (L "do your best"); gi (L "be creative"); gi (L "be good");
    gi (seqs [L "be professional"; NegLook (Seq (L " ") (at_least 5 Dot))]) ].

Definition goodMarkers : list pattern :=
  [ gi (L "focus on"); gi (L "prioritize"); gi (L "ensure that");
    gi (seqs [L "when "; words ["analyzing"; "writing"; "creating"; "reviewing"]]);
    gi (seqs [L "must "; words ["include"; "contain"; "have"; "follow"]]) ].

(** [markers.forEach(pattern => { const matches = text.match(pattern);
    if (matches) score += matches.length; })] *)
Definition tally (markers : list pattern) (text : jsstring) : nat :=
  fold_left
    (fun score pattern =>
       match js_match pattern text with
       | Some matches => score + List.length matches
       | None => score
       end)
    markers 0.

Definition detectAltitude (text : jsstring) : Altitude :=
  let lowScore := tally lowMarkers text in
  let highScore := tally highMarkers text in
  let goodScore := tally goodMarkers text in
  if 2 <? lowScore then TooLow
  else if (2 <? highScore) && (goodScore <? 2) then TooHigh
  else JustRight.

(** The inner loop of [detectRedundancy]: [i] runs while [i < words.length - 2];
    [todo] is the number of iterations left. *)
Fixpoint phrase_loop (words : list jsstring) (i todo : nat)
  (st : list jsstring * nat) : list jsstring * nat :=
  match todo with
  | 0 => st
  | S todo' =>
      let '(phrases, redundantPhrases) := st in
      let phrase := join (str " ") (firstn 3 (skipn i words)) in
      phrase_loop words (S i) todo'
        (if existsb (str_eqb phrase) phrases then (phrases, S redundantPhrases)
         else (phrases ++ [phrase], redundantPhrases))
  end.

Definition detectRedundancy (text : jsstring) : Redundancy.t :=
  let sentences := filter (fun s => nonempty (trim s)) (split sentence_end text) in
  let '(_, redundantPhrases) :=
    fold_left
      (fun st sentence =>
         let words := split whitespace (toLowerCase (trim sentence)) in
         phrase_loop words 0 (List.length words - 2) st)
      sentences ([], 0) in
  Redundancy.Make (num redundantPhrases)
    (if 3 <? redundantPhrases then str "high"
     else if 1 <? redundantPhrases then str "medium"
     else str "low").

Definition analyzeContextEngineering (text : jsstring) : ContextEngineering.t :=
  ContextEngineering.Make (calculateTokenEfficiency text) (calculateSignalDensity text)
    (detectAltitude text) (detectRedundancy text).

Definition isCreativeTask (text : jsstring) : bool :=
  existsb (fun word => includes (toLowerCase text) (str word))
    ["write"; "create"; "design"; "imagine"; "story"; "poem"; "article"; "blog"].

Definition isAnalyticalTask (text : jsstring) : bool :=
  existsb (fun word => includes (toLowerCase text) (str word))
    ["analyze"; "evaluate"; "assess"; "compare"; "review"; "examine"].

Definition hasExplicitRequest (text : jsstring) : bool :=
  some [ ci (L "go beyond"); ci (L "comprehensive");
         ci (seqs [L "fully"; between 0 10 Dot; L "featured"]);
         ci (L "extensive"); ci (L "thorough") ] text.

(** [issues.push(s)] under a condition. *)
Definition push_if (cond : bool) (s : jsstring) (l : list jsstring) : list jsstring :=
  if cond then l ++ [s] else l.

Definition fit (issues strengths : list jsstring) (model : string) : ModelFit.t :=
  ModelFit.Make (Math.max 0 (100 - num (List.length issues) * 15)%float)
    strengths issues (Some (str model)).

Definition analyzeClaudeFit (text : jsstring) : ModelFit.t :=
  let issues := [] in
  let strengths := [] in
  let issues := push_if (isCreativeTask text && negb (hasExplicitRequest text))
    (str "Add explicit " ++ quoted "go beyond basics" ++ str " request for creative tasks")
    issues in
  let issues := push_if ((200 <? List.length text) && negb (includes (toLowerCase text) (str "because")))
    (str "Add motivation/context for better Claude 4.x performance") issues in
  let strengths := push_if (hasExamples text)
    (str "Has examples (Claude 4.x pays close attention)") strengths in
  let issues := push_if (isAnalyticalTask text && negb (test (ci (L "<thinking>")) text))
    (str "Consider adding <thinking> block for analytical tasks") issues in
  fit issues strengths "Claude 4.5".

Definition analyzeGPTFit (text : jsstring) : ModelFit.t :=
  let issues := [] in
  let strengths := [] in
  let issues := push_if (negb (hasChainOfThought text))
    (str "Add step-by-step reasoning request") issues in
  let issues := push_if (negb (hasOutputFormat text))
    (str "GPT performs better with explicit format specification") issues in
  fit issues strengths "GPT-5".

Definition analyzeGeminiFit (text : jsstring) : ModelFit.t :=
  let issues := [] in
  let strengths := [] in
  let issues := push_if (negb (includes (toLowerCase text) (str "context")) && (List.length text <? 100))
    (str "Add context/grounding for Gemini") issues in
  let issues := push_if (negb (hasConstraints text))
    (str "Gemini benefits from explicit boundaries") issues in
  fit issues strengths "Gemini 3".

Definition modelAnalyzers : list (string * (jsstring -> ModelFit.t)) :=
  [ ("claude", analyzeClaudeFit); ("gpt", analyzeGPTFit); ("gemini", analyzeGeminiFit) ].

(** [const analyzer = modelAnalyzers[model] || modelAnalyzers.claude;
    return analyzer.call(this, text);]  Whatever the lookup finds is an object
    or a function, hence truthy; only [undefined] takes the default. *)
Definition analyzeModelFit (text model : jsstring) : outcome ModelFit.t :=
  let analyzer :=
    match get modelAnalyzers model with
    | Undefined => Own analyzeClaudeFit
    | found => found
    end in
  match analyzer with
  | Own f => Ok (f text)
  | Inherited name => call_inherited name
  | Undefined => TypeError
  end.

Definition getScoreRating (score : float) : Rating.t :=
  if (9 <=? score)%float then Rating.Make (str "Excellent") (str "#10b981")
  else if (7.5 <=? score)%float then Rating.Make (str "Very Good") (str "#3b82f6")
  else if (6 <=? score)%float then Rating.Make (str "Good") (str "#8b5cf6")
  else if (4 <=? score)%float then Rating.Make (str "Fair") (str "#f59e0b")
  else Rating.Make (str "Needs Work") (str "#ef4444").

Definition bind {A B : Type} (x : outcome A) (f : A -> outcome B) : outcome B :=
  match x with
  | Ok a => f a
  | TypeError => TypeError
  | Foreign => Foreign
  end.

(** [modelFit.compatibility] where the model analysis is the outcome of
    [analyzeModelFit]: a TypeError on [undefined], and [undefined] itself on
    any other value than a model analysis. *)
Definition compatibility_of (text model : jsstring) : outcome float :=
  match analyzeModelFit text model with
  | Ok modelFit => Ok (ModelFit.compatibility modelFit)
  | TypeError => TypeError
  | Foreign =>
      match get modelAnalyzers model with
      | Inherited name => if returns_undefined name text then TypeError else Ok nan
      | _ => Foreign
      end
  end.

Definition calculateOverallScore (text model : jsstring) : outcome OverallScore.t :=
  let components := analyzeComponents text in
  let contextEng := analyzeContextEngineering text in
  bind (compatibility_of text model) (fun compatibility =>
  let componentScore := (Components.score components / 10)%float in
  let efficiencyScore :=
    (TokenEfficiency.efficiency (ContextEngineering.tokenEfficiency contextEng) / 10)%float in
  let altitudeScore : float :=
    match ContextEngineering.altitude contextEng with
    | JustRight => 10%float
    | TooHigh => 5%float
    | _ => 3%float
    end in
  let modelScore := (compatibility / 10)%float in
  let weighted :=
    ((componentScore * 0.30) + (efficiencyScore * 0.25) + (altitudeScore * 0.25)
     + (modelScore * 0.20))%float in
  Ok (OverallScore.Make (Math.round (weighted * 10) / 10)%float 10 (getScoreRating weighted)
        (Some (Breakdown.Make componentScore efficiencyScore altitudeScore modelScore)))).

Definition getEmptyAnalysis : Report.t :=
  Report.Make 0
    (Components.Make None 0 10 0 [])
    (ContextEngineering.Make
       (TokenEfficiency.Make 0 0 0 (str "poor"))
       (SignalDensity.Make 0 None None (str "low"))
       Unknown
       (Redundancy.Make 0 (str "low")))
    (ModelFit.Make 0 [] [] None)
    (OverallScore.Make 0 10 (Rating.Make (str "Waiting") (str "#6b7280")) None).

(** [analyze(text, model)]; a caller that leaves [model] out gets ['claude']. *)
Definition analyze (text model : jsstring) : outcome Report.t :=
  if negb (nonempty text) || (List.length (trim text) =? 0) then Ok getEmptyAnalysis
  else
    let tokenCount := countTokens text in
    let components := analyzeComponents text in
    let contextEngineering := analyzeContextEngineering text in
    match analyzeModelFit text model with
    | Ok modelFit =>
        bind (calculateOverallScore text model) (fun overallScore =>
        Ok (Report.Make tokenCount components contextEngineering modelFit overallScore))
    | TypeError => TypeError
    | Foreign =>
        (* the report is built around a value that is no model analysis *)
        bind (calculateOverallScore text model) (fun _ => Foreign)
    end.

Definition question (id label question placeholder : string) : Question.t :=
  Question.Make (str id) (str label) (str question) (str placeholder).

(** [getFollowUpQuestions(text, analysis)] for a report [analysis]. *)
Definition getFollowUpQuestions (text : jsstring) (analysis : Report.t) : list Question.t :=
  let questions : list Question.t := [] in
  let lower := toLowerCase text in
  let questions :=
    if includes lower (str "code") || includes lower (str "script")
       || includes lower (str "program") then
      questions
        ++ [question "language" "Programming Language"
              "Which language/framework should be used?"
              "e.g., Python 3.11, React 18, TypeScript..."]
        ++ [question "constraints" "Technical Constraints"
              "Any libraries to use or avoid?"
              "e.g., Use only standard library, no external dependencies..."]
    else if includes lower (str "email") || includes lower (str "letter")
            || includes lower (str "message") then
      questions
        ++ [question "tone" "Tone" "What tone should it have?"
              "e.g., Professional, friendly, formal, urgent..."]
        ++ [question "recipient" "Recipient" "Who is the recipient?"
              "e.g., Manager, client, team member..."]
    else if includes lower (str "write") || includes lower (str "article")
            || includes lower (str "blog") then
      questions
        ++ [question "length" "Length" "Desired length?"
              "e.g., 500 words, 3 paragraphs..."]
        ++ [question "style" "Writing Style" "Any specific style?"
              "e.g., Academic, conversational, technical..."]
    else questions in
  let questions :=
    if lacks Flags.task (Report.components analysis) then
      questions
        ++ [question "goal" "Primary Goal" "What is the main thing the AI must get right?"
              "e.g., Accuracy, speed, tone, creativity..."]
    else questions in
  let questions :=
    questions
      ++ [question "avoid" "What to Avoid" "What should the AI NOT do?"
            "e.g., No jargon, no preamble, no comparisons..."] in
  firstn 3 questions.

End PromptAnalyzer.

(* ================================================================== *)
(** * The optimizer's data and store *)
(* ================================================================== *)

Module Technique.
Record t : Type := Make { name : jsstring; description : jsstring; impact : jsstring }.
End Technique.

(** [options.format] is the value of the page's output-format selector. *)
Inductive Format : Type := standard | structured | article | bullets | data.

Module Options.
Record t : Type := Make {
  format : option Format;
  concise : bool;
  noPreamble : bool;
  showThinking : bool }.
End Options.

Module Improvements.
Record t : Type := Make {
  scoreChange : float;
  scorePercent : float;
  efficiencyChange : float;
  tokenChange : float;
  tokenPercent : float;
  costPerCall : jsstring;
  costPer1000 : jsstring;
  costPerYear : jsstring;
  isBetter : bool }.
End Improvements.

(** The object [optimize] returns; [techniques] is the array that
    [this.techniques] refers to, not a copy of it. *)
Module Result.
Record t : Type := Make {
  original : jsstring;
  optimized : jsstring;
  techniques : nat;
  improvements : Improvements.t;
  newAnalysis : Report.t }.
End Result.

(** The mutable state of [PromptOptimizer]: the fields [optimize] assigns
    ([undefined] until it has run once) and the arrays allocated so far;
    [techniques] is an index into [heap]. *)
Module Store.
Record t : Type := Make {
  originalPrompt : option jsstring;
  analysis : option Report.t;
  model : option jsstring;
  level : option jsstring;
  options : option Options.t;
  techniques : option nat;
  heap : list (list Technique.t) }.

Definition initial : t := Make None None None None None None [].
End Store.

Module M.

(** A method of the optimizer: it reads and writes the store and may end
    abnormally. *)
Definition t (A : Type) : Type := Store.t -> outcome (A * Store.t).

Definition ret {A : Type} (a : A) : t A := fun s => Ok (a, s).

Definition bind {A B : Type} (m : t A) (f : A -> t B) : t B :=
  fun s =>
    match m s with
    | Ok (a, s') => f a s'
    | TypeError => TypeError
    | Foreign => Foreign
    end.

Definition lift {A : Type} (o : outcome A) : t A :=
  fun s =>
    match o with
    | Ok a => Ok (a, s)
    | TypeError => TypeError
    | Foreign => Foreign
    end.

(** Reading a property of [this.field]: a [TypeError] while [this.field] is
    [undefined]. *)
Definition read {A : Type} (field : Store.t -> option A) : t A :=
  fun s => match field s with Some a => Ok (a, s) | None => TypeError end.

Definition when (cond : bool) (m : t unit) : t unit := if cond then m else ret tt.

End M.

Declare Scope opt_scope.
Delimit Scope opt_scope with opt.
Notation "x <- m ;; k" := (M.bind m (fun x => k))
  (at level 61, m at next level, right associativity) : opt_scope.
Notation "m ;; k" := (M.bind m (fun _ => k))
  (at level 61, right associativity) : opt_scope.
Notation "' pat <- m ;; k" := (M.bind m (fun x => match x with pat => k end))
  (at level 61, pat pattern, m at next level, right associativity) : opt_scope.

Fixpoint update {A : Type} (l : list A) (i : nat) (a : A) : list A :=
  match l, i with
  | [], _ => []
  | _ :: l', 0 => a :: l'
  | x :: l', S i' => x :: update l' i' a
  end.

(** [this.techniques.push(technique)] *)
Definition push (technique : Technique.t) : M.t unit :=
  fun s =>
    match Store.techniques s with
    | None => TypeError
    | Some ref =>
        match nth_error (Store.heap s) ref with
        | None => TypeError
        | Some array =>
            Ok (tt, Store.Make (Store.originalPrompt s) (Store.analysis s) (Store.model s)
                      (Store.level s) (Store.options s) (Store.techniques s)
                      (update (Store.heap s) ref (array ++ [technique])))
        end
    end.

Definition technique (name description impact : jsstring) : Technique.t :=
  Technique.Make name description impact.

(* ================================================================== *)
(** * PromptOptimizer *)
(* ================================================================== *)

Module PromptOptimizer.

Local Open Scope opt_scope.

(** [`${n}`] for an array length or a counter. *)
Definition show (n : nat) : jsstring := decimal (Z.of_nat n).

(** The [filter] callback of [removeRedundancy] with its [seen] set and its
    [removed] counter. *)
Fixpoint dedupe (sentences seen : list jsstring) (removed : nat) : list jsstring * nat :=
  match sentences with
  | [] => ([], removed)
  | sentence :: rest =>
      let lower := toLowerCase sentence in
      if existsb (str_eqb lower) seen then dedupe rest seen (S removed)
      else let '(unique, removed') := dedupe rest (seen ++ [lower]) removed in
           (sentence :: unique, removed')
  end.

Definition fillers : pattern :=
  gi (seqs [WordB;
            words ["very"; "really"; "quite"; "basically"; "actually"; "literally";
                   "perhaps"; "maybe"; "possibly"];
            WordB; star Space]).

Definition removeRedundancy (text : jsstring) : M.t jsstring :=
  let sentences := filter nonempty (map trim (split sentence_end text)) in
  let '(unique, removed) := dedupe sentences [] 0 in
  result <-
    (if 0 <? removed then
       push (technique (str "Redundancy Removal")
               (str "Removed " ++ show removed ++ str " repeated sentence(s)")
               (str "Token efficiency improved")) ;;
       M.ret (join (str ". ") unique ++ str ".")
     else M.ret text) ;;
  match js_match fillers result with
  | Some fillerMatches =>
      if 0 <? List.length fillerMatches then
        push (technique (str "Filler Word Removal")
                (str "Removed " ++ show (List.length fillerMatches) ++ str " filler word(s)")
                (str "Signal density increased")) ;;
        M.ret (replace_all fillers (fun _ => []) result)
      else M.ret result
  | None => M.ret result
  end.

Definition improveClarity (text : jsstring) : M.t jsstring :=
  M.ret (replace_all (g (seqs [plus Space; L "and"; plus Space])) (fun _ => str " and ") text).

Definition inferRole (text : jsstring) : jsstring :=
  let lower := toLowerCase text in
  if includes lower (str "code") || includes lower (str "program") then
    str "You are a Senior Software Engineer with expertise in writing clean, production-ready code"
  else if includes lower (str "write") || includes lower (str "article") then
    str "You are an expert writer skilled at crafting clear, engaging content"
  else if includes lower (str "analyze") || includes lower (str "data") then
    str "You are a Data Analyst with expertise in extracting insights from information"
  else if includes lower (str "design") then
    str "You are a UX/UI Designer with expertise in user-centered design"
  else
    str "You are an expert assistant focused on delivering high-quality, accurate responses".

Definition formatMap (format : Format) : jsstring :=
  match format with
  | standard => str "Markdown format with clear structure"
  | structured => str "Highly structured with sections and subsections"
  | article => str "Article-style prose with paragraphs"
  | bullets => str "Concise bullet points"
  | data => str "Valid JSON format"
  end.

Definition addFrameworkStructure (text : jsstring) : M.t jsstring :=
  analysis <- M.read Store.analysis ;;
  let components := Report.components analysis in
  let result := text in
  let added : list jsstring := [] in
  let '(result, added) :=
    if lacks Flags.role components then
      (str "[ROLE]: " ++ inferRole text ++ [nl; nl] ++ result, added ++ [str "Role"])
    else (result, added) in
  let '(result, added) :=
    if lacks Flags.task components && negb (startsWith result (str "[TASK]")) then
      (replace_first (plain Bol) (str "[TASK]: ") result, added ++ [str "Task Header"])
    else (result, added) in
  '(result, added) <-
    (if lacks Flags.outputFormat components then
       options <- M.read Store.options ;;
       let format := match Options.format options with Some f => f | None => standard end in
       M.ret (result ++ [nl; nl] ++ str "[OUTPUT FORMAT]: " ++ formatMap format ++ str ".",
              added ++ [str "Output Format"])
     else M.ret (result, added)) ;;
  '(result, added) <-
    (if lacks Flags.constraints components then
       let result := result ++ [nl; nl] ++ str "[CONSTRAINTS]:" ++ [nl] in
       options <- M.read Store.options ;;
       let result :=
         if Options.concise options then result ++ str "- Be concise and direct" ++ [nl]
         else result in
       let result :=
         if Options.noPreamble options
         then result ++ str "- No preamble, go straight to the answer" ++ [nl]
         else result in
       M.ret (result ++ str "- Ensure accuracy and relevance" ++ [nl],
              added ++ [str "Constraints"])
     else M.ret (result, added)) ;;
  let '(result, added) :=
    if altitude_eqb (ContextEngineering.altitude (Report.contextEngineering analysis)) TooHigh
    then
      (result ++ [nl; nl] ++ str "[NEVER]:" ++ [nl]
         ++ str "- Don't be vague or use filler language" ++ [nl]
         ++ str "- Don't make assumptions without stating them" ++ [nl],
       added ++ [str "Negative Constraints"])
    else (result, added) in
  M.when (0 <? List.length added)
    (push (technique (str "Framework Structure")
             (str "Added: " ++ join (str ", ") added)
             (str "Follows Anthropic 10-component framework"))) ;;
  M.ret result.

(** The replacement text of [raiseAltitude], as the source file spells it:
    U+00E2 U+20AC U+00A2. *)
Definition bullet : jsstring := [226; 8364; 162]%N.

Definition raiseAltitude (text : jsstring) : M.t jsstring :=
  let result := text in
  let result := replace_all (gi (seqs [L "step "; plus Digit; L ":"])) (fun _ => bullet) result in
  let result :=
    replace_all (gi (seqs [L "first"; lazy_star Dot; L "then"; lazy_star Dot; L "finally"]))
      (fun m => str "Follow a logical progression: "
                ++ trim (replace_all (gi (words ["first"; "then"; "finally"])) (fun _ => []) m))
      result in
  push (technique (str "Altitude Correction")
          (str "Raised from too-low (hardcoded) to principle-based")
          (str "More flexible and generalizable")) ;;
  M.ret result.

Definition lowerAltitude (text : jsstring) : M.t jsstring :=
  let result := text in
  let result := replace_all (gi (L "be professional"))
    (fun _ => str "use formal business language with proper structure") result in
  let result := replace_all (gi (L "be helpful"))
    (fun _ => str "provide clear, actionable guidance with specific examples") result in
  let result := replace_all (gi (L "be creative"))
    (fun _ => str "explore unconventional approaches and present multiple options") result in
  let result := replace_all (gi (L "do your best"))
    (fun _ => str "prioritize accuracy and completeness") result in
  push (technique (str "Altitude Correction")
          (str "Lowered from too-high (vague) to specific guidance")
          (str "Clearer expectations and better results")) ;;
  M.ret result.

Definition correctAltitude (text : jsstring) : M.t jsstring :=
  analysis <- M.read Store.analysis ;;
  match ContextEngineering.altitude (Report.contextEngineering analysis) with
  | TooLow => raiseAltitude text
  | TooHigh => lowerAltitude text
  | _ => M.ret text
  end.

(** The technique record of a model's rule set, when any rule applied. *)
Definition record_applied (applied : list jsstring) (name impact : string) : M.t unit :=
  M.when (0 <? List.length applied)
    (push (technique (str name) (join (str ", ") applied) (str impact))).

Definition applyClaudeRules (text : jsstring) : M.t jsstring :=
  let result := text in
  let applied : list jsstring := [] in
  let '(result, applied) :=
    if PromptAnalyzer.isCreativeTask text && negb (PromptAnalyzer.hasExplicitRequest text) then
      (result ++ [nl; nl] ++ str "Go beyond the basics. Include as many relevant details and nuances as possible to create a comprehensive, fully-featured response.",
       applied ++ [str "Explicit " ++ quoted "go beyond" ++ str " request"])
    else (result, applied) in
  let '(result, applied) :=
    if PromptAnalyzer.isAnalyticalTask text && negb (test (ci (L "<thinking>")) text) then
      (result ++ [nl; nl] ++ str "Before providing your final answer, analyze the problem in a <thinking> block, considering different approaches and potential issues.",
       applied ++ [str "Thinking block for analysis"])
    else (result, applied) in
  let '(result, applied) :=
    if (200 <? List.length text) && negb (includes (toLowerCase text) (str "because"))
       && negb (includes (toLowerCase text) (str "this is important")) then
      match indexOf result (str "[CONSTRAINTS]") with
      | Some firstConstraint =>
          let insert :=
            [nl; nl] ++ str "Note: These constraints are important because they ensure the output meets specific quality and usability standards." ++ [nl] in
          (slice_to (firstConstraint + 13) result ++ insert
             ++ slice_from (firstConstraint + 13) result,
           applied ++ [str "Motivation context"])
      | None => (result, applied)
      end
    else (result, applied) in
  record_applied applied "Claude 4.x Optimization" "Optimized for Claude 4.5 Opus/Sonnet" ;;
  M.ret result.

Definition applyGPTRules (text : jsstring) : M.t jsstring :=
  let result := text in
  let applied : list jsstring := [] in
  let '(result, applied) :=
    if negb (PromptAnalyzer.hasChainOfThought text) then
      (result ++ [nl; nl] ++ str "Think through this step-by-step before providing your final answer.",
       applied ++ [str "Step-by-step reasoning"])
    else (result, applied) in
  record_applied applied "GPT-5 Optimization" "Optimized for GPT-5" ;;
  M.ret result.

Definition applyGeminiRules (text : jsstring) : M.t jsstring :=
  let result := text in
  let applied : list jsstring := [] in
  let '(result, applied) :=
    if negb (includes (toLowerCase text) (str "context")) && (List.length text <? 100) then
      (str "[CONTEXT]: Provide a response based on your training data and general knowledge."
         ++ [nl; nl] ++ result,
       applied ++ [str "Grounding context"])
    else (result, applied) in
  record_applied applied "Gemini 3 Optimization" "Optimized for Gemini 3" ;;
  M.ret result.

Definition modelRules : list (string * (jsstring -> M.t jsstring)) :=
  [ ("claude", applyClaudeRules); ("gpt", applyGPTRules); ("gemini", applyGeminiRules) ].

(** [const applier = modelRules[this.model] || modelRules.claude;
    return applier.call(this, text);]  While [this.model] is [undefined] the
    key is the string "undefined". *)
Definition applyModelSpecificRules (text : jsstring) : M.t jsstring :=
  fun s =>
    let key := match Store.model s with Some m => m | None => str "undefined" end in
    let applier :=
      match get modelRules key with
      | Undefined => Own applyClaudeRules
      | found => found
      end in
    match applier with
    | Own f => f text s
    | Inherited name => call_inherited name
    | Undefined => TypeError
    end.

Definition addExamples (text : jsstring) : M.t jsstring :=
  analysis <- M.read Store.analysis ;;
  if has Flags.examples (Report.components analysis) then M.ret text
  else
    let result := text in
    let lower := toLowerCase text in
    if includes lower (str "format") && negb (includes lower (str "example")) then
      push (technique (str "Examples Added") (str "Added structural example")
              (str "Clarifies expected format")) ;;
      M.ret (result ++ [nl; nl] ++ str "[EXAMPLE]:" ++ [nl]
               ++ str "For reference, structure your output similar to:" ++ [nl]
               ++ str "- Clear introduction" ++ [nl]
               ++ str "- Main content organized logically" ++ [nl]
               ++ str "- Concise conclusion")
    else M.ret result.

Definition addChainOfThought (text : jsstring) : M.t jsstring :=
  if PromptAnalyzer.hasChainOfThought text then M.ret text
  else
    let result := text in
    if PromptAnalyzer.isAnalyticalTask text || (300 <? List.length text) then
      push (technique (str "Chain-of-Thought Added") (str "Added reasoning framework")
              (str "Improves analytical quality")) ;;
      M.ret (result ++ [nl; nl] ++ str "Think through this systematically:" ++ [nl]
               ++ str "1. Understand the core requirements" ++ [nl]
               ++ str "2. Consider different approaches" ++ [nl]
               ++ str "3. Evaluate trade-offs" ++ [nl]
               ++ str "4. Provide your recommended solution")
    else M.ret result.

Definition enhanceStructure (text : jsstring) : M.t jsstring :=
  if PromptAnalyzer.hasXMLStructure text then M.ret text
  else
    let result := replace_all (gi (L "[ROLE]:")) (fun _ => str "<role>" ++ [nl]) text in
    let result := replace_all (gi (L "[TASK]:")) (fun _ => str "</role>" ++ [nl; nl] ++ str "<task>") result in
    let result := replace_all (gi (L "[OUTPUT FORMAT]:"))
      (fun _ => str "</task>" ++ [nl; nl] ++ str "<output_format>") result in
    let result := replace_all (gi (L "[CONSTRAINTS]:"))
      (fun _ => str "</output_format>" ++ [nl; nl] ++ str "<constraints>") result in
    let result :=
      if includes result (str "<constraints>") && negb (includes result (str "</constraints>"))
      then result ++ [nl] ++ str "</constraints>"
      else result in
    M.when (negb (str_eqb result text))
      (push (technique (str "XML Structure")
               (str "Converted to XML format for better parsing")
               (str "Clearer structure for AI"))) ;;
    M.ret result.

Definition calculateImprovements (oldAnalysis newAnalysis : Report.t) : Improvements.t :=
  let old_score := OverallScore.score (Report.overallScore oldAnalysis) in
  let efficiency (a : Report.t) :=
    TokenEfficiency.efficiency (ContextEngineering.tokenEfficiency (Report.contextEngineering a)) in
  let scoreChange := (OverallScore.score (Report.overallScore newAnalysis) - old_score)%float in
  let efficiencyChange := (efficiency newAnalysis - efficiency oldAnalysis)%float in
  let tokenChange := (Report.tokenCount newAnalysis - Report.tokenCount oldAnalysis)%float in
  let costPerToken := 0.000003%float in
  let originalCost := (Report.tokenCount oldAnalysis * costPerToken)%float in
  let optimizedCost := (Report.tokenCount newAnalysis * costPerToken)%float in
  let costChange := (optimizedCost - originalCost)%float in
  Improvements.Make
    (Math.round (scoreChange * 10) / 10)%float
    (if (0 <? old_score)%float then Math.round ((scoreChange / old_score) * 100)%float
     else 0%float)
    (Math.round efficiencyChange)
    tokenChange
    (if (0 <? Report.tokenCount oldAnalysis)%float
     then Math.round ((tokenChange / Report.tokenCount oldAnalysis) * 100)%float
     else 0%float)
    (toFixed 6 (Math.abs costChange))
    (toFixed 2 (Math.abs (costChange * 1000)%float))
    (toFixed 2 (Math.abs (costChange * 1000 * 365)%float))
    (0 <? scoreChange)%float.

(** The assignments at the entry of [optimize]; [this.techniques = []]
    allocates a new array. *)
Definition enter (originalPrompt : jsstring) (analysis : Report.t) (model level : jsstring)
  (options : Options.t) : M.t unit :=
  fun s =>
    Ok (tt, Store.Make (Some originalPrompt) (Some analysis) (Some model) (Some level)
              (Some options) (Some (List.length (Store.heap s))) (Store.heap s ++ [[]])).

Definition is_level (level : jsstring) (names : list string) : bool :=
  existsb (fun name => str_eqb level (str name)) names.

(** [optimize(originalPrompt, analysis, model, level, options)]; a caller that
    leaves them out gets ['standard'] and [{}]. *)
Definition optimize (originalPrompt : jsstring) (analysis : Report.t) (model level : jsstring)
  (options : Options.t) : M.t Result.t :=
  enter originalPrompt analysis model level options ;;
  let optimized := originalPrompt in
  optimized <-
    (if is_level level ["quick"; "standard"; "advanced"] then
       optimized <- removeRedundancy optimized ;;
       improveClarity optimized
     else M.ret optimized) ;;
  optimized <-
    (if is_level level ["standard"; "advanced"] then
       optimized <- addFrameworkStructure optimized ;;
       optimized <- correctAltitude optimized ;;
       applyModelSpecificRules optimized
     else M.ret optimized) ;;
  optimized <-
    (if is_level level ["advanced"] then
       optimized <- addExamples optimized ;;
       optimized <- addChainOfThought optimized ;;
       enhanceStructure optimized
     else M.ret optimized) ;;
  newAnalysis <- M.lift (PromptAnalyzer.analyze optimized model) ;;
  techniques <- M.read Store.techniques ;;
  M.ret (Result.Make originalPrompt optimized techniques
           (calculateImprovements analysis newAnalysis) newAnalysis).

End PromptOptimizer.

(* ================================================================== *)
(** * Notions used to state the properties *)
(* ================================================================== *)

Unset Implicit Arguments.

(** The number of occurrences of a marker pattern in a text. *)
Definition occurrences (p : pattern) (text : jsstring) : nat :=
  List.length (scan_matches p None text 0).

(** The marker count of a pattern family. *)
Definition marker_count (markers : list pattern) (text : jsstring) : nat :=
  list_sum (map (fun p => occurrences p text) markers).

(** The decision rule of the altitude classification, as the specification
    words it. *)
Definition altitude_rule (low high good : nat) : Altitude :=
  if 2 <? low then TooLow
  else if (2 <? high) && (good <? 2) then TooHigh
  else JustRight.

(** The technique array that [this.techniques] refers to. *)
Definition current (s : Store.t) : option (list Technique.t) :=
  match Store.techniques s with
  | Some ref => nth_error (Store.heap s) ref
  | None => None
  end.

Definition set_heap (s : Store.t) (heap : list (list Technique.t)) : Store.t :=
  Store.Make (Store.originalPrompt s) (Store.analysis s) (Store.model s) (Store.level s)
    (Store.options s) (Store.techniques s) heap.

(** The store after the records [recs] were pushed, in this order. *)
Definition record (s : Store.t) (recs : list Technique.t) : Store.t :=
  match Store.techniques s with
  | Some ref =>
      match nth_error (Store.heap s) ref with
      | Some array => set_heap s (update (Store.heap s) ref (array ++ recs))
      | None => s
      end
  | None => s
  end.

(** Two stores hold the same arguments of the call in progress. *)
Definition same_call (s1 s2 : Store.t) : Prop :=
  Store.originalPrompt s1 = Store.originalPrompt s2
  /\ Store.analysis s1 = Store.analysis s2
  /\ Store.model s1 = Store.model s2
  /\ Store.level s1 = Store.level s2
  /\ Store.options s1 = Store.options s2.

(** [this.techniques] is an array. *)
Definition ready (s : Store.t) : Prop := exists array, current s = Some array.

(** A method is framed when all it takes from the store are the arguments of
    the call in progress, and all it does to the store is push records on
    [this.techniques]: from two stores that hold the same arguments it ends
    the same way, with the same value and the same records pushed. *)
Definition framed {A : Type} (m : M.t A) : Prop :=
  forall s1 s2, same_call s1 s2 -> ready s1 -> ready s2 ->
    match m s1, m s2 with
    | Ok (a1, s1'), Ok (a2, s2') =>
        a1 = a2 /\ exists recs, s1' = record s1 recs /\ s2' = record s2 recs
    | TypeError, TypeError => True
    | Foreign, Foreign => True
    | _, _ => False
    end.

(** The records a method pushes when run from [s]. *)
Definition pushed {A : Type} (m : M.t A) (s : Store.t) : option (list Technique.t) :=
  match m s with
  | Ok (_, s') =>
      match current s, current s' with
      | Some before, Some after => Some (skipn (List.length before) after)
      | _, _ => None
      end
  | _ => None
  end.

(** A stage fires when it pushes a technique record. *)
Definition fires (stage : jsstring -> M.t jsstring) (text : jsstring) (s : Store.t) : bool :=
  match pushed (stage text) s with
  | Some (_ :: _) => true
  | _ => false
  end.

(** What a caller sees of a call of [optimize]: the result with the content
    of its technique array. *)
Definition observed (o : outcome (Result.t * Store.t))
  : outcome (jsstring * jsstring * list Technique.t * Improvements.t * Report.t) :=
  match o with
  | Ok (r, s) =>
      Ok (Result.original r, Result.optimized r,
          nth (Result.techniques r) (Store.heap s) [],
          Result.improvements r, Result.newAnalysis r)
  | TypeError => TypeError
  | Foreign => Foreign
  end.

(** The sentences [removeRedundancy] sees in a text. *)
Definition sentences_of (text : jsstring) : list jsstring :=
  filter nonempty (map trim (split sentence_end text)).

Definition count (c : N) (s : jsstring) : nat := count_occ N.eq_dec s c.

(** The store as the assignments at the entry of [optimize] leave it. *)
Definition entered (originalPrompt : jsstring) (analysis : Report.t) (model level : jsstring)
  (options : Options.t) (s : Store.t) : Store.t :=
  Store.Make (Some originalPrompt) (Some analysis) (Some model) (Some level) (Some options)
    (Some (List.length (Store.heap s))) (Store.heap s ++ [[]]).

(** The stages that [optimize] runs for a level, and the final analysis. *)
Definition pipeline (originalPrompt model level : jsstring) : M.t (jsstring * Report.t) :=
  (optimized <-
     (if PromptOptimizer.is_level level ["quick"; "standard"; "advanced"] then
        optimized <- PromptOptimizer.removeRedundancy originalPrompt ;;
        PromptOptimizer.improveClarity optimized
      else M.ret originalPrompt) ;;
   optimized <-
     (if PromptOptimizer.is_level level ["standard"; "advanced"] then
        optimized <- PromptOptimizer.addFrameworkStructure optimized ;;
        optimized <- PromptOptimizer.correctAltitude optimized ;;
        PromptOptimizer.applyModelSpecificRules optimized
      else M.ret optimized) ;;
   optimized <-
     (if PromptOptimizer.is_level level ["advanced"] then
        optimized <- PromptOptimizer.addExamples optimized ;;
        optimized <- PromptOptimizer.addChainOfThought optimized ;;
        PromptOptimizer.enhanceStructure optimized
      else M.ret optimized) ;;
   newAnalysis <- M.lift (PromptAnalyzer.analyze optimized model) ;;
   M.ret (optimized, newAnalysis))%opt.



(** The options of a caller that sets none. *)
Definition no_options : Options.t := Options.Make None false false false.




(** The first record of a call is the one of the framework stage with all
    four sections, and the optimized text is not blank. *)
Definition framework_fired
  (o : outcome (jsstring * jsstring * list Technique.t * Improvements.t * Report.t)) : bool :=
  match o with
  | Ok (_, optimized, t :: _, _, _) =>
      str_eqb (Technique.name t) (str "Framework Structure")
      && str_eqb (Technique.description t)
           (str "Added: Role, Task Header, Output Format, Constraints")
      && negb (forallb is_space optimized)
  | _ => false
  end.

(** C6 as stated, for one level: from the empty text and the empty report
    [optimize] returns a text that is empty or blank. *)
Definition empty_stays_blank (level : jsstring) : Prop :=
  forall (model : jsstring) (options : Options.t) (s : Store.t),
  exists r s',
    PromptOptimizer.optimize [] PromptAnalyzer.getEmptyAnalysis model level options s
    = Ok (r, s')
    /\ forallb is_space (Result.optimized r) = true.

(** The occurrences of a code unit in the pieces of a list. *)
Definition total (c : N) (l : list jsstring) : nat := list_sum (map (count c) l).

(** The names of the technique records of stages 1 and 2. *)
Definition quick_technique (t : Technique.t) : Prop :=
  Technique.name t = str "Redundancy Removal" \/ Technique.name t = str "Filler Word Removal".

(** The code units that end a sentence, and texts free of them. *)
Definition ends_sentence (c : N) : bool := mem c (str ".!?").

Definition free (u : jsstring) : Prop := Forall (fun c => ends_sentence c = false) u.

(** The length of the run of sentence ends at the head of a text. *)
Fixpoint run (rest : jsstring) : nat :=
  match rest with
  | c :: rest' => if ends_sentence c then S (run rest') else 0
  | [] => 0
  end.

(** No two sentences of a text are equal case-insensitively after trimming. *)
Definition no_duplicate_sentences (text : jsstring) : Prop :=
  NoDup (map toLowerCase (sentences_of text)).

(** C8 as stated: after one pass of [removeRedundancy] no two sentences of
    the output are equal, and a second pass leaves the number of sentences
    as it is. *)
Definition one_pass_settles : Prop :=
  forall (text : jsstring) (s : Store.t) (out : jsstring) (s1 : Store.t),
    ready s ->
    PromptOptimizer.removeRedundancy text s = Ok (out, s1) ->
    no_duplicate_sentences out
    /\ forall out2 s2,
         PromptOptimizer.removeRedundancy out s1 = Ok (out2, s2) ->
         List.length (sentences_of out2) = List.length (sentences_of out).

(** What follows the first sentence in [unique.join('. ') + '.'], and the
    pieces into which [split] cuts it. *)
Fixpoint rest_of (us : list jsstring) : jsstring :=
  match us with
  | [] => str "."
  | u :: us' => str ". " ++ u ++ rest_of us'
  end.

Fixpoint pieces_of (us : list jsstring) : list jsstring :=
  match us with
  | [] => [[]]
  | u :: us' => (32%N :: u) :: pieces_of us'
  end.

(** Two continuations agree on every rest of at most [n] code units. *)
Definition agree (n : nat) (k1 k2 : cont) : Prop :=
  forall prev rest, List.length rest <= n -> k1 prev rest = k2 prev rest.

(** [tail] is what is left of [rest] after some code units. *)
Definition suffix (tail rest : jsstring) : Prop := exists taken, rest = taken ++ tail.

(** Whether a text mentions one of some keywords, in any letter case. *)
Definition mentions (text : jsstring) (keywords : list string) : bool :=
  existsb (fun word => includes (toLowerCase text) (str word)) keywords.

(** [getFollowUpQuestions] knows three types of task, by their keywords. *)
Definition task_type_keywords : list string :=
  ["code"; "script"; "program"; "email"; "letter"; "message"; "write"; "article"; "blog"].

Definition ids (questions : list Question.t) : list jsstring := map Question.id questions.

(** The ten components with the names under which a report lists them as
    missing. *)
Definition component_labels : list ((Flags.t -> bool) * string) :=
  [ (Flags.role, "Role/Persona"); (Flags.tone, "Tone Context");
    (Flags.background, "Background Data"); (Flags.task, "Task Description");
    (Flags.examples, "Examples"); (Flags.chainOfThought, "Chain-of-Thought");
    (Flags.outputFormat, "Output Format"); (Flags.constraints, "Constraints");
    (Flags.prefill, "Response Prefill"); (Flags.xmlStructure, "XML Structure") ].

(** A text is blank when it is empty or made of white space only. *)
Definition blank (text : jsstring) : bool := forallb is_space text.

(** The three-word windows of the words of a sentence: one at every index
    below the number of words less two. *)
Definition windows (words : list jsstring) : list jsstring :=
  map (fun i => join (str " ") (firstn 3 (skipn i words))) (seq 0 (List.length words - 2)).

(** The windows of all the sentences [detectRedundancy] sees in a text, in
    lower case. *)
Definition windows_of (text : jsstring) : list jsstring :=
  flat_map (fun sentence => windows (split whitespace (toLowerCase (trim sentence))))
    (filter (fun s => nonempty (trim s)) (split sentence_end text)).

(** The number of different strings in a list. *)
Definition distinct (l : list jsstring) : nat :=
  List.length (nodup (list_eq_dec N.eq_dec) l).

(** One turn of the inner loop of [detectRedundancy]. *)
Definition absorb (st : list jsstring * nat) (phrase : jsstring) : list jsstring * nat :=
  let '(phrases, redundantPhrases) := st in
  if existsb (str_eqb phrase) phrases then (phrases, S redundantPhrases)
  else (phrases ++ [phrase], redundantPhrases).

(** A list is part of another one when it is got from it by leaving
    elements out. *)
Inductive part_of {A : Type} : list A -> list A -> Prop :=
| part_nil : part_of [] []
| part_skip (l1 l2 : list A) (y : A) : part_of l1 l2 -> part_of l1 (y :: l2)
| part_take (l1 l2 : list A) (x : A) : part_of l1 l2 -> part_of (x :: l1) (x :: l2).

Definition technique_names (recs : list Technique.t) : list jsstring :=
  map Technique.name recs.

(** The name under which the rule set of a model key records itself; the
    keys are tried as [modelRules] lists them, and any other key gets the
    rules of Claude. *)
Definition rule_set_name (model : jsstring) : string :=
  if str_eqb (str "claude") model then "Claude 4.x Optimization"
  else if str_eqb (str "gpt") model then "GPT-5 Optimization"
  else if str_eqb (str "gemini") model then "Gemini 3 Optimization"
  else "Claude 4.x Optimization".

(** The technique names in the order of the stages that record them. *)
Definition technique_order (model : jsstring) : list jsstring :=
  map str [ "Redundancy Removal"; "Filler Word Removal"; "Framework Structure";
            "Altitude Correction"; rule_set_name model; "Examples Added";
            "Chain-of-Thought Added"; "XML Structure" ].

(** What [improveClarity] makes of a text. *)
Definition clarified (text : jsstring) : jsstring :=
  replace_all (g (seqs [plus Space; L "and"; plus Space])) (fun _ => str " and ") text.

(** Stages run one after the other, each on the text of the one before. *)
Fixpoint chain (stages : list (jsstring -> M.t jsstring)) (text : jsstring) : M.t jsstring :=
  match stages with
  | [] => M.ret text
  | stage :: stages' => M.bind (stage text) (chain stages')
  end.

Definition stages_of (level : jsstring) : list (jsstring -> M.t jsstring) :=
  (if PromptOptimizer.is_level level ["quick"; "standard"; "advanced"]
   then [PromptOptimizer.removeRedundancy; PromptOptimizer.improveClarity] else [])
  ++ (if PromptOptimizer.is_level level ["standard"; "advanced"]
      then [PromptOptimizer.addFrameworkStructure; PromptOptimizer.correctAltitude;
            PromptOptimizer.applyModelSpecificRules] else [])
  ++ (if PromptOptimizer.is_level level ["advanced"]
      then [PromptOptimizer.addExamples; PromptOptimizer.addChainOfThought;
            PromptOptimizer.enhanceStructure] else []).

(** The store during a call of [optimize] for [model]. *)
Definition prepared (model : jsstring) (s : Store.t) : Prop :=
  ready s
  /\ (exists analysis, Store.analysis s = Some analysis)
  /\ (exists options, Store.options s = Some options)
  /\ Store.model s = Some model.

(** A stage returns, recording techniques whose names are part of [allowed],
    in this order; when it records nothing its text is [quiet] of the text
    it was given. *)
Definition logs (model : jsstring) (allowed : list jsstring) (quiet : jsstring -> jsstring)
  (stage : jsstring -> M.t jsstring) : Prop :=
  forall (text : jsstring) (s : Store.t),
    prepared model s ->
    exists out recs,
      stage text s = Ok (out, record s recs)
      /\ part_of (technique_names recs) allowed
      /\ (recs = [] -> out = quiet text).

(** The model key names no property inherited from [Object.prototype]. *)
Definition plain_key (model : jsstring) : Prop :=
  forall name, get PromptAnalyzer.modelAnalyzers model <> Inherited name.

(** The name that [listMissingComponents] adds for an entry of the
    components. *)
Definition label_if_missing (entry : string * bool) : list jsstring :=
  match snd entry, find_own PromptAnalyzer.names (str (fst entry)) with
  | false, Some name => [str name]
  | _, _ => []
  end.

(** A test that holds of both truth values. *)
Definition for_both (f : bool -> bool) : bool := f true && f false.

(** The code unit before the position reached after [taken], when [prev] is
    the one before [taken]. *)
Definition last_of (prev : option N) (taken : jsstring) : option N :=
  fold_left (fun _ c => Some c) taken prev.

(** The iterations of a quantifier: each one matches by [R]; one that is not
    required may not be empty. *)
Inductive iter (R : option N -> jsstring -> jsstring -> Prop)
  : nat -> option nat -> option N -> jsstring -> jsstring -> Prop :=
| iter_stop (hi : option nat) (prev : option N) (rest : jsstring) :
    iter R 0 hi prev [] rest
| iter_more (lo : nat) (hi : option nat) (prev : option N) (t1 t2 rest : jsstring) :
    hi_zero hi = false ->
    R prev t1 (t2 ++ rest) ->
    (lo = 0 -> t1 <> []) ->
    iter R (Nat.pred lo) (option_map Nat.pred hi) (last_of prev t1) t2 rest ->
    iter R lo hi prev (t1 ++ t2) rest.

(** What a pattern matches, whatever the order in which a matcher tries the
    alternatives: [matches ci r prev taken rest] says that [r] matches the
    code units [taken] when they come after [prev] and before [rest]. *)
Fixpoint matches (ci : bool) (r : regex) (prev : option N) (taken rest : jsstring) : Prop :=
  match r with
  | Empty => taken = []
  | Lit c =>
      exists x, taken = [x]
                /\ (if ci then N.eqb (canon x) (canon c) else N.eqb x c) = true
  | Dot => exists x, taken = [x] /\ negb (is_line_terminator x) = true
  | Digit => exists x, taken = [x] /\ is_digit x = true
  | Space => exists x, taken = [x] /\ is_space x = true
  | OneOf cs => exists x, taken = [x] /\ mem x cs = true
  | NoneOf cs => exists x, taken = [x] /\ negb (mem x cs) = true
  | Bol => taken = [] /\ prev = None
  | WordB => taken = [] /\ xorb (word_before prev) (word_after rest) = true
  | Seq r1 r2 =>
      exists t1 t2,
        taken = t1 ++ t2
        /\ matches ci r1 prev t1 (t2 ++ rest)
        /\ matches ci r2 (last_of prev t1) t2 rest
  | Alt r1 r2 => matches ci r1 prev taken rest \/ matches ci r2 prev taken rest
  | Rep _ lo hi r' => iter (matches ci r') lo hi prev taken rest
  | NegLook r' =>
      taken = []
      /\ ~ exists t rest', rest = t ++ rest' /\ matches ci r' prev t rest'
  end.

(** The pattern occurs in a text: some part of the text matches it. *)
Definition occurs (p : pattern) (text : jsstring) : Prop :=
  exists pre taken post,
    text = pre ++ taken ++ post
    /\ matches (flag_i p) (re p) (last_of None pre) taken post.

(** A pattern that looks at nothing around what it matches. *)
Fixpoint context_free (r : regex) : bool :=
  match r with
  | Bol | WordB | NegLook _ => false
  | Seq r1 r2 | Alt r1 r2 => context_free r1 && context_free r2
  | Rep _ _ _ r' => context_free r'
  | _ => true
  end.

(** A pattern that never matches a line feed. *)
Fixpoint line_bound (r : regex) : bool :=
  match r with
  | Lit c => negb (N.eqb c nl)
  | Space => false
  | OneOf cs => negb (mem nl cs)
  | NoneOf cs => mem nl cs
  | Seq r1 r2 | Alt r1 r2 => line_bound r1 && line_bound r2
  | Rep _ _ _ r' => line_bound r'
  | _ => true
  end.

(** The matcher finds only matches in the sense of [matches], and it finds
    one whenever there is one with which the continuation succeeds. *)
Definition sound (ci : bool) (r : regex) : Prop :=
  forall (k : cont) prev rest out,
    rmatch ci r k prev rest = Some out ->
    exists taken rest',
      rest = taken ++ rest'
      /\ matches ci r prev taken rest'
      /\ k (last_of prev taken) rest' = Some out.

Definition complete (ci : bool) (r : regex) : Prop :=
  forall (k : cont) prev taken rest',
    matches ci r prev taken rest' ->
    k (last_of prev taken) rest' <> None ->
    rmatch ci r k prev (taken ++ rest') <> None.

(** What [addFrameworkStructure] puts before the text and after it. *)
Definition framework_head (c : Components.t) (text : jsstring) : jsstring :=
  (if lacks Flags.task c && (lacks Flags.role c || negb (startsWith text (str "[TASK]")))
   then str "[TASK]: " else [])
  ++ (if lacks Flags.role c then str "[ROLE]: " ++ PromptOptimizer.inferRole text ++ [nl; nl] else []).

Definition framework_tail (analysis : Report.t) (options : Options.t) : jsstring :=
  (if lacks Flags.outputFormat (Report.components analysis) then
     [nl; nl] ++ str "[OUTPUT FORMAT]: "
       ++ PromptOptimizer.formatMap (match Options.format options with Some f => f | None => standard end)
       ++ str "."
   else [])
  ++ (if lacks Flags.constraints (Report.components analysis) then
        [nl; nl] ++ str "[CONSTRAINTS]:" ++ [nl]
          ++ (if Options.concise options then str "- Be concise and direct" ++ [nl] else [])
          ++ (if Options.noPreamble options
              then str "- No preamble, go straight to the answer" ++ [nl] else [])
          ++ str "- Ensure accuracy and relevance" ++ [nl]
      else [])
  ++ (if altitude_eqb (ContextEngineering.altitude (Report.contextEngineering analysis)) TooHigh
      then [nl; nl] ++ str "[NEVER]:" ++ [nl]
             ++ str "- Don't be vague or use filler language" ++ [nl]
             ++ str "- Don't make assumptions without stating them" ++ [nl]
      else []).


(** The text that [addFrameworkStructure] computes. *)
Definition framework_text (analysis : Report.t) (options : Options.t) (text : jsstring)
  : jsstring :=
  let components := Report.components analysis in
  let result := text in
  let result :=
    if lacks Flags.role components
    then str "[ROLE]: " ++ PromptOptimizer.inferRole text ++ [nl; nl] ++ result else result in
  let result :=
    if lacks Flags.task components && negb (startsWith result (str "[TASK]"))
    then replace_first (plain Bol) (str "[TASK]: ") result else result in
  let result :=
    if lacks Flags.outputFormat components then
      result ++ [nl; nl] ++ str "[OUTPUT FORMAT]: "
        ++ PromptOptimizer.formatMap (match Options.format options with Some f => f | None => standard end)
        ++ str "."
    else result in
  let result :=
    if lacks Flags.constraints components then
      let result := result ++ [nl; nl] ++ str "[CONSTRAINTS]:" ++ [nl] in
      let result :=
        if Options.concise options then result ++ str "- Be concise and direct" ++ [nl]
        else result in
      let result :=
        if Options.noPreamble options
        then result ++ str "- No preamble, go straight to the answer" ++ [nl]
        else result in
      result ++ str "- Ensure accuracy and relevance" ++ [nl]
    else result in
  if altitude_eqb (ContextEngineering.altitude (Report.contextEngineering analysis)) TooHigh
  then
    result ++ [nl; nl] ++ str "[NEVER]:" ++ [nl]
      ++ str "- Don't be vague or use filler language" ++ [nl]
      ++ str "- Don't make assumptions without stating them" ++ [nl]
  else result.

(** A store in which a call with the empty report and no options is in
    progress. *)
Definition in_progress : Store.t :=
  Store.Make None (Some PromptAnalyzer.getEmptyAnalysis) None None (Some no_options) (Some 0)
    [[]].

(** The sentence that [applyGPTRules] appends. *)
Definition gpt_sentence : jsstring :=
  [nl; nl] ++ str "Think through this step-by-step before providing your final answer.".

(** A text of white space only, and the code units that are not white
    space. *)
Definition spaces (w : jsstring) : Prop := Forall (fun c => is_space c = true) w.

Definition solid (c : N) : bool := negb (is_space c).

(** The arguments of a call that the stages read: the report, the model key
    and the options. *)
Definition same_inputs (s1 s2 : Store.t) : Prop :=
  Store.analysis s1 = Store.analysis s2
  /\ Store.model s1 = Store.model s2
  /\ Store.options s1 = Store.options s2.

(** A method is level-free when it reads neither [this.level] nor
    [this.originalPrompt]: from two stores that hold the same report, model
    key and options it ends the same way, with the same value and the same
    records pushed. *)
Definition level_free {A : Type} (m : M.t A) : Prop :=
  forall s1 s2, same_inputs s1 s2 -> ready s1 -> ready s2 ->
    match m s1, m s2 with
    | Ok (a1, s1'), Ok (a2, s2') =>
        a1 = a2 /\ exists recs, s1' = record s1 recs /\ s2' = record s2 recs
    | TypeError, TypeError => True
    | Foreign, Foreign => True
    | _, _ => False
    end.

(** How many of the three level tests of [optimize] a level passes: 1 for
    "quick", 2 for "standard", 3 for "advanced", 0 for any other string. *)
Definition depth (level : jsstring) : nat :=
  (if PromptOptimizer.is_level level ["quick"; "standard"; "advanced"] then 1 else 0)
  + (if PromptOptimizer.is_level level ["standard"; "advanced"] then 1 else 0)
  + (if PromptOptimizer.is_level level ["advanced"] then 1 else 0).

(** The stages that level [hi] runs after those of level [lo]. *)
Definition further (lo hi : jsstring) : list (jsstring -> M.t jsstring) :=
  (if negb (PromptOptimizer.is_level lo ["standard"; "advanced"])
      && PromptOptimizer.is_level hi ["standard"; "advanced"]
   then [PromptOptimizer.addFrameworkStructure; PromptOptimizer.correctAltitude;
         PromptOptimizer.applyModelSpecificRules] else [])
  ++ (if negb (PromptOptimizer.is_level lo ["advanced"])
         && PromptOptimizer.is_level hi ["advanced"]
      then [PromptOptimizer.addExamples; PromptOptimizer.addChainOfThought;
            PromptOptimizer.enhanceStructure] else []).

(** The block that [addChainOfThought] appends. *)
Definition reasoning_block : jsstring :=
  [nl; nl] ++ str "Think through this systematically:" ++ [nl]
  ++ str "1. Understand the core requirements" ++ [nl]
  ++ str "2. Consider different approaches" ++ [nl]
  ++ str "3. Evaluate trade-offs" ++ [nl]
  ++ str "4. Provide your recommended solution".

(** A string of ASCII characters. *)
Definition ascii (s : jsstring) : bool := forallb (fun c => (c <? 128)%N) s.

(** The two lower-case sigmas, which [toLowerCase] chooses between by the
    code points around. *)
Definition is_sigma (c : N) : bool := mem c [962; 963]%N.

(** Equal, or both a lower-case sigma. *)
Definition same_letter (x y : N) : Prop := x = y \/ (is_sigma x = true /\ is_sigma y = true).



(** The filler words of [removeRedundancy]. *)
Definition filler_words : list string :=
  ["very"; "really"; "quite"; "basically"; "actually"; "literally"; "perhaps"; "maybe";
   "possibly"].

(** A filler word in any letter case. *)
Definition is_filler (w : jsstring) : Prop :=
  exists f, In f filler_words /\ map canon w = map canon (str f).

(** No match of a pattern starts anywhere in a text that comes after
    [prev]. *)
Fixpoint quiet (p : pattern) (prev : option N) (text : jsstring) : Prop :=
  match_here p prev text = None
  /\ match text with
     | [] => True
     | c :: text' => quiet p (Some c) text'
     end.

(** A float that is a number, and one that is zero or finite. *)
Definition real (x : SpecFloat.spec_float) : Prop := x <> SpecFloat.S754_nan.

Definition finite (x : SpecFloat.spec_float) : Prop :=
  match x with
  | SpecFloat.S754_zero _ | SpecFloat.S754_finite _ _ _ => True
  | _ => False
  end.

(* ================================================================== *)
(** * The embedding at work *)
(* ================================================================== *)

Section Checks.

Example match_step_markers :
  js_match (gi (seqs [L "step "; plus Digit; L ":"])) (str "Step 1: a step 22: b steps: c")
  = Some [str "Step 1:"; str "step 22:"].
Proof. vm_compute. reflexivity. Qed.

Example split_sentences :
  split sentence_end (str "a. b!? c.") = [str "a"; str " b"; str " c"; str ""].
Proof. vm_compute. reflexivity. Qed.

Example split_words :
  split whitespace (trim (str "  one two   three ")) = [str "one"; str "two"; str "three"]
  /\ split whitespace [] = [[]].
Proof. vm_compute. split; reflexivity. Qed.

Example strip_filler_words :
  replace_all PromptOptimizer.fillers (fun _ => []) (str "[very ROLE] is Really   good, every")
  = str "[ROLE] is good, every".
Proof. vm_compute. reflexivity. Qed.

Example prepend_task_header :
  replace_first (plain Bol) (str "[TASK]: ") (str "abc") = str "[TASK]: abc".
Proof. vm_compute. reflexivity. Qed.

Example professional_without_detail :
  js_match (gi (seqs [L "be professional"; NegLook (Seq (L " ") (at_least 5 Dot))]))
    (str "be professional always. Be professional.")
  = Some [str "Be professional"].
Proof. vm_compute. reflexivity. Qed.

Example lazy_first_then_finally :
  replace_all (gi (seqs [L "first"; lazy_star Dot; L "then"; lazy_star Dot; L "finally"]))
    (fun m => str "<" ++ m ++ str ">") (str "First a then b finally c then d finally")
  = str "<First a then b finally> c then d finally".
Proof. vm_compute. reflexivity. Qed.

Example round_half_up :
  map Math.round [2.5; 0.145 * 100; 0.49999999999999994; -0.5; -2.5; 14.5; 1.4]%float
  = [3; 14; 0; -0; -2; 15; 1]%float.
Proof. vm_compute. reflexivity. Qed.

Example ceil_of_quotients :
  map Math.ceil [2.5; 6 / 3.5; 7 / 3.5; -0.5; 1 / 0.75]%float = [3; 2; 2; -0; 2]%float.
Proof. vm_compute. reflexivity. Qed.

Example toFixed_two_digits :
  map (toFixed 2) [0.015; 1.005; 12.3456; 0; 0.004; 123]%float
  = map str ["0.01"; "1.00"; "12.35"; "0.00"; "0.00"; "123.00"].
Proof. vm_compute. reflexivity. Qed.

Example count_tokens_of_a_prompt :
  PromptAnalyzer.countTokens
    (str "Write me a professional email to my boss asking for a raise") = 17%float.
Proof. vm_compute. reflexivity. Qed.

(** Lower case beyond Latin: Cyrillic, the final sigma of Greek, the capital
    I with a dot (two code units), the Kelvin sign (an ASCII letter) and a
    Deseret letter (a surrogate pair). *)
Example lower_case_beyond_latin :
  toLowerCase [1055; 1056; 1048; 1042; 1045; 1058]%N = [1087; 1088; 1080; 1074; 1077; 1090]%N
  /\ toLowerCase [927; 916; 927; 931]%N = [959; 948; 959; 962]%N
  /\ toLowerCase [931; 927; 934; 927; 931]%N = [963; 959; 966; 959; 962]%N
  /\ toLowerCase [304]%N = [105; 775]%N
  /\ toLowerCase [8490]%N = [107]%N
  /\ toLowerCase [55297; 56320]%N = [55297; 56360]%N.
Proof. vm_compute. repeat split; reflexivity. Qed.

(** A Cyrillic sentence repeated in capitals is a repetition for
    [removeRedundancy], and a Greek phrase repeated in capitals is one for
    [detectRedundancy]. *)
Example repetitions_beyond_latin :
  (exists s',
      PromptOptimizer.removeRedundancy
        [1055; 1088; 1080; 1074; 1077; 1090; 32; 1084; 1080; 1088; 46; 32;
         1055; 1056; 1048; 1042; 1045; 1058; 32; 1052; 1048; 1056; 46]%N
        (Store.Make None None None None None (Some 0) [[]])
      = Ok ([1055; 1088; 1080; 1074; 1077; 1090; 32; 1084; 1080; 1088; 46]%N, s'))
  /\ Redundancy.score
       (PromptAnalyzer.detectRedundancy
          [913; 955; 966; 945; 32; 946; 951; 964; 945; 32; 947; 945; 956; 956; 945; 46; 32;
           913; 923; 934; 913; 32; 914; 919; 932; 913; 32; 915; 913; 924; 924; 913; 46]%N)
     = 1%float.
Proof. split; [eexists|]; vm_compute; reflexivity. Qed.

(** A model key that names a function of [Object.prototype]: with
    "__lookupGetter__" the analysis is [undefined] and reading its
    compatibility raises, unless the text is "__proto__"; with "toString"
    the compatibility is [undefined] and the score NaN. *)
Example scores_of_inherited_keys :
  PromptAnalyzer.analyze (str "Summarize this report") (str "__lookupGetter__") = TypeError
  /\ PromptAnalyzer.analyze (str "__proto__") (str "__lookupGetter__") = Foreign
  /\ PromptAnalyzer.analyze (str "Summarize this report") (str "toString") = Foreign
  /\ exists overallScore,
       PromptAnalyzer.calculateOverallScore (str "Summarize this report") (str "toString")
       = Ok overallScore
       /\ is_nan (OverallScore.score overallScore) = true.
Proof.
  do 3 (split; [vm_compute; reflexivity|]).
  eexists. split; vm_compute; reflexivity.
Qed.

End Checks.

(* ================================================================== *)
(** * Lower case and what follows a text *)
(* ================================================================== *)

Section LowerCase.

Lemma str_eqb_eq (a b : jsstring) : str_eqb a b = true -> a = b.
Proof.
  revert b; induction a as [|c a IH]; intros [|d b]; cbn; try discriminate; auto.
  intro H. apply andb_prop in H as [H1 H2]. apply N.eqb_eq in H1. f_equal; auto.
Qed.

Lemma str_eqb_refl (a : jsstring) : str_eqb a a = true.
Proof. induction a as [|c a IH]; cbn; auto. now rewrite N.eqb_refl. Qed.

Lemma startsWith_spec (s p : jsstring) :
  startsWith s p = true <-> exists post, s = p ++ post.
Proof.
  revert s. induction p as [|c p IH]; intro s; cbn [app].
  - split; [intros _; now exists s | intros _; now destruct s].
  - destruct s as [|d s]; [split; [discriminate | intros [post H]; discriminate]|].
    cbn [startsWith]. rewrite andb_true_iff, N.eqb_eq, IH. split.
    + intros [-> [post ->]]. now exists post.
    + intros [post H]. inversion H; subst. split; [reflexivity | now exists post].
Qed.

(** [s.includes(p)] holds exactly when [p] occurs in [s]. *)
Lemma includes_spec (s p : jsstring) :
  includes s p = true <-> exists pre post, s = pre ++ p ++ post.
Proof.
  unfold includes, indexOf. generalize 0 as i.
  induction s as [|c s IH]; intro i; cbn [indexOf_from].
  - destruct (startsWith [] p) eqn:E.
    + apply startsWith_spec in E as [post E]. split; [intros _; now exists [], post | reflexivity].
    + split; [discriminate|]. intros (pre & post & H).
      destruct pre; [|discriminate]. cbn [app] in H.
      assert (startsWith [] p = true) by (apply startsWith_spec; now exists post).
      congruence.
  - destruct (startsWith (c :: s) p) eqn:E.
    + apply startsWith_spec in E as [post E]. split; [intros _; now exists [], post | reflexivity].
    + rewrite (IH (S i)). split.
      * intros (pre & post & ->). now exists (c :: pre), post.
      * intros (pre & post & H). destruct pre as [|d pre].
        -- cbn [app] in H.
           assert (startsWith (c :: s) p = true) by (apply startsWith_spec; now exists post).
           congruence.
        -- inversion H; subst. now exists pre, post.
Qed.

Lemma includes_before (a b p : jsstring) :
  includes a p = true -> includes (a ++ b) p = true.
Proof.
  rewrite !includes_spec. intros (pre & post & ->). exists pre, (post ++ b).
  now rewrite <- !app_assoc.
Qed.

Lemma includes_after (a b p : jsstring) :
  includes b p = true -> includes (a ++ b) p = true.
Proof.
  rewrite !includes_spec. intros (pre & post & ->). exists (a ++ pre), post.
  now rewrite <- !app_assoc.
Qed.

Lemma codePoints_pair (hi lo : N) (s : jsstring) :
  codePoints (hi :: lo :: s)
  = if is_high_surrogate hi && is_low_surrogate lo
    then (65536 + (hi - 55296) * 1024 + (lo - 56320))%N :: codePoints s
    else hi :: codePoints (lo :: s).
Proof. reflexivity. Qed.

(** A text that ends where no surrogate pair is cut is read as its code
    points, then those of what follows. *)
Lemma codePoints_app (a b : jsstring) :
  match b with [] => True | c :: _ => is_low_surrogate c = false end ->
  codePoints (a ++ b) = codePoints a ++ codePoints b.
Proof.
  intro H. remember (List.length a) as n eqn:Hn. revert a Hn.
  induction n as [n IH] using lt_wf_ind. intros a Hn.
  destruct a as [|hi [|lo a]].
  - reflexivity.
  - cbn [app]. destruct b as [|c b]; [reflexivity|].
    cbn [codePoints]. rewrite H, andb_false_r. reflexivity.
  - cbn [app]. rewrite !codePoints_pair.
    destruct (is_high_surrogate hi && is_low_surrogate lo); cbn [app]; f_equal.
    + apply (IH (List.length a)); [subst; cbn; lia | reflexivity].
    + apply (IH (List.length (lo :: a)) ltac:(subst; cbn; lia) (lo :: a)). reflexivity.
Qed.

Lemma codePoints_ascii (b : jsstring) : ascii b = true -> codePoints b = b.
Proof.
  unfold ascii. induction b as [|c b IH]; [reflexivity|].
  cbn [forallb]. intros [Hc Hb]%andb_prop.
  destruct b as [|d b]; [reflexivity|]. rewrite codePoints_pair.
  assert (E : is_high_surrogate c = false).
  { unfold is_high_surrogate, in_range. apply N.ltb_lt in Hc.
    apply andb_false_iff. left. apply N.leb_gt. lia. }
  rewrite E. cbn [andb]. now rewrite (IH Hb).
Qed.

(** The lower case of ASCII characters does not depend on what is around. *)
Lemma lower_from_ascii (b : jsstring) :
  ascii b = true -> forall before, lower_from before b = lower_from [] b.
Proof.
  unfold ascii. induction b as [|c b IH]; [reflexivity|].
  cbn [forallb]. intros [Hc Hb]%andb_prop prior. cbn [lower_from].
  apply N.ltb_lt in Hc.
  destruct (c =? 304)%N eqn:E1; [apply N.eqb_eq in E1; lia|].
  destruct (c =? 931)%N eqn:E2; [apply N.eqb_eq in E2; lia|].
  now rewrite (IH Hb (c :: prior)), (IH Hb [c]).
Qed.

Lemma same_letter_refl (l : list N) : Forall2 same_letter l l.
Proof. induction l; constructor; [now left | assumption]. Qed.

(** What follows a text changes its lower case in the sigmas only. *)
Lemma lower_from_app (xs ys : list N) :
  forall before,
    exists l,
      lower_from before (xs ++ ys) = l ++ lower_from (rev xs ++ before) ys
      /\ Forall2 same_letter (lower_from before xs) l.
Proof.
  induction xs as [|c xs IH]; intro prior.
  - exists []. split; [reflexivity | constructor].
  - destruct (IH (c :: prior)) as (l & E & F).
    cbn [app lower_from rev]. rewrite E, <- app_assoc. cbn [app].
    eexists. split; [rewrite app_assoc; reflexivity|].
    apply Forall2_app; [|exact F].
    destruct (c =? 304)%N; [apply same_letter_refl|].
    destruct (c =? 931)%N; [|apply same_letter_refl].
    constructor; [|constructor]. right.
    destruct (final_sigma prior (xs ++ ys)), (final_sigma prior xs); split; reflexivity.
Qed.

Lemma same_letter_units (l l' : list N) :
  Forall2 same_letter l l' ->
  Forall2 same_letter (flat_map codeUnits l) (flat_map codeUnits l').
Proof.
  induction 1 as [|x y l l' H _ IH]; [constructor|].
  cbn [flat_map]. apply Forall2_app; [|exact IH].
  destruct H as [->|[Hx Hy]]; [apply same_letter_refl|].
  unfold is_sigma, mem in Hx, Hy. cbn [existsb] in Hx, Hy.
  rewrite !orb_false_r, orb_true_iff, !N.eqb_eq in Hx, Hy.
  destruct Hx as [->| ->], Hy as [->| ->]; cbn;
    (constructor; [|constructor]); try (now left); right; split; reflexivity.
Qed.

(** The lower case of a text followed by ASCII characters: the lower case of
    these, after the lower case of the text up to its sigmas. *)
Lemma toLowerCase_before_ascii (a b : jsstring) :
  ascii b = true ->
  exists a',
    toLowerCase (a ++ b) = a' ++ toLowerCase b
    /\ Forall2 same_letter (toLowerCase a) a'.
Proof.
  intro Hb. unfold toLowerCase. rewrite codePoints_app.
  - destruct (lower_from_app (codePoints a) (codePoints b) []) as (l & E & F).
    rewrite E, flat_map_app. rewrite (codePoints_ascii b Hb).
    rewrite (lower_from_ascii b Hb). eexists. split; [reflexivity|].
    now apply same_letter_units.
  - destruct b as [|c b]; [exact I|]. cbn [ascii forallb] in Hb.
    apply andb_prop in Hb as [Hc _]. apply N.ltb_lt in Hc.
    unfold is_low_surrogate, in_range. apply andb_false_iff. left. apply N.leb_gt. lia.
Qed.

(** A word without sigma occurs in a text and in the same text with other
    sigmas alike. *)
Lemma includes_same_letter (u v w : jsstring) :
  Forall2 same_letter u v ->
  existsb is_sigma w = false ->
  includes u w = true -> includes v w = true.
Proof.
  intros F Hw. rewrite !includes_spec. intros (pre & post & ->).
  apply Forall2_app_inv_l in F as (pre' & r & _ & F & ->).
  apply Forall2_app_inv_l in F as (w' & post' & Fw & _ & ->).
  exists pre', post'. f_equal. f_equal.
  clear - Fw Hw. induction Fw as [|x y w w' H _ IH]; [reflexivity|].
  cbn [existsb] in Hw. apply orb_false_iff in Hw as [Hx Hw].
  rewrite (IH Hw). destruct H as [->|[H _]]; [reflexivity | congruence].
Qed.

End LowerCase.

(* ================================================================== *)
(** * The matcher *)
(* ================================================================== *)

Section Matcher.

(** The loop of a quantifier gives the same answer for any fuel above
    [lo + length rest], whenever its body only continues on what is left of
    its input. *)
Lemma rep_loop_fuel (body : cont -> cont) (greedy : bool) :
  (forall k1 k2 prev rest,
      agree (List.length rest) k1 k2 -> body k1 prev rest = body k2 prev rest) ->
  forall fuel1 fuel2 lo hi k1 k2 prev rest,
    lo + List.length rest < fuel1 -> lo + List.length rest < fuel2 ->
    agree (List.length rest) k1 k2 ->
    rep_loop body greedy k1 fuel1 lo hi prev rest
    = rep_loop body greedy k2 fuel2 lo hi prev rest.
Proof.
  intro Hbody. induction fuel1 as [|fuel1 IH]; intros fuel2 lo hi k1 k2 prev rest H1 H2 Hk;
    [lia|]. destruct fuel2 as [|fuel2]; [lia|]. cbn [rep_loop].
  assert (Hstop : k1 prev rest = k2 prev rest) by (apply Hk; lia).
  assert (Hagain :
            body (fun prev' rest' =>
                    if (lo =? 0) && (List.length rest' =? List.length rest) then None
                    else rep_loop body greedy k1 fuel1 (Nat.pred lo) (option_map Nat.pred hi)
                           prev' rest') prev rest
            = body (fun prev' rest' =>
                      if (lo =? 0) && (List.length rest' =? List.length rest) then None
                      else rep_loop body greedy k2 fuel2 (Nat.pred lo) (option_map Nat.pred hi)
                             prev' rest') prev rest).
  { apply Hbody. intros prev' rest' Hle.
    destruct ((lo =? 0) && (List.length rest' =? List.length rest)) eqn:E; [reflexivity|].
    apply IH.
    - apply andb_false_iff in E as [E|E]; [apply Nat.eqb_neq in E | apply Nat.eqb_neq in E]; lia.
    - apply andb_false_iff in E as [E|E]; [apply Nat.eqb_neq in E | apply Nat.eqb_neq in E]; lia.
    - intros p r Hr. apply Hk. lia. }
  now rewrite Hagain, Hstop.
Qed.

(** A match only continues on what is left of the input. *)
Lemma rmatch_agree (ci : bool) (r : regex) :
  forall k1 k2 prev rest,
    agree (List.length rest) k1 k2 -> rmatch ci r k1 prev rest = rmatch ci r k2 prev rest.
Proof.
  assert (Hone : forall p k1 k2 rest,
             agree (List.length rest) k1 k2 -> one p k1 rest = one p k2 rest).
  { intros p k1 k2 [|c rest] Hk; cbn [one]; [reflexivity|].
    destruct (p c); [|reflexivity]. apply Hk. cbn. lia. }
  induction r as [| c | | | | cs | cs | | | r1 IH1 r2 IH2 | r1 IH1 r2 IH2
                 | greedy lo hi r IH | r IH];
    intros k1 k2 prev rest Hk; cbn [rmatch]; try (now apply Hone).
  - apply Hk; lia.
  - destruct prev; [reflexivity|]. apply Hk; lia.
  - destruct (xorb _ _); [|reflexivity]. apply Hk; lia.
  - apply IH1. intros p r Hr. apply IH2. intros p' r' Hr'. apply Hk. lia.
  - now rewrite (IH1 k1 k2 prev rest Hk), (IH2 k1 k2 prev rest Hk).
  - apply rep_loop_fuel; auto; lia.
  - destruct (rmatch ci r _ prev rest); [reflexivity|]. apply Hk; lia.
Qed.

(** The fuel that [rmatch] gives to a quantifier is enough: more fuel gives
    the same answer, so no match is ever missed for lack of fuel. *)
Lemma quantifier_fuel_suffices (ci greedy : bool) (lo : nat) (hi : option nat) (r : regex)
  (k : cont) (prev : option N) (rest : jsstring) (fuel : nat) :
  lo + List.length rest < fuel ->
  rep_loop (rmatch ci r) greedy k fuel lo hi prev rest
  = rmatch ci (Rep greedy lo hi r) k prev rest.
Proof.
  intro H. cbn [rmatch]. apply rep_loop_fuel.
  - apply rmatch_agree.
  - exact H.
  - lia.
  - now intros p r' _.
Qed.

(** Where a match ends is within the input: what the matcher returns is
    what is left of the text after the matched code units. *)
Lemma rmatch_within (ci : bool) (r : regex) :
  forall (k : cont) (Q : jsstring -> Prop) prev rest out,
    (forall prev' rest' out', suffix rest' rest -> k prev' rest' = Some out' -> Q out') ->
    rmatch ci r k prev rest = Some out -> Q out.
Proof.
  assert (Hcons : forall (c : N) (rest' rest : jsstring),
             suffix rest' rest -> suffix rest' (c :: rest)).
  { intros c rest' rest [taken ->]. now exists (c :: taken). }
  assert (Hrefl : forall rest : jsstring, suffix rest rest) by (intro; now exists []).
  assert (Htrans : forall a b d : jsstring, suffix a b -> suffix b d -> suffix a d).
  { intros a b d [t1 ->] [t2 ->]. exists (t2 ++ t1). now rewrite app_assoc. }
  assert (Hone : forall p (k : cont) (Q : jsstring -> Prop) rest out,
             (forall prev' rest' out', suffix rest' rest -> k prev' rest' = Some out' -> Q out') ->
             one p k rest = Some out -> Q out).
  { intros p k Q [|c rest] out Hk; cbn [one]; [discriminate|].
    destruct (p c); [|discriminate]. apply Hk. apply Hcons, Hrefl. }
  induction r as [| c | | | | cs | cs | | | r1 IH1 r2 IH2 | r1 IH1 r2 IH2
                 | greedy lo hi r IH | r IH];
    intros k Q prev rest out Hk; cbn [rmatch]; try (now apply Hone).
  - apply Hk, Hrefl.
  - destruct prev; [discriminate|]. apply Hk, Hrefl.
  - destruct (xorb _ _); [|discriminate]. apply Hk, Hrefl.
  - apply IH1. intros p r' o S1. apply IH2. intros p' r'' o' S2. apply Hk.
    eapply Htrans; eauto.
  - unfold orelse. destruct (rmatch ci r1 k prev rest) eqn:E.
    + intro H; inversion H; subst. eapply IH1; eauto.
    + eapply IH2; eauto.
  - generalize (S (lo + List.length rest)) as fuel. intro fuel.
    revert lo hi prev rest out Hk.
    induction fuel as [|fuel IHf]; intros lo hi prev rest out Hk; cbn [rep_loop];
      [discriminate|].
    assert (Hagain :
              (if hi_zero hi then None
               else rmatch ci r
                      (fun prev' rest' =>
                         if (lo =? 0) && (List.length rest' =? List.length rest) then None
                         else rep_loop (rmatch ci r) greedy k fuel (Nat.pred lo)
                                (option_map Nat.pred hi) prev' rest') prev rest) = Some out ->
              Q out).
    { destruct (hi_zero hi); [discriminate|]. apply IH.
      intros p r' out' S1. destruct (_ && _); [discriminate|].
      apply IHf. intros p' r'' out'' S2. apply Hk. eapply Htrans; eauto. }
    assert (Hstop : (if lo =? 0 then k prev rest else None) = Some out -> Q out).
    { destruct (lo =? 0); [|discriminate]. apply Hk, Hrefl. }
    destruct (lo =? 0) eqn:El; [|exact Hagain].
    unfold orelse. destruct greedy.
    + destruct (if hi_zero hi then None else _) eqn:E.
      * intro H; inversion H; subst. now apply Hagain.
      * exact Hstop.
    + destruct (k prev rest) eqn:E.
      * intro H; inversion H; subst. now apply Hstop.
      * exact Hagain.
  - destruct (rmatch ci r _ prev rest); [discriminate|]. apply Hk, Hrefl.
Qed.

(** A match of length [n] at a position ends [n] code units further on. *)
Lemma match_here_within (p : pattern) (prev : option N) (rest : jsstring) (n : nat) :
  match_here p prev rest = Some n ->
  n <= List.length rest
  /\ rmatch (flag_i p) (re p) (fun _ rest' => Some rest') prev rest = Some (skipn n rest).
Proof.
  unfold match_here.
  destruct (rmatch _ _ _ prev rest) as [out|] eqn:E; [|discriminate].
  intro H; inversion H; subst; clear H.
  assert (S : suffix out rest).
  { apply (rmatch_within (flag_i p) (re p) (fun _ rest' => Some rest')
             (fun out => suffix out rest) prev rest out); [|exact E].
    intros _ rest' out' Hs K. now inversion K; subst. }
  destruct S as [taken ->]. rewrite length_app.
  replace (List.length taken + List.length out - List.length out) with (List.length taken)
    by lia.
  split; [lia|]. now rewrite skipn_app, skipn_all, Nat.sub_diag.
Qed.

End Matcher.

(* ================================================================== *)
(** * The analyzer *)
(* ================================================================== *)

Section Analyzer.

Import PromptAnalyzer.

Lemma tally_from (markers : list pattern) (text : jsstring) (acc : nat) :
  fold_left
    (fun score pattern =>
       match js_match pattern text with
       | Some matches => score + List.length matches
       | None => score
       end) markers acc
  = acc + marker_count markers text.
Proof.
  revert acc; induction markers as [|p markers IH]; intro acc; simpl.
  - unfold marker_count; simpl; lia.
  - rewrite IH. unfold marker_count; simpl. unfold js_match, occurrences.
    destruct (scan_matches p None text 0); simpl; lia.
Qed.

Lemma tally_marker_count (markers : list pattern) (text : jsstring) :
  tally markers text = marker_count markers text.
Proof. unfold tally. now rewrite tally_from. Qed.

(** C5. [detectAltitude] follows the ordered decision rule over the three
    marker counts: more than two low markers give too-low; otherwise more than
    two high markers with fewer than two good markers give too-high; otherwise
    just-right.  In particular three low-marker occurrences give too-low, as
    for a text that holds "step 1:", "step 2:" and "step 3:" and no high or
    good marker. *)
Theorem detectAltitude_decision_rule :
  forall text : jsstring,
    detectAltitude text
    = altitude_rule (marker_count lowMarkers text) (marker_count highMarkers text)
        (marker_count goodMarkers text)
    /\ (3 <= marker_count lowMarkers text -> detectAltitude text = TooLow)
    /\ (let steps := str "step 1: gather step 2: sort step 3: print" in
        marker_count lowMarkers steps = 3
        /\ marker_count highMarkers steps = 0
        /\ marker_count goodMarkers steps = 0
        /\ detectAltitude steps = TooLow).
Proof.
  intro text.
  assert (E : detectAltitude text
              = altitude_rule (marker_count lowMarkers text) (marker_count highMarkers text)
                  (marker_count goodMarkers text)).
  { unfold detectAltitude. now rewrite !tally_marker_count. }
  split; [exact E|]. split.
  - intro H. rewrite E. unfold altitude_rule.
    destruct (Nat.ltb_spec 2 (marker_count lowMarkers text)); [reflexivity | lia].
  - vm_compute. repeat split; reflexivity.
Qed.

(** Through [analyze], a text that is not blank gets the altitude that
    [detectAltitude] gives it. *)
Lemma analyze_altitude (text model : jsstring) (r : Report.t) :
  trim text <> [] ->
  analyze text model = Ok r ->
  ContextEngineering.altitude (Report.contextEngineering r) = detectAltitude text.
Proof.
  intros Hne H. unfold analyze in H.
  destruct text as [|c text]; [now elim Hne|].
  cbn [nonempty negb orb] in H.
  destruct (trim (c :: text)) as [|d tr] eqn:Et; [now elim Hne|].
  cbn [List.length Nat.eqb] in H.
  destruct (analyzeModelFit (c :: text) model); try discriminate;
    (destruct (calculateOverallScore (c :: text) model); cbn [bind] in H; try discriminate).
  inversion H; subst; reflexivity.
Qed.

(** What [analyze] returns: the fixed empty report, or the report assembled
    from the five analyses of the text. *)
Lemma analyze_cases (text model : jsstring) (r : Report.t) :
  analyze text model = Ok r ->
  r = getEmptyAnalysis
  \/ exists modelFit overallScore,
       analyzeModelFit text model = Ok modelFit
       /\ calculateOverallScore text model = Ok overallScore
       /\ r = Report.Make (countTokens text) (analyzeComponents text)
               (analyzeContextEngineering text) modelFit overallScore.
Proof.
  unfold analyze.
  destruct (negb (nonempty text) || (List.length (trim text) =? 0)).
  - intro H; inversion H; now left.
  - destruct (analyzeModelFit text model) as [modelFit| |]; try discriminate;
      (destruct (calculateOverallScore text model) as [overallScore| |]; cbn [bind];
       try discriminate).
    intro H; inversion H. right. now exists modelFit, overallScore.
Qed.

Lemma present_at_most_ten (fl : Flags.t) :
  List.length (filter (fun v : bool => v) (map snd (entries fl))) <= 10.
Proof.
  etransitivity; [apply filter_length_le|]. reflexivity.
Qed.

(** The arithmetic of [analyzeComponents] on each possible number of
    present components, in binary64. *)
Lemma component_arithmetic (present : nat) :
  present <= 10 ->
  (num present + (10 - num present) =? 10)%float = true
  /\ ((num present / 10) * 100 =? num present * 10)%float = true.
Proof.
  intro H.
  do 11 (destruct present as [|present]; [vm_compute; split; reflexivity|]).
  lia.
Qed.

(** [analyze] returns a report unless the model key names a property
    inherited from [Object.prototype]. *)
Lemma analyzeModelFit_returns (text model : jsstring) :
  (forall name, get modelAnalyzers model <> Inherited name) ->
  exists modelFit, analyzeModelFit text model = Ok modelFit.
Proof.
  intro H. unfold analyzeModelFit.
  destruct (get modelAnalyzers model) as [f|name|] eqn:E; eauto.
  now elim (H name).
Qed.

Lemma analyze_returns (text model : jsstring) :
  (forall name, get modelAnalyzers model <> Inherited name) ->
  exists r, analyze text model = Ok r.
Proof.
  intro H. unfold analyze.
  destruct (negb (nonempty text) || (List.length (trim text) =? 0)); eauto.
  unfold calculateOverallScore, compatibility_of.
  destruct (analyzeModelFit_returns text model H) as [modelFit ->]. cbn [bind]. eauto.
Qed.

(** C4. In every report that [analyze] returns, for an empty or blank text
    as for any other, [presentCount + missingCount == 10] and
    [score == presentCount * 10]; and [analyze] does return a report, for the
    three models and for every key that names no property inherited from
    [Object.prototype]. *)
Theorem components_counts_invariant :
  forall (text model : jsstring),
    (forall r : Report.t,
        analyze text model = Ok r ->
        let c := Report.components r in
        (Components.presentCount c + Components.missingCount c =? 10)%float = true
        /\ (Components.score c =? Components.presentCount c * 10)%float = true)
    /\ ((forall name, get modelAnalyzers model <> Inherited name) ->
        exists r, analyze text model = Ok r).
Proof.
  intros text model. split; [|apply analyze_returns].
  intros r H.
  destruct (analyze_cases _ _ _ H) as [-> | (modelFit & overallScore & _ & _ & ->)].
  - vm_compute. split; reflexivity.
  - cbn [Report.components]. unfold analyzeComponents.
    cbn [Components.presentCount Components.missingCount Components.score].
    apply component_arithmetic, present_at_most_ten.
Qed.

(** The invariant at a prompt. *)
Lemma components_counts_invariant_witness :
  exists r : Report.t,
    analyze (str "Write me a professional email to my boss asking for a raise") (str "claude")
    = Ok r
    /\ (Components.presentCount (Report.components r)
         + Components.missingCount (Report.components r) =? 10)%float = true
    /\ (Components.score (Report.components r)
         =? Components.presentCount (Report.components r) * 10)%float = true.
Proof.
  eexists. split; [vm_compute; reflexivity|].
  apply (proj1 (components_counts_invariant
                  (str "Write me a professional email to my boss asking for a raise")
                  (str "claude"))).
  vm_compute; reflexivity.
Defined.

(** C1. The overall score is meant to stay within 0..10 ([maxScore] is 10 and
    the source annotates each of the four sub-scores with "0-10"), but the
    efficiency sub-score is not bounded: the text below has three tokens and
    ten "useful" tokens, an efficiency of 333, and an overall score of 13.1. *)
Theorem overall_score_exceeds_ten :
  exists r : Report.t,
    analyze (str "<[must][must]>") (str "claude") = Ok r
    /\ OverallScore.score (Report.overallScore r) = 13.1%float
    /\ (OverallScore.score (Report.overallScore r) <=? 10)%float = false
    /\ option_map Breakdown.efficiency (OverallScore.breakdown (Report.overallScore r))
       = Some 33.3%float.
Proof.
  eexists. split; [vm_compute; reflexivity|].
  vm_compute. repeat split; reflexivity.
Qed.

(** C3. The efficiency is meant to be a percentage, but the "useful" count
    adds up the matches of five patterns that may cover the same characters
    and is compared with a token count that averages characters and words:
    for "[must]" it is [round (3 / 2 * 100) = 150]. *)
Theorem token_efficiency_exceeds_hundred :
  let e := calculateTokenEfficiency (str "[must]") in
  TokenEfficiency.total e = 2%float
  /\ TokenEfficiency.useful e = 3%float
  /\ TokenEfficiency.efficiency e = 150%float
  /\ (TokenEfficiency.efficiency e <=? 100)%float = false
  /\ exists r : Report.t,
       analyze (str "[must]") (str "claude") = Ok r
       /\ ContextEngineering.tokenEfficiency (Report.contextEngineering r) = e.
Proof.
  vm_compute. repeat split; try reflexivity.
  eexists; split; reflexivity.
Qed.

(** The part of the efficiency formula that holds for every text: the field
    is [Math.round(useful / total * 100)], the token count being positive. *)
Lemma token_efficiency_formula (text : jsstring) :
  let e := calculateTokenEfficiency text in
  (0 <? TokenEfficiency.total e)%float = true ->
  TokenEfficiency.efficiency e
  = Math.round (TokenEfficiency.useful e / TokenEfficiency.total e * 100)%float.
Proof.
  unfold calculateTokenEfficiency.
  cbn [TokenEfficiency.total TokenEfficiency.useful TokenEfficiency.efficiency].
  intro H. now rewrite H.
Qed.

(** A model key that names none of the three rule sets and no property of
    [Object.prototype] selects the Claude analysis. *)
Lemma analyzeModelFit_default (text model : jsstring) :
  get modelAnalyzers model = Undefined ->
  analyzeModelFit text model = Ok (analyzeClaudeFit text).
Proof. unfold analyzeModelFit. now intros ->. Qed.

Lemma analyzeModelFit_llama (text : jsstring) :
  analyzeModelFit text (str "llama") = analyzeModelFit text (str "claude").
Proof. reflexivity. Qed.

(** C9. A model key outside {claude, gpt, gemini} is meant to fall back to
    the Claude rules, and does so unless it names a property that the lookup
    table inherits from [Object.prototype]: then the inherited value is taken
    for the rule set.  With "__proto__" both dispatches raise a TypeError;
    with "constructor" neither raises, but what comes back is not the
    result of the Claude rules. *)
Theorem model_dispatch_inherited_keys :
  let text := str "Summarize this report" in
  let s := Store.Make None None (Some (str "__proto__")) None None (Some 0) [[]] in
  let s' := Store.Make None None (Some (str "constructor")) None None (Some 0) [[]] in
  analyzeModelFit text (str "__proto__") = TypeError
  /\ analyzeModelFit text (str "constructor") = Foreign
  /\ analyzeModelFit text (str "claude") = Ok (analyzeClaudeFit text)
  /\ analyze text (str "__proto__") = TypeError
  /\ PromptOptimizer.applyModelSpecificRules text s = TypeError
  /\ PromptOptimizer.applyModelSpecificRules text s' = Foreign.
Proof. vm_compute. repeat split; reflexivity. Qed.

End Analyzer.

(* ================================================================== *)
(** * The store discipline of the optimizer's methods *)
(* ================================================================== *)

Section Frame.

Lemma nth_error_update {A : Type} (l : list A) (i : nat) (a x : A) :
  nth_error l i = Some x -> nth_error (update l i a) i = Some a.
Proof.
  revert i; induction l as [|y l IH]; intros [|i] H; simpl in *; try discriminate; auto.
Qed.

Lemma nth_error_update_other {A : Type} (l : list A) (i j : nat) (a : A) :
  i <> j -> nth_error (update l i a) j = nth_error l j.
Proof.
  revert i j; induction l as [|y l IH]; intros [|i] [|j] H; simpl; auto; try congruence.
Qed.

Lemma update_same {A : Type} (l : list A) (i : nat) (x : A) :
  nth_error l i = Some x -> update l i x = l.
Proof.
  revert i; induction l as [|y l IH]; intros [|i] H; simpl in *; try discriminate.
  - congruence.
  - now rewrite IH.
Qed.

Lemma update_update {A : Type} (l : list A) (i : nat) (a b : A) :
  update (update l i a) i b = update l i b.
Proof.
  revert i; induction l as [|y l IH]; intros [|i]; simpl; auto. now rewrite IH.
Qed.

Lemma update_length {A : Type} (l : list A) (i : nat) (a : A) :
  List.length (update l i a) = List.length l.
Proof.
  revert i; induction l as [|y l IH]; intros [|i]; simpl; auto.
Qed.

Lemma current_record (s : Store.t) (array recs : list Technique.t) :
  current s = Some array -> current (record s recs) = Some (array ++ recs).
Proof.
  unfold current, record. destruct (Store.techniques s) as [ref|] eqn:E; [|discriminate].
  intro H. rewrite H. cbn. rewrite E. eapply nth_error_update; eauto.
Qed.

Lemma ready_record (s : Store.t) (recs : list Technique.t) : ready s -> ready (record s recs).
Proof. intros [array H]. eexists. eapply current_record; eauto. Qed.

Lemma same_call_record (s1 s2 : Store.t) (r1 r2 : list Technique.t) :
  same_call s1 s2 -> same_call (record s1 r1) (record s2 r2).
Proof.
  unfold same_call, record. intros (H1 & H2 & H3 & H4 & H5).
  destruct (Store.techniques s1), (Store.techniques s2);
    repeat match goal with |- context [nth_error ?l ?i] => destruct (nth_error l i) end;
    cbn; auto.
Qed.

Lemma record_nil (s : Store.t) : ready s -> record s [] = s.
Proof.
  intros [array H]. unfold current in H. unfold record.
  destruct (Store.techniques s) as [ref|]; [|discriminate].
  rewrite H, app_nil_r, (update_same _ _ _ H). now destruct s.
Qed.

Lemma record_record (s : Store.t) (r1 r2 : list Technique.t) :
  ready s -> record (record s r1) r2 = record s (r1 ++ r2).
Proof.
  intros [array H]. unfold current in H. unfold record at 2 3.
  destruct (Store.techniques s) as [ref|] eqn:E; [|discriminate].
  rewrite H. unfold record. cbn. rewrite E.
  rewrite (nth_error_update _ _ _ _ H). unfold set_heap; cbn.
  now rewrite update_update, app_assoc.
Qed.

Lemma push_record (t : Technique.t) (s : Store.t) :
  ready s -> push t s = Ok (tt, record s [t]).
Proof.
  intros [array H]. unfold current in H. unfold push, record, set_heap.
  destruct (Store.techniques s) as [ref|]; [|discriminate].
  now rewrite H.
Qed.

Lemma same_call_refl (s : Store.t) : same_call s s.
Proof. unfold same_call; auto. Qed.

Lemma framed_ret {A : Type} (a : A) : framed (M.ret a).
Proof.
  intros s1 s2 _ R1 R2. cbn. split; [reflexivity|].
  exists []. now rewrite !record_nil.
Qed.

Lemma framed_bind {A B : Type} (m : M.t A) (f : A -> M.t B) :
  framed m -> (forall a, framed (f a)) -> framed (M.bind m f).
Proof.
  intros Hm Hf s1 s2 C R1 R2. specialize (Hm s1 s2 C R1 R2). unfold M.bind.
  destruct (m s1) as [[a1 s1']| |], (m s2) as [[a2 s2']| |]; try contradiction; auto.
  destruct Hm as (<- & recs & -> & ->).
  specialize (Hf a1 (record s1 recs) (record s2 recs)
                (same_call_record _ _ _ _ C) (ready_record _ _ R1) (ready_record _ _ R2)).
  destruct (f a1 (record s1 recs)) as [[b1 t1]| |], (f a1 (record s2 recs)) as [[b2 t2]| |];
    try contradiction; auto.
  destruct Hf as (<- & recs' & -> & ->). split; [reflexivity|].
  exists (recs ++ recs'). now rewrite !record_record.
Qed.

Lemma framed_push (t : Technique.t) : framed (push t).
Proof.
  intros s1 s2 _ R1 R2. rewrite !push_record by assumption.
  split; [reflexivity|]. now exists [t].
Qed.

Lemma framed_when (cond : bool) (m : M.t unit) : framed m -> framed (M.when cond m).
Proof. destruct cond; cbn; auto using framed_ret. Qed.

Lemma framed_lift {A : Type} (o : outcome A) : framed (M.lift o).
Proof.
  intros s1 s2 _ R1 R2. unfold M.lift. destruct o; auto.
  split; [reflexivity|]. exists []. now rewrite !record_nil.
Qed.

Lemma framed_read_analysis : framed (M.read Store.analysis).
Proof.
  intros s1 s2 (_ & H & _) R1 R2. unfold M.read. rewrite H.
  destruct (Store.analysis s2); auto.
  split; [reflexivity|]. exists []. now rewrite !record_nil.
Qed.

Lemma framed_read_options : framed (M.read Store.options).
Proof.
  intros s1 s2 (_ & _ & _ & _ & H) R1 R2. unfold M.read. rewrite H.
  destruct (Store.options s2); auto.
  split; [reflexivity|]. exists []. now rewrite !record_nil.
Qed.

End Frame.

(** Breaks a method down to its pushes, reads and returns. *)
Ltac framed_step :=
  match goal with
  | |- framed (M.bind _ _) => apply framed_bind; [|intro]
  | |- framed (M.ret _) => apply framed_ret
  | |- framed (push _) => apply framed_push
  | |- framed (M.when _ _) => apply framed_when
  | |- framed (M.lift _) => apply framed_lift
  | |- framed (M.read Store.analysis) => apply framed_read_analysis
  | |- framed (M.read Store.options) => apply framed_read_options
  | |- framed (if ?b then _ else _) => destruct b
  | |- framed (match ?x with _ => _ end) => destruct x
  | |- framed (let x := _ in _) => cbv zeta
  end.

Ltac framed_auto := repeat framed_step.

Section Stages.

Import PromptOptimizer.

Lemma removeRedundancy_framed (text : jsstring) : framed (removeRedundancy text).
Proof. unfold removeRedundancy. framed_auto. Qed.

Lemma improveClarity_framed (text : jsstring) : framed (improveClarity text).
Proof. unfold improveClarity. framed_auto. Qed.

Lemma addFrameworkStructure_framed (text : jsstring) : framed (addFrameworkStructure text).
Proof. unfold addFrameworkStructure. framed_auto. Qed.

Lemma correctAltitude_framed (text : jsstring) : framed (correctAltitude text).
Proof. unfold correctAltitude, raiseAltitude, lowerAltitude. framed_auto. Qed.

Lemma applyClaudeRules_framed (text : jsstring) : framed (applyClaudeRules text).
Proof. unfold applyClaudeRules, record_applied. framed_auto. Qed.

Lemma applyGPTRules_framed (text : jsstring) : framed (applyGPTRules text).
Proof. unfold applyGPTRules, record_applied. framed_auto. Qed.

Lemma applyGeminiRules_framed (text : jsstring) : framed (applyGeminiRules text).
Proof. unfold applyGeminiRules, record_applied. framed_auto. Qed.

Lemma addExamples_framed (text : jsstring) : framed (addExamples text).
Proof. unfold addExamples. framed_auto. Qed.

Lemma addChainOfThought_framed (text : jsstring) : framed (addChainOfThought text).
Proof. unfold addChainOfThought. framed_auto. Qed.

Lemma enhanceStructure_framed (text : jsstring) : framed (enhanceStructure text).
Proof. unfold enhanceStructure. framed_auto. Qed.

Lemma modelRules_framed (key : jsstring) (f : jsstring -> M.t jsstring) (text : jsstring) :
  get modelRules key = Own f -> framed (f text).
Proof.
  unfold get, modelRules. cbn [find_own].
  repeat match goal with
         | |- context [if ?b then _ else _] => destruct b
         end;
    try (intro H; inversion H; subst;
         auto using applyClaudeRules_framed, applyGPTRules_framed, applyGeminiRules_framed).
  destruct (find _ object_prototype); discriminate.
Qed.

Lemma applyModelSpecificRules_framed (text : jsstring) :
  framed (applyModelSpecificRules text).
Proof.
  intros s1 s2 C R1 R2. unfold applyModelSpecificRules.
  assert (Hm : Store.model s1 = Store.model s2) by apply C. rewrite Hm.
  destruct (get modelRules _) as [f|name|] eqn:E.
  - now apply (modelRules_framed _ _ text E).
  - unfold call_inherited. now destruct (existsb _ _).
  - now apply applyClaudeRules_framed.
Qed.

Lemma pipeline_framed (originalPrompt model level : jsstring) :
  framed (pipeline originalPrompt model level).
Proof.
  unfold pipeline.
  repeat first
    [ apply removeRedundancy_framed | apply improveClarity_framed
    | apply addFrameworkStructure_framed | apply correctAltitude_framed
    | apply applyModelSpecificRules_framed | apply addExamples_framed
    | apply addChainOfThought_framed | apply enhanceStructure_framed
    | framed_step ].
Qed.

(** [optimize] is the entry assignments, the pipeline, and the result built
    from what the pipeline returns and the reference in [this.techniques]. *)
Lemma optimize_pipeline (originalPrompt : jsstring) (analysis : Report.t)
  (model level : jsstring) (options : Options.t) (s : Store.t) :
  optimize originalPrompt analysis model level options s
  = match pipeline originalPrompt model level
            (entered originalPrompt analysis model level options s) with
    | Ok ((optimized, newAnalysis), s') =>
        match Store.techniques s' with
        | Some techniques =>
            Ok (Result.Make originalPrompt optimized techniques
                  (calculateImprovements analysis newAnalysis) newAnalysis, s')
        | None => TypeError
        end
    | TypeError => TypeError
    | Foreign => Foreign
    end.
Proof.
  unfold optimize, pipeline, M.bind, enter, M.ret, M.lift, M.read.
  fold (entered originalPrompt analysis model level options s).
  set (s0 := entered originalPrompt analysis model level options s).
  repeat
    (match goal with
     | |- context [if is_level level ?l then _ else _] => destruct (is_level level l)
     | |- context [removeRedundancy ?t ?x] => destruct (removeRedundancy t x) as [[? ?]| |]
     | |- context [improveClarity ?t ?x] => destruct (improveClarity t x) as [[? ?]| |]
     | |- context [addFrameworkStructure ?t ?x] =>
         destruct (addFrameworkStructure t x) as [[? ?]| |]
     | |- context [correctAltitude ?t ?x] => destruct (correctAltitude t x) as [[? ?]| |]
     | |- context [applyModelSpecificRules ?t ?x] =>
         destruct (applyModelSpecificRules t x) as [[? ?]| |]
     | |- context [addExamples ?t ?x] => destruct (addExamples t x) as [[? ?]| |]
     | |- context [addChainOfThought ?t ?x] => destruct (addChainOfThought t x) as [[? ?]| |]
     | |- context [enhanceStructure ?t ?x] => destruct (enhanceStructure t x) as [[? ?]| |]
     | |- context [PromptAnalyzer.analyze ?t model] => destruct (PromptAnalyzer.analyze t model)
     | |- context [Store.techniques ?x] => destruct (Store.techniques x)
     end; try reflexivity).
Qed.

Lemma entered_current (originalPrompt : jsstring) (analysis : Report.t)
  (model level : jsstring) (options : Options.t) (s : Store.t) :
  current (entered originalPrompt analysis model level options s) = Some [].
Proof.
  unfold current, entered; cbn.
  rewrite nth_error_app2 by lia. now rewrite Nat.sub_diag.
Qed.

Lemma entered_ready (originalPrompt : jsstring) (analysis : Report.t)
  (model level : jsstring) (options : Options.t) (s : Store.t) :
  ready (entered originalPrompt analysis model level options s).
Proof. eexists; apply entered_current. Qed.

Lemma entered_same_call (originalPrompt : jsstring) (analysis : Report.t)
  (model level : jsstring) (options : Options.t) (s1 s2 : Store.t) :
  same_call (entered originalPrompt analysis model level options s1)
            (entered originalPrompt analysis model level options s2).
Proof. unfold same_call, entered; cbn; auto. Qed.

Lemma record_techniques (s : Store.t) (recs : list Technique.t) :
  Store.techniques (record s recs) = Store.techniques s.
Proof.
  unfold record. destruct (Store.techniques s) as [ref|] eqn:E; auto.
  destruct (nth_error (Store.heap s) ref); auto.
Qed.

Lemma deref_current (s : Store.t) (ref : nat) (array : list Technique.t) :
  Store.techniques s = Some ref -> current s = Some array ->
  nth ref (Store.heap s) [] = array.
Proof.
  unfold current. intros ->. apply nth_error_nth.
Qed.

(** What a call of [optimize] shows its caller, in terms of the pipeline run
    from the store of the call's entry. *)
Lemma optimize_observed (originalPrompt : jsstring) (analysis : Report.t)
  (model level : jsstring) (options : Options.t) (s : Store.t) :
  forall optimized newAnalysis recs,
    pipeline originalPrompt model level
      (entered originalPrompt analysis model level options s)
    = Ok ((optimized, newAnalysis),
          record (entered originalPrompt analysis model level options s) recs) ->
    observed (optimize originalPrompt analysis model level options s)
    = Ok (originalPrompt, optimized, recs,
          calculateImprovements analysis newAnalysis, newAnalysis).
Proof.
  intros optimized newAnalysis recs H. rewrite optimize_pipeline, H.
  rewrite record_techniques. cbn [entered Store.techniques observed].
  cbn [Result.original Result.optimized Result.techniques Result.improvements
       Result.newAnalysis].
  erewrite (deref_current (record _ recs)).
  - reflexivity.
  - now rewrite record_techniques.
  - now rewrite (current_record _ _ _ (entered_current _ _ _ _ _ _)).
Qed.

(** Whatever the store holds when [optimize] is called, the caller sees the
    same. *)
Lemma optimize_store_independent (originalPrompt : jsstring) (analysis : Report.t)
  (model level : jsstring) (options : Options.t) (s1 s2 : Store.t) :
  observed (optimize originalPrompt analysis model level options s1)
  = observed (optimize originalPrompt analysis model level options s2).
Proof.
  pose proof (pipeline_framed originalPrompt model level _ _
                (entered_same_call originalPrompt analysis model level options s1 s2)
                (entered_ready _ _ _ _ _ _) (entered_ready _ _ _ _ _ _)) as F.
  destruct (pipeline originalPrompt model level
              (entered originalPrompt analysis model level options s1))
    as [[[o1 n1] s1']| |] eqn:E1;
  destruct (pipeline originalPrompt model level
              (entered originalPrompt analysis model level options s2))
    as [[[o2 n2] s2']| |] eqn:E2; try contradiction.
  - destruct F as (Ev & recs & -> & ->). inversion Ev; subst.
    now rewrite (optimize_observed _ _ _ _ _ _ _ _ _ E1), (optimize_observed _ _ _ _ _ _ _ _ _ E2).
  - now rewrite !optimize_pipeline, E1, E2.
  - now rewrite !optimize_pipeline, E1, E2.
Qed.

(** A call leaves the arrays of earlier calls as they were, and returns a
    reference to an array of its own. *)
Lemma optimize_fresh_array (originalPrompt : jsstring) (analysis : Report.t)
  (model level : jsstring) (options : Options.t) (s s' : Store.t) (r : Result.t) :
  optimize originalPrompt analysis model level options s = Ok (r, s') ->
  Result.techniques r = List.length (Store.heap s)
  /\ forall ref, ref < List.length (Store.heap s) ->
       nth_error (Store.heap s') ref = nth_error (Store.heap s) ref.
Proof.
  rewrite optimize_pipeline.
  pose proof (pipeline_framed originalPrompt model level _ _
                (same_call_refl (entered originalPrompt analysis model level options s))
                (entered_ready _ _ _ _ _ _) (entered_ready _ _ _ _ _ _)) as F.
  destruct (pipeline originalPrompt model level _) as [[[o n] s1]| |]; try discriminate.
  destruct F as (_ & recs & -> & _).
  rewrite record_techniques. cbn [entered Store.techniques].
  intro H; inversion H; subst; clear H. split; [reflexivity|].
  intros ref Hlt. unfold record. cbn [entered Store.techniques Store.heap].
  rewrite nth_error_app2 by lia. rewrite Nat.sub_diag. cbn [nth_error set_heap Store.heap].
  rewrite nth_error_update_other by lia. now rewrite nth_error_app1 by lia.
Qed.

(** C10. A call of [optimize] shows its caller the same result, the content
    of the technique list included, from the store that any earlier calls
    left behind as from the initial store: the accumulator is a new array at
    each entry.  The second of two successive calls therefore returns what it
    would return in isolation, and it leaves the technique list of the first
    result as it was. *)
Theorem optimize_calls_isolated :
  forall (originalPrompt : jsstring) (analysis : Report.t) (model level : jsstring)
         (options : Options.t),
    (forall s : Store.t,
        observed (optimize originalPrompt analysis model level options s)
        = observed (optimize originalPrompt analysis model level options Store.initial))
    /\ (forall prompt1 analysis1 model1 level1 options1 s0 r1 s1 r2 s2,
          optimize prompt1 analysis1 model1 level1 options1 s0 = Ok (r1, s1) ->
          optimize originalPrompt analysis model level options s1 = Ok (r2, s2) ->
          observed (Ok (r2, s2))
          = observed (optimize originalPrompt analysis model level options Store.initial)
          /\ Result.techniques r2 <> Result.techniques r1
          /\ nth_error (Store.heap s2) (Result.techniques r1)
             = nth_error (Store.heap s1) (Result.techniques r1)).
Proof.
  intros originalPrompt analysis model level options. split.
  - intro s. apply optimize_store_independent.
  - intros prompt1 analysis1 model1 level1 options1 s0 r1 s1 r2 s2 H1 H2.
    split; [|split].
    + rewrite <- H2. apply optimize_store_independent.
    + destruct (optimize_fresh_array _ _ _ _ _ _ _ _ H2) as [-> _].
      rewrite optimize_pipeline in H1.
      pose proof (pipeline_framed prompt1 model1 level1 _ _
                    (same_call_refl (entered prompt1 analysis1 model1 level1 options1 s0))
                    (entered_ready _ _ _ _ _ _) (entered_ready _ _ _ _ _ _)) as F.
      destruct (pipeline prompt1 model1 level1 _) as [[[o n] s1']| |]; try discriminate.
      destruct F as (_ & recs & -> & _). rewrite record_techniques in H1.
      cbn [entered Store.techniques] in H1. inversion H1; subst; clear H1.
      cbn [Result.techniques]. unfold record.
      cbn [entered Store.techniques Store.heap].
      rewrite nth_error_app2 by lia. rewrite Nat.sub_diag. cbn [nth_error set_heap Store.heap].
      rewrite update_length, length_app. cbn. lia.
    + destruct (optimize_fresh_array _ _ _ _ _ _ _ _ H2) as [_ Hkeep].
      apply Hkeep.
      rewrite optimize_pipeline in H1.
      pose proof (pipeline_framed prompt1 model1 level1 _ _
                    (same_call_refl (entered prompt1 analysis1 model1 level1 options1 s0))
                    (entered_ready _ _ _ _ _ _) (entered_ready _ _ _ _ _ _)) as F.
      destruct (pipeline prompt1 model1 level1 _) as [[[o n] s1']| |]; try discriminate.
      destruct F as (_ & recs & -> & _). rewrite record_techniques in H1.
      cbn [entered Store.techniques] in H1. inversion H1; subst; clear H1.
      cbn [Result.techniques]. unfold record.
      cbn [entered Store.techniques Store.heap].
      rewrite nth_error_app2 by lia. rewrite Nat.sub_diag. cbn [nth_error set_heap Store.heap].
      rewrite update_length, length_app. cbn. lia.
Qed.

End Stages.

(* ================================================================== *)
(** * What the stages decide on *)
(* ================================================================== *)

Section Decisions.

Import PromptOptimizer.

Lemma pushed_record {A : Type} (m : M.t A) (s : Store.t) (a : A) (recs : list Technique.t) :
  ready s -> m s = Ok (a, record s recs) -> pushed m s = Some recs.
Proof.
  intros [array H] E. unfold pushed. rewrite E, H, (current_record _ _ _ H).
  now rewrite skipn_app, skipn_all, Nat.sub_diag.
Qed.









Lemma role_line_is_no_task_header (role rest : jsstring) :
  startsWith (str "[ROLE]: " ++ role ++ rest) (str "[TASK]") = false.
Proof. reflexivity. Qed.


Lemma push_then_ret {A : Type} (t : Technique.t) (a : A) (s : Store.t) :
  ready s -> M.bind (push t) (fun _ => M.ret a) s = Ok (a, record s [t]).
Proof. intro R. unfold M.bind. now rewrite (push_record _ _ R). Qed.








Lemma fires_record (stage : jsstring -> M.t jsstring) (t out : jsstring)
  (recs : list Technique.t) (s : Store.t) :
  ready s -> stage t s = Ok (out, record s recs) ->
  fires stage t s = match recs with [] => false | _ => true end.
Proof.
  intros R E. unfold fires. rewrite (pushed_record (stage t) s out recs R E).
  now destruct recs.
Qed.










End Decisions.

(* ================================================================== *)
(** * The empty input *)
(* ================================================================== *)

Section EmptyInput.

Import PromptOptimizer.

Lemma observed_ok (o : outcome (Result.t * Store.t)) v :
  observed o = Ok v ->
  exists r s', o = Ok (r, s')
    /\ v = (Result.original r, Result.optimized r,
            nth (Result.techniques r) (Store.heap s') [],
            Result.improvements r, Result.newAnalysis r).
Proof.
  destruct o as [[r s']| |]; cbn; try discriminate.
  intro H; inversion H. now exists r, s'.
Qed.

Lemma framework_fired_spec (o : outcome (Result.t * Store.t)) :
  framework_fired (observed o) = true ->
  exists r s' t rest,
    o = Ok (r, s')
    /\ nth (Result.techniques r) (Store.heap s') [] = t :: rest
    /\ Technique.name t = str "Framework Structure"
    /\ Technique.description t = str "Added: Role, Task Header, Output Format, Constraints"
    /\ forallb is_space (Result.optimized r) = false.
Proof.
  destruct o as [[r s']| |]; cbn; try discriminate.
  destruct (nth (Result.techniques r) (Store.heap s') []) as [|t rest] eqn:E;
    try discriminate.
  intro H. apply andb_prop in H as [H H3]. apply andb_prop in H as [H1 H2].
  apply str_eqb_eq in H1, H2. apply negb_true_iff in H3.
  exists r, s', t, rest. repeat split; assumption.
Qed.

Lemma quick_on_empty (model : jsstring) (options : Options.t) (s : Store.t) :
  observed (optimize [] PromptAnalyzer.getEmptyAnalysis model (str "quick") options s)
  = Ok ([], [], [], calculateImprovements PromptAnalyzer.getEmptyAnalysis
                      PromptAnalyzer.getEmptyAnalysis, PromptAnalyzer.getEmptyAnalysis).
Proof.
  apply optimize_observed. rewrite record_nil by apply entered_ready. reflexivity.
Qed.

Lemma framework_fires_on_empty (level model : jsstring) (options : Options.t) (s : Store.t) :
  In level [str "standard"; str "advanced"] ->
  In model [str "claude"; str "gpt"; str "gemini"] ->
  framework_fired
    (observed (optimize [] PromptAnalyzer.getEmptyAnalysis model level options s)) = true.
Proof.
  intros Hl Hm.
  rewrite (optimize_store_independent _ _ _ _ _ s Store.initial).
  destruct options as [[[]|] [] [] showThinking];
    cbn [In] in Hl, Hm;
    destruct Hl as [<-|[<-|[]]]; destruct Hm as [<-|[<-|[<-|[]]]];
    vm_compute; reflexivity.
Qed.

(** C6, as amended.  From the empty text and the empty report: at level
    quick [optimize] returns, for any model key and options, the empty text
    and no technique; at levels standard and advanced, for the three models
    and any options, it returns as well, but the framework stage fires: the
    empty report carries no component flag, so every section counts as
    missing, the first technique is "Framework Structure" with all four
    sections, and the optimized text is not blank. *)
Theorem empty_input_by_level :
  (forall (model : jsstring) (options : Options.t) (s : Store.t),
      exists r s',
        optimize [] PromptAnalyzer.getEmptyAnalysis model (str "quick") options s = Ok (r, s')
        /\ Result.optimized r = []
        /\ nth (Result.techniques r) (Store.heap s') [] = [])
  /\ (forall (level model : jsstring) (options : Options.t) (s : Store.t),
        In level [str "standard"; str "advanced"] ->
        In model [str "claude"; str "gpt"; str "gemini"] ->
        exists r s' t rest,
          optimize [] PromptAnalyzer.getEmptyAnalysis model level options s = Ok (r, s')
          /\ nth (Result.techniques r) (Store.heap s') [] = t :: rest
          /\ Technique.name t = str "Framework Structure"
          /\ Technique.description t
             = str "Added: Role, Task Header, Output Format, Constraints"
          /\ forallb is_space (Result.optimized r) = false).
Proof.
  split.
  - intros model options s.
    destruct (observed_ok _ _ (quick_on_empty model options s)) as (r & s' & E & V).
    inversion V. now exists r, s'.
  - intros level model options s Hl Hm.
    apply framework_fired_spec. now apply framework_fires_on_empty.
Qed.

(** C6, as stated, fails at level standard: with Claude and no options the
    optimized text of the empty input starts with a task header and a role
    section and holds the output-format and constraints sections. *)
Lemma empty_input_gets_sections :
  (exists r s',
      optimize [] PromptAnalyzer.getEmptyAnalysis (str "claude") (str "standard") no_options
        Store.initial = Ok (r, s')
      /\ startsWith (Result.optimized r)
           (str "[TASK]: [ROLE]: You are an expert assistant focused on delivering high-quality, accurate responses")
         = true
      /\ includes (Result.optimized r)
           (str "[OUTPUT FORMAT]: Markdown format with clear structure.") = true
      /\ includes (Result.optimized r) (str "[CONSTRAINTS]") = true
      /\ forallb is_space (Result.optimized r) = false
      /\ map Technique.description (nth (Result.techniques r) (Store.heap s') [])
         = [str "Added: Role, Task Header, Output Format, Constraints";
            str "Motivation context"])
  /\ ~ empty_stays_blank (str "standard").
Proof.
  split.
  - do 2 eexists. split; [vm_compute; reflexivity|].
    vm_compute. repeat split; reflexivity.
  - intro H. destruct (H (str "claude") no_options Store.initial) as (r & s' & E & B).
    vm_compute in E. inversion E; subst; clear E. vm_compute in B. discriminate B.
Qed.

End EmptyInput.

(* ================================================================== *)
(** * Stages 1 and 2 insert nothing but ". " and " and " *)
(* ================================================================== *)

Section Quick.

Import PromptOptimizer.

Variable c : N.

Lemma count_app (x y : jsstring) : count c (x ++ y) = count c x + count c y.
Proof. apply count_occ_app. Qed.

Lemma count_cons (x : N) (l : jsstring) : count c l <= count c (x :: l).
Proof. unfold count; cbn. destruct (N.eq_dec x c); lia. Qed.

Lemma count_rev (x : jsstring) : count c (rev x) = count c x.
Proof. apply count_occ_rev. Qed.

Lemma count_trimStart (x : jsstring) : count c (trimStart x) <= count c x.
Proof.
  induction x as [|d x IH]; cbn [trimStart]; [lia|].
  destruct (is_space d); [|lia]. etransitivity; [exact IH | apply count_cons].
Qed.

Lemma count_trim (x : jsstring) : count c (trim x) <= count c x.
Proof.
  unfold trim, trimEnd. rewrite count_rev.
  etransitivity; [apply count_trimStart|]. rewrite count_rev. apply count_trimStart.
Qed.

Lemma count_scan_replace (p : pattern) (f : jsstring -> jsstring) :
  (forall m, count c (f m) = 0) ->
  forall rest prev skip, count c (scan_replace p f prev rest skip) <= count c rest.
Proof.
  intros Hf. induction rest as [|x rest IH]; intros prev skip.
  - destruct skip; cbn [scan_replace]; [|lia].
    destruct (match_here p prev []); [|lia].
    rewrite count_app, Hf. cbn. lia.
  - destruct skip as [|n]; cbn [scan_replace].
    + destruct (match_here p prev (x :: rest)) as [n|].
      * rewrite count_app, Hf. cbn [Nat.add].
        destruct (n =? 0).
        -- specialize (IH (Some x) 0). unfold count in *; cbn.
           destruct (N.eq_dec x c); lia.
        -- etransitivity; [apply IH | apply count_cons].
      * specialize (IH (Some x) 0). unfold count in *; cbn.
        destruct (N.eq_dec x c); lia.
    + etransitivity; [apply IH | apply count_cons].
Qed.

Lemma count_replace_all (p : pattern) (f : jsstring -> jsstring) (text : jsstring) :
  (forall m, count c (f m) = 0) -> count c (replace_all p f text) <= count c text.
Proof. intro Hf. now apply count_scan_replace. Qed.

Lemma total_cons (x : jsstring) (l : list jsstring) : total c (x :: l) = count c x + total c l.
Proof. reflexivity. Qed.

Lemma total_nil : total c (@nil jsstring) = 0.
Proof. reflexivity. Qed.

Lemma count_head (x : N) (l : jsstring) : count c (x :: l) = count c [x] + count c l.
Proof. apply (count_app [x] l). Qed.

Lemma total_scan_split (p : pattern) :
  forall rest prev skip piece,
    total c (scan_split p prev rest skip piece) <= count c rest + count c piece.
Proof.
  induction rest as [|x rest IH]; intros prev skip piece.
  - destruct skip; cbn [scan_split]; rewrite total_cons, count_rev;
      change (total c nil) with 0; lia.
  - pose proof (count_head x rest) as Hr. pose proof (count_head x piece) as Hp.
    destruct skip as [|n]; cbn [scan_split].
    + destruct (match_here p prev (x :: rest)) as [[|n]|].
      * destruct piece as [|y piece].
        -- specialize (IH (Some x) 0 [x]). lia.
        -- rewrite total_cons, count_rev. specialize (IH (Some x) 0 [x]). lia.
      * rewrite total_cons, count_rev. specialize (IH (Some x) n []).
        change (count c []) with 0 in IH. lia.
      * specialize (IH (Some x) 0 (x :: piece)). lia.
    + specialize (IH (Some x) n piece). lia.
Qed.

Lemma total_split (p : pattern) (text : jsstring) : total c (split p text) <= count c text.
Proof.
  unfold split. destruct text as [|x text].
  - destruct (match_here p None []); [|rewrite total_cons]; change (total c nil) with 0;
      cbn; lia.
  - etransitivity; [apply total_scan_split|]. change (count c []) with 0. lia.
Qed.

Lemma total_map_trim (l : list jsstring) : total c (map trim l) <= total c l.
Proof.
  induction l as [|x l IH]; cbn [map]; [lia|].
  rewrite !total_cons. pose proof (count_trim x). lia.
Qed.

Lemma total_filter (f : jsstring -> bool) (l : list jsstring) :
  total c (filter f l) <= total c l.
Proof.
  induction l as [|x l IH]; cbn [filter]; [lia|].
  destruct (f x); rewrite !total_cons; lia.
Qed.

Lemma total_dedupe (l seen : list jsstring) (removed : nat) :
  total c (fst (dedupe l seen removed)) <= total c l.
Proof.
  revert seen removed; induction l as [|x l IH]; intros seen removed; cbn [dedupe].
  - cbn; lia.
  - rewrite total_cons. destruct (existsb _ seen).
    + specialize (IH seen (S removed)). lia.
    + specialize (IH (seen ++ [toLowerCase x]) removed).
      destruct (dedupe l _ removed) as [unique removed']. cbn [fst] in *.
      rewrite total_cons. lia.
Qed.

Lemma count_join (sep : jsstring) (l : list jsstring) :
  count c sep = 0 -> count c (join sep l) = total c l.
Proof.
  intro Hs. induction l as [|x l IH]; cbn [join].
  - reflexivity.
  - rewrite total_cons. destruct l as [|y l]; [change (total c nil) with 0; lia|].
    rewrite !count_app, Hs, IH. lia.
Qed.

Hypothesis not_inserted : mem c (str ". and") = false.

Lemma count_literals :
  count c (str ". ") = 0 /\ count c (str ".") = 0 /\ count c (str " and ") = 0
  /\ count c [] = 0.
Proof.
  assert (H : forall d, mem d (str ". and") = true -> d <> c).
  { intros d Hd ->. now rewrite not_inserted in Hd. }
  assert (H46 : 46%N <> c) by now apply H.
  assert (H32 : 32%N <> c) by now apply H.
  assert (H97 : 97%N <> c) by now apply H.
  assert (H110 : 110%N <> c) by now apply H.
  assert (H100 : 100%N <> c) by now apply H.
  unfold count.
  repeat split; apply count_occ_not_In; intro Hin; cbv in Hin; intuition congruence.
Qed.

(** What [removeRedundancy] returns from a store in which [this.techniques]
    is an array. *)
Lemma removeRedundancy_effect (text : jsstring) (s : Store.t) :
  ready s ->
  exists result recs,
    removeRedundancy text s = Ok (result, record s recs)
    /\ count c result <= count c text
    /\ Forall quick_technique recs.
Proof.
  intro R. destruct count_literals as (Hsep & Hdot & _ & Hnil).
  unfold removeRedundancy.
  pose proof (total_dedupe (filter nonempty (map trim (split sentence_end text))) [] 0) as Hd.
  destruct (dedupe _ [] 0) as [unique removed]. cbn [fst] in Hd.
  assert (Hu : total c unique <= count c text).
  { etransitivity; [exact Hd|]. etransitivity; [apply total_filter|].
    etransitivity; [apply total_map_trim | apply total_split]. }
  assert (Hf : forall t, count c (replace_all fillers (fun _ => []) t) <= count c t).
  { intro t. apply count_replace_all. intro; exact Hnil. }
  assert (Q1 : forall d, quick_technique (technique (str "Redundancy Removal") d
                                            (str "Token efficiency improved")))
    by (intro; now left).
  assert (Q2 : forall d, quick_technique (technique (str "Filler Word Removal") d
                                            (str "Signal density increased")))
    by (intro; now right).
  unfold M.bind at 1.
  destruct (0 <? removed).
  - rewrite (push_then_ret _ _ _ R).
    assert (Hj : count c (join (str ". ") unique ++ str ".") <= count c text).
    { rewrite count_app, Hdot, (count_join _ _ Hsep). lia. }
    destruct (js_match fillers _) as [fm|].
    + destruct (0 <? List.length fm).
      * rewrite (push_then_ret _ _ _ (ready_record _ _ R)), (record_record _ _ _ R).
        do 2 eexists. split; [reflexivity|]. split.
        -- etransitivity; [apply Hf | exact Hj].
        -- cbn [app]. auto.
      * do 2 eexists. split; [reflexivity|]. split; [exact Hj|]. auto.
    + do 2 eexists. split; [reflexivity|]. split; [exact Hj|]. auto.
  - cbn [M.ret].
    destruct (js_match fillers text) as [fm|].
    + destruct (0 <? List.length fm).
      * rewrite (push_then_ret _ _ _ R).
        do 2 eexists. split; [reflexivity|]. split; [apply Hf|]. auto.
      * exists text, []. rewrite (record_nil _ R). repeat split; auto.
    + exists text, []. rewrite (record_nil _ R). repeat split; auto.
Qed.

Lemma improveClarity_effect (text : jsstring) (s : Store.t) :
  exists result,
    improveClarity text s = Ok (result, s) /\ count c result <= count c text.
Proof.
  destruct count_literals as (_ & _ & Hand & _).
  eexists. split; [reflexivity|]. apply count_replace_all. intro; exact Hand.
Qed.

End Quick.

Section QuickLevel.

Import PromptOptimizer.

Lemma quick_pipeline (text model : jsstring) (s0 : Store.t) :
  pipeline text model (str "quick") s0
  = match removeRedundancy text s0 with
    | Ok (t1, s1) =>
        match PromptAnalyzer.analyze
                (replace_all (g (seqs [plus Space; L "and"; plus Space]))
                   (fun _ => str " and ") t1) model with
        | Ok newAnalysis =>
            Ok ((replace_all (g (seqs [plus Space; L "and"; plus Space]))
                   (fun _ => str " and ") t1, newAnalysis), s1)
        | TypeError => TypeError
        | Foreign => Foreign
        end
    | TypeError => TypeError
    | Foreign => Foreign
    end.
Proof.
  unfold pipeline.
  change (is_level (str "quick") ["quick"; "standard"; "advanced"]) with true.
  change (is_level (str "quick") ["standard"; "advanced"]) with false.
  change (is_level (str "quick") ["advanced"]) with false.
  cbv iota. unfold M.bind, improveClarity, M.ret, M.lift.
  destruct (removeRedundancy text s0) as [[t1 s1]| |]; try reflexivity.
  destruct (PromptAnalyzer.analyze _ model); reflexivity.
Qed.

(** At level quick [optimize] returns, unless the model key names a
    property inherited from [Object.prototype]. *)
Lemma quick_returns (text : jsstring) (analysis : Report.t) (model : jsstring)
  (options : Options.t) (s : Store.t) :
  (forall name, get PromptAnalyzer.modelAnalyzers model <> Inherited name) ->
  exists r s', optimize text analysis model (str "quick") options s = Ok (r, s').
Proof.
  intro Hm. rewrite optimize_pipeline, quick_pipeline.
  destruct (removeRedundancy_effect 91 eq_refl text _
              (entered_ready text analysis model (str "quick") options s))
    as (t1 & recs & -> & _).
  destruct (analyze_returns
              (replace_all (g (seqs [plus Space; L "and"; plus Space]))
                 (fun _ => str " and ") t1) model Hm) as [newAnalysis ->].
  rewrite record_techniques. cbn [entered Store.techniques]. eauto.
Qed.

(** C7. At level quick, whatever the text, the report, the model key and the
    options, a call that returns has inserted no section header: no code unit
    other than those of ". " and " and " occurs more often in the optimized
    text than in the input, so neither "[" nor "]" does, and the only
    technique records are those of the redundancy stage.  The call does
    return, for the three models and for every key that names no property
    inherited from [Object.prototype]. *)
Theorem quick_inserts_no_section :
  forall (text : jsstring) (analysis : Report.t) (model : jsstring) (options : Options.t)
         (s : Store.t),
    (forall (r : Result.t) (s' : Store.t),
        optimize text analysis model (str "quick") options s = Ok (r, s') ->
        (forall c, mem c (str ". and") = false ->
                   count c (Result.optimized r) <= count c text)
        /\ count 91 (Result.optimized r) <= count 91 text
        /\ count 93 (Result.optimized r) <= count 93 text
        /\ Forall quick_technique (nth (Result.techniques r) (Store.heap s') []))
    /\ ((forall name, get PromptAnalyzer.modelAnalyzers model <> Inherited name) ->
        exists r s', optimize text analysis model (str "quick") options s = Ok (r, s')).
Proof.
  intros text analysis model options s. split; [|apply quick_returns].
  intros r s' H.
  set (s0 := entered text analysis model (str "quick") options s) in *.
  assert (R0 : ready s0) by apply entered_ready.
  destruct (removeRedundancy_effect 91 eq_refl text s0 R0) as (t1 & recs & E & _ & Q).
  assert (B : forall c, mem c (str ". and") = false ->
                        count c (replace_all (g (seqs [plus Space; L "and"; plus Space]))
                                   (fun _ => str " and ") t1) <= count c text).
  { intros c Hc.
    destruct (removeRedundancy_effect c Hc text s0 R0) as (t1' & recs' & E' & Hle & _).
    rewrite E in E'. inversion E'; subst t1'.
    etransitivity; [|exact Hle].
    apply count_replace_all. intro. now destruct (count_literals c Hc) as (_ & _ & ? & _). }
  rewrite optimize_pipeline in H. fold s0 in H. rewrite quick_pipeline, E in H.
  destruct (PromptAnalyzer.analyze _ model) as [newAnalysis| |]; try discriminate.
  rewrite record_techniques in H. cbn [s0 entered Store.techniques] in H.
  inversion H; subst; clear H. cbn [Result.optimized Result.techniques].
  split; [exact B|]. split; [now apply B|]. split; [now apply B|].
  rewrite (deref_current (record s0 recs) (List.length (Store.heap s)) ([] ++ recs)).
  - exact Q.
  - now rewrite record_techniques.
  - apply current_record, entered_current.
Qed.

(** The theorem at a prompt with a repeated sentence, filler words and a
    bracketed word: deleting the filler leaves "[ROLE]" behind, and nothing
    was inserted. *)
Lemma quick_inserts_no_section_witness :
  exists r s',
    optimize (str "Go fast. Go fast. Write [very ROLE] good code and   tests, really.")
      PromptAnalyzer.getEmptyAnalysis (str "claude") (str "quick") no_options Store.initial
    = Ok (r, s')
    /\ Result.optimized r = str "Go fast. Write [ROLE] good code and tests, ."
    /\ count 91 (Result.optimized r)
       <= count 91 (str "Go fast. Go fast. Write [very ROLE] good code and   tests, really.")
    /\ Forall quick_technique (nth (Result.techniques r) (Store.heap s') []).
Proof.
  do 2 eexists. split; [vm_compute; reflexivity|]. split; [vm_compute; reflexivity|].
  refine (let H := proj1 (quick_inserts_no_section
                     (str "Go fast. Go fast. Write [very ROLE] good code and   tests, really.")
                     PromptAnalyzer.getEmptyAnalysis (str "claude") no_options Store.initial)
                     _ _ _ in conj (proj1 (proj2 H)) (proj2 (proj2 (proj2 H)))).
  vm_compute. reflexivity.
Defined.

End QuickLevel.

(* ================================================================== *)
(** * What the patterns match *)
(* ================================================================== *)

Section Semantics.

Lemma last_of_app (prev : option N) (a b : jsstring) :
  last_of prev (a ++ b) = last_of (last_of prev a) b.
Proof. apply fold_left_app. Qed.

Lemma one_sound (p : N -> bool) (k : cont) (prev : option N) (rest : jsstring) out :
  one p k rest = Some out ->
  exists x rest', rest = [x] ++ rest' /\ p x = true /\ k (last_of prev [x]) rest' = Some out.
Proof.
  destruct rest as [|c rest]; cbn [one]; [discriminate|].
  destruct (p c) eqn:E; [|discriminate]. intro H. now exists c, rest.
Qed.

Lemma one_complete (p : N -> bool) (k : cont) (prev : option N) (x : N) (rest' : jsstring) :
  p x = true -> k (last_of prev [x]) rest' <> None -> one p k ([x] ++ rest') <> None.
Proof. intros E H. cbn [one app]. now rewrite E. Qed.

Lemma orelse_some (a b : option jsstring) :
  orelse a b <> None <-> a <> None \/ b <> None.
Proof. destruct a, b; cbn; intuition congruence. Qed.

Lemma rep_sound (ci : bool) (r : regex) (greedy : bool) (k : cont) :
  sound ci r ->
  forall fuel lo hi prev rest out,
    rep_loop (rmatch ci r) greedy k fuel lo hi prev rest = Some out ->
    exists taken rest',
      rest = taken ++ rest'
      /\ iter (matches ci r) lo hi prev taken rest'
      /\ k (last_of prev taken) rest' = Some out.
Proof.
  intro Hs. induction fuel as [|fuel IH]; intros lo hi prev rest out; cbn [rep_loop];
    [discriminate|].
  assert (Hagain :
            (if hi_zero hi then None
             else rmatch ci r
                    (fun prev' rest' =>
                       if (lo =? 0) && (List.length rest' =? List.length rest) then None
                       else rep_loop (rmatch ci r) greedy k fuel (Nat.pred lo)
                              (option_map Nat.pred hi) prev' rest') prev rest) = Some out ->
            exists taken rest',
              rest = taken ++ rest'
              /\ iter (matches ci r) lo hi prev taken rest'
              /\ k (last_of prev taken) rest' = Some out).
  { destruct (hi_zero hi) eqn:Eh; [discriminate|]. intro H.
    apply Hs in H as (t1 & r1 & -> & M1 & K1).
    destruct ((lo =? 0) && (List.length r1 =? List.length (t1 ++ r1))) eqn:E;
      [discriminate|].
    apply IH in K1 as (t2 & r2 & -> & I2 & K2).
    exists (t1 ++ t2), r2. rewrite <- app_assoc. split; [reflexivity|]. split.
    - apply iter_more; auto.
      intros -> ->. cbn in E. now rewrite Nat.eqb_refl in E.
    - now rewrite last_of_app. }
  assert (Hstop : (if lo =? 0 then k prev rest else None) = Some out ->
                  exists taken rest',
                    rest = taken ++ rest'
                    /\ iter (matches ci r) lo hi prev taken rest'
                    /\ k (last_of prev taken) rest' = Some out).
  { destruct (lo =? 0) eqn:E; [|discriminate]. apply Nat.eqb_eq in E. subst lo.
    intro H. exists [], rest. repeat split; [constructor | exact H]. }
  destruct (lo =? 0) eqn:El; [|exact Hagain].
  unfold orelse. destruct greedy.
  - destruct (if hi_zero hi then None else _) eqn:E.
    + intro H; inversion H; subst. now apply Hagain.
    + exact Hstop.
  - destruct (k prev rest) eqn:E.
    + intro H; inversion H; subst. now apply Hstop.
    + exact Hagain.
Qed.

Lemma rep_complete (ci : bool) (r : regex) (greedy : bool) (k : cont) :
  complete ci r ->
  forall lo hi prev taken rest',
    iter (matches ci r) lo hi prev taken rest' ->
    k (last_of prev taken) rest' <> None ->
    forall fuel, lo + List.length (taken ++ rest') < fuel ->
    rep_loop (rmatch ci r) greedy k fuel lo hi prev (taken ++ rest') <> None.
Proof.
  intro Hc. induction 1 as [hi prev rest | lo hi prev t1 t2 rest Hh M1 Hne I2 IH];
    intros K fuel Hf; (destruct fuel as [|fuel]; [lia|]); cbn [rep_loop].
  - cbn [Nat.eqb app] in *. destruct greedy; apply orelse_some; [now right | now left].
  - assert (Hagain :
              (if hi_zero hi then None
               else rmatch ci r
                      (fun prev' rest' =>
                         if (lo =? 0)
                            && (List.length rest' =? List.length ((t1 ++ t2) ++ rest))
                         then None
                         else rep_loop (rmatch ci r) greedy k fuel (Nat.pred lo)
                                (option_map Nat.pred hi) prev' rest') prev
                      ((t1 ++ t2) ++ rest)) <> None).
    { rewrite Hh, <- app_assoc. apply Hc; [exact M1|].
      assert (E : (lo =? 0) && (List.length (t2 ++ rest)
                                =? List.length (t1 ++ t2 ++ rest)) = false).
      { apply andb_false_iff. destruct (Nat.eqb_spec lo 0) as [E0|E0]; [right|now left].
        apply Nat.eqb_neq. specialize (Hne E0). rewrite (length_app t1).
        destruct t1; [congruence | cbn; lia]. }
      rewrite E. apply IH.
      - now rewrite <- last_of_app.
      - rewrite <- app_assoc, (length_app t1) in Hf.
        destruct (Nat.eqb_spec lo 0) as [E0|E0].
        + specialize (Hne E0). destruct t1; [congruence|]. cbn [List.length] in Hf.
          subst lo. cbn. lia.
        + lia. }
    destruct (lo =? 0); [|exact Hagain].
    destruct greedy; apply orelse_some; [now left | now right].
Qed.

Lemma rmatch_adequate (ci : bool) (r : regex) : sound ci r /\ complete ci r.
Proof.
  induction r as [| c | | | | cs | cs | | | r1 [S1 C1] r2 [S2 C2] | r1 [S1 C1] r2 [S2 C2]
                 | greedy lo hi r [S C] | r [S C]]; split.
  - intros k prev rest out H. exists [], rest. cbn in *. auto.
  - intros k prev taken rest' -> K. exact K.
  - intros k prev rest out H. cbn [rmatch] in H.
    apply (one_sound _ _ prev) in H as (x & rest' & -> & E & K).
    exists [x], rest'. cbn [matches]. eauto.
  - intros k prev taken rest' (x & -> & E) K. cbn [rmatch]. now apply (one_complete _ _ prev).
  - intros k prev rest out H. cbn [rmatch] in H.
    apply (one_sound _ _ prev) in H as (x & rest' & -> & E & K).
    exists [x], rest'. cbn [matches]. eauto.
  - intros k prev taken rest' (x & -> & E) K. cbn [rmatch]. now apply (one_complete _ _ prev).
  - intros k prev rest out H. cbn [rmatch] in H.
    apply (one_sound _ _ prev) in H as (x & rest' & -> & E & K).
    exists [x], rest'. cbn [matches]. eauto.
  - intros k prev taken rest' (x & -> & E) K. cbn [rmatch]. now apply (one_complete _ _ prev).
  - intros k prev rest out H. cbn [rmatch] in H.
    apply (one_sound _ _ prev) in H as (x & rest' & -> & E & K).
    exists [x], rest'. cbn [matches]. eauto.
  - intros k prev taken rest' (x & -> & E) K. cbn [rmatch]. now apply (one_complete _ _ prev).
  - intros k prev rest out H. cbn [rmatch] in H.
    apply (one_sound _ _ prev) in H as (x & rest' & -> & E & K).
    exists [x], rest'. cbn [matches]. eauto.
  - intros k prev taken rest' (x & -> & E) K. cbn [rmatch]. now apply (one_complete _ _ prev).
  - intros k prev rest out H. cbn [rmatch] in H.
    apply (one_sound _ _ prev) in H as (x & rest' & -> & E & K).
    exists [x], rest'. cbn [matches]. eauto.
  - intros k prev taken rest' (x & -> & E) K. cbn [rmatch]. now apply (one_complete _ _ prev).
  - intros k prev rest out H. cbn [rmatch] in H. destruct prev; [discriminate|].
    exists [], rest. cbn. auto.
  - intros k prev taken rest' [-> ->] K. exact K.
  - intros k prev rest out H. cbn [rmatch] in H.
    destruct (xorb _ _) eqn:E; [|discriminate]. exists [], rest. cbn. auto.
  - intros k prev taken rest' [-> E] K. cbn [rmatch app]. now rewrite E.
  - intros k prev rest out H. cbn [rmatch] in H.
    apply S1 in H as (t1 & r1' & -> & M1 & H).
    apply S2 in H as (t2 & r2' & -> & M2 & K).
    exists (t1 ++ t2), r2'. rewrite <- app_assoc, last_of_app. cbn [matches]. eauto 10.
  - intros k prev taken rest' (t1 & t2 & -> & M1 & M2) K. cbn [rmatch].
    rewrite <- app_assoc. apply C1; [exact M1|]. apply C2; [exact M2|].
    now rewrite <- last_of_app.
  - intros k prev rest out H. cbn [rmatch] in H. unfold orelse in H.
    destruct (rmatch ci r1 k prev rest) eqn:E.
    + inversion H; subst. apply S1 in E as (t & r' & -> & M & K).
      exists t, r'. cbn [matches]. auto.
    + apply S2 in H as (t & r' & -> & M & K). exists t, r'. cbn [matches]. auto.
  - intros k prev taken rest' [M|M] K; cbn [rmatch]; apply orelse_some;
      [left; now apply C1 | right; now apply C2].
  - intros k prev rest out H. cbn [rmatch] in H. now apply (rep_sound _ _ _ _ S) in H.
  - intros k prev taken rest' M K. cbn [rmatch].
    apply (rep_complete _ _ _ _ C _ _ _ _ _ M K). lia.
  - intros k prev rest out H. cbn [rmatch] in H.
    destruct (rmatch ci r (fun _ rest' => Some rest') prev rest) eqn:E; [discriminate|].
    exists [], rest. cbn [matches app last_of fold_left]. repeat split; auto.
    intros (t & rest' & -> & M).
    apply (C (fun _ rest' => Some rest') prev t rest' M); [discriminate | exact E].
  - intros k prev taken rest' [-> N] K. cbn [rmatch app].
    destruct (rmatch ci r (fun _ rest'0 => Some rest'0) prev rest') eqn:E; [|exact K].
    apply S in E as (t & r' & -> & M & _). elim N. eauto.
Qed.

Lemma match_here_matches (p : pattern) (prev : option N) (rest : jsstring) :
  match_here p prev rest <> None
  <-> exists taken post,
        rest = taken ++ post /\ matches (flag_i p) (re p) prev taken post.
Proof.
  destruct (rmatch_adequate (flag_i p) (re p)) as [S C]. unfold match_here. split.
  - destruct (rmatch _ _ _ prev rest) as [out|] eqn:E; [|congruence]. intros _.
    apply S in E as (taken & post & -> & M & _). eauto.
  - intros (taken & post & -> & M).
    pose proof (C (fun _ rest' => Some rest') prev taken post M) as H.
    destruct (rmatch _ _ _ prev (taken ++ post)); [discriminate|].
    exfalso. apply H; [discriminate | reflexivity].
Qed.

Lemma search_matches (p : pattern) :
  forall rest prev,
    search p prev rest = true
    <-> exists pre taken post,
          rest = pre ++ taken ++ post
          /\ matches (flag_i p) (re p) (last_of prev pre) taken post.
Proof.
  induction rest as [|c rest IH]; intro prev; cbn [search].
  - destruct (match_here p prev []) eqn:E.
    + split; [intros _|reflexivity].
      assert (H : match_here p prev [] <> None) by congruence.
      apply match_here_matches in H as (taken & post & H & M). exists [], taken, post. auto.
    + split; [discriminate|]. intros (pre & taken & post & H & M). exfalso.
      destruct pre; [|discriminate]. cbn in H, M.
      assert (K : match_here p prev [] <> None) by (apply match_here_matches; eauto).
      congruence.
  - destruct (match_here p prev (c :: rest)) eqn:E.
    + split; [intros _|reflexivity].
      assert (H : match_here p prev (c :: rest) <> None) by congruence.
      apply match_here_matches in H as (taken & post & H & M). exists [], taken, post. auto.
    + rewrite IH. split.
      * intros (pre & taken & post & -> & M). exists (c :: pre), taken, post. auto.
      * intros (pre & taken & post & H & M). destruct pre as [|d pre].
        -- exfalso. cbn in H, M.
           assert (K : match_here p prev (c :: rest) <> None)
             by (apply match_here_matches; eauto).
           congruence.
        -- cbn [app] in H. inversion H; subst. exists pre, taken, post. auto.
Qed.

(** [p.test(text)] holds exactly when the pattern occurs in the text. *)
Lemma test_occurs (p : pattern) (text : jsstring) : test p text = true <-> occurs p text.
Proof. apply search_matches. Qed.

Lemma matches_anywhere (ci : bool) (r : regex) :
  context_free r = true ->
  forall prev taken rest prev' rest',
    matches ci r prev taken rest -> matches ci r prev' taken rest'.
Proof.
  induction r as [| c | | | | cs | cs | | | r1 IH1 r2 IH2 | r1 IH1 r2 IH2
                 | greedy lo hi r IH | r IH]; cbn [context_free matches]; intro F;
    try discriminate; auto.
  - apply andb_prop in F as [F1 F2]. intros prev taken rest prev' rest' (t1 & t2 & E & M1 & M2).
    exists t1, t2. eauto.
  - apply andb_prop in F as [F1 F2]. intros prev taken rest prev' rest' [M|M]; eauto.
  - intros prev taken rest prev' rest' M. revert prev'.
    induction M as [hi prev rest | lo hi prev t1 t2 rest Hh M1 Hne I2 IHi]; intro prev'.
    + constructor.
    + apply iter_more; eauto.
Qed.

Lemma canon_nl (c : N) : N.eqb (canon nl) (canon c) = true -> c = nl.
Proof.
  unfold canon. change (is_lower nl) with false. cbv iota.
  destruct (is_lower c) eqn:E; intro H; apply N.eqb_eq in H; [|congruence].
  unfold is_lower, in_range in E. apply andb_prop in E as [E1 E2].
  apply N.leb_le in E1, E2. unfold nl in *. lia.
Qed.

Lemma matches_in_line (ci : bool) (r : regex) :
  line_bound r = true ->
  forall prev taken rest, matches ci r prev taken rest -> ~ In nl taken.
Proof.
  induction r as [| c | | | | cs | cs | | | r1 IH1 r2 IH2 | r1 IH1 r2 IH2
                 | greedy lo hi r IH | r IH]; cbn [line_bound matches]; intro F;
    intros prev taken rest M.
  - subst. auto.
  - destruct M as (x & -> & E). intros [->|[]].
    apply negb_true_iff, N.eqb_neq in F. apply F.
    destruct ci; [now apply canon_nl in E | apply N.eqb_eq in E; congruence].
  - destruct M as (x & -> & E). intros [->|[]]. discriminate E.
  - destruct M as (x & -> & E). intros [->|[]]. discriminate E.
  - discriminate.
  - destruct M as (x & -> & E). intros [->|[]]. now rewrite E in F.
  - destruct M as (x & -> & E). intros [->|[]]. now rewrite F in E.
  - destruct M as [-> _]. auto.
  - destruct M as [-> _]. auto.
  - apply andb_prop in F as [F1 F2]. destruct M as (t1 & t2 & -> & M1 & M2).
    rewrite in_app_iff. intros [H|H]; [eapply IH1 | eapply IH2]; eauto.
  - apply andb_prop in F as [F1 F2]. destruct M as [M|M]; eauto.
  - induction M as [hi prev rest | lo hi prev t1 t2 rest Hh M1 Hne I2 IHi]; [auto|].
    rewrite in_app_iff. intros [H|H]; [eapply IH | ]; eauto.
  - destruct M as [-> _]. auto.
Qed.

Lemma occurs_within (p : pattern) (pre a post : jsstring) :
  context_free (re p) = true -> occurs p a -> occurs p (pre ++ a ++ post).
Proof.
  intros F (pre' & taken & post' & -> & M).
  exists (pre ++ pre'), taken, (post' ++ post). split.
  - now rewrite <- !app_assoc.
  - eapply matches_anywhere; eauto.
Qed.

Lemma piece_at_start (b post : jsstring) :
  forall taken a,
    a ++ nl :: b = taken ++ post -> ~ In nl taken -> exists post', a = taken ++ post'.
Proof.
  induction taken as [|y taken IH]; intros a H N; [now exists a|].
  destruct a as [|x a]; cbn [app] in H; inversion H; subst.
  - elim N. now left.
  - destruct (IH a H2) as [post' ->]; [intro K; apply N; now right|]. now exists post'.
Qed.

(** Where a piece without line feed lies in a text cut at a line feed. *)
Lemma piece_of_lines (b taken post : jsstring) :
  forall pre a,
    a ++ nl :: b = pre ++ taken ++ post -> ~ In nl taken ->
    (exists post', a = pre ++ taken ++ post') \/ (exists pre', b = pre' ++ taken ++ post).
Proof.
  induction pre as [|y pre IH]; intros a H N.
  - left. cbn [app] in *. eapply piece_at_start; eauto.
  - destruct a as [|x a]; cbn [app] in H; inversion H; subst.
    + right. now exists pre.
    + destruct (IH a H2 N) as [[post' ->]|[pre' ->]];
        [left; now exists post' | right; now exists pre'].
Qed.

(** For a pattern that looks at nothing around a match and never matches a
    line feed, the lines of a text are searched independently. *)
Lemma occurs_in_lines (p : pattern) (a b : jsstring) :
  context_free (re p) = true -> line_bound (re p) = true ->
  occurs p (a ++ nl :: b) <-> occurs p a \/ occurs p b.
Proof.
  intros F L. split.
  - intros (pre & taken & post & H & M).
    pose proof (matches_in_line _ _ L _ _ _ M) as N.
    destruct (piece_of_lines _ _ _ _ _ H N) as [[post' ->]|[pre' ->]]; [left | right].
    + exists pre, taken, post'. split; [reflexivity|]. eapply matches_anywhere; eauto.
    + exists pre', taken, post. split; [reflexivity|]. eapply matches_anywhere; eauto.
  - intros [H|H].
    + apply (occurs_within p [] a (nl :: b) F) in H. exact H.
    + apply (occurs_within p (a ++ [nl]) b [] F) in H.
      now rewrite app_nil_r, <- app_assoc in H.
Qed.

Lemma test_in_lines (p : pattern) (a b : jsstring) :
  context_free (re p) = true -> line_bound (re p) = true ->
  test p (a ++ nl :: b) = test p a || test p b.
Proof.
  intros F L. apply eq_true_iff_eq.
  rewrite orb_true_iff, !test_occurs. now apply occurs_in_lines.
Qed.

Lemma test_within (p : pattern) (pre a post : jsstring) :
  context_free (re p) = true -> test p a = true -> test p (pre ++ a ++ post) = true.
Proof. rewrite !test_occurs. apply occurs_within. Qed.

Lemma match_here_sound (p : pattern) (prev : option N) (rest : jsstring) (n : nat) :
  match_here p prev rest = Some n ->
  n <= List.length rest
  /\ matches (flag_i p) (re p) prev (firstn n rest) (skipn n rest).
Proof.
  intro H. apply match_here_within in H as [Hn H]. split; [exact Hn|].
  destruct (rmatch_adequate (flag_i p) (re p)) as [S _].
  apply S in H as (taken & rest' & E & M & K). inversion K; subst rest'.
  assert (T : taken = firstn n rest).
  { apply (app_inv_tail (skipn n rest)). now rewrite firstn_skipn. }
  now rewrite <- T.
Qed.

Lemma iter_of_class (ci : bool) (r : regex) (P : N -> Prop) :
  (forall prev t rest, matches ci r prev t rest -> exists x, t = [x] /\ P x) ->
  forall lo hi prev t rest,
    iter (matches ci r) lo hi prev t rest -> Forall P t /\ lo <= List.length t.
Proof.
  intro H. induction 1 as [hi prev rest | lo hi prev t1 t2 rest Hh M1 Hne I2 [IH1 IH2]].
  - split; [constructor | reflexivity].
  - apply H in M1 as (x & -> & Px). split; [now constructor|]. cbn [app List.length]. lia.
Qed.

Lemma lits_exact (s : jsstring) :
  forall prev t rest, matches false (lits s) prev t rest -> t = s.
Proof.
  induction s as [|c s IH]; intros prev t rest M; [exact M|].
  destruct s as [|d s].
  - destruct M as (x & -> & E). apply N.eqb_eq in E. now subst.
  - destruct M as (t1 & t2 & -> & (x & -> & E) & M2). apply N.eqb_eq in E. subst x.
    apply IH in M2. now rewrite M2.
Qed.

End Semantics.

(* ================================================================== *)
(** * The filler words are stripped in one pass *)
(* ================================================================== *)

Section Fillers.

Import PromptOptimizer.

Lemma lits_any_case (s : jsstring) :
  forall prev t rest, matches true (lits s) prev t rest <-> map canon t = map canon s.
Proof.
  induction s as [|c s IH]; intros prev t rest.
  - cbn. split; [now intros -> | now destruct t].
  - destruct s as [|d s].
    + cbn [lits matches map]. split.
      * intros (x & -> & E). apply N.eqb_eq in E. cbn. now rewrite E.
      * destruct t as [|x [|y t]]; cbn; try discriminate. intro H. injection H as H.
        exists x. split; [reflexivity | now apply N.eqb_eq].
    + change (lits (c :: d :: s)) with (Seq (Lit c) (lits (d :: s))).
      cbn [matches]. split.
      * intros (t1 & t2 & -> & (x & -> & E) & M2). apply N.eqb_eq in E.
        apply IH in M2. cbn [app map]. now rewrite E, M2.
      * destruct t as [|x t]; [discriminate|]. cbn [map]. intro H. injection H as Hx Ht.
        exists [x], t. split; [reflexivity|]. split.
        -- exists x. split; [reflexivity | now apply N.eqb_eq].
        -- now apply IH.
Qed.

Lemma alts_spec (ci : bool) (r : regex) (rs : list regex) :
  forall prev t rest,
    matches ci (alts (r :: rs)) prev t rest
    <-> exists r', In r' (r :: rs) /\ matches ci r' prev t rest.
Proof.
  revert r. induction rs as [|r2 rs IH]; intros r prev t rest.
  - cbn [alts]. split; [intro M; exists r; split; [now left | exact M]|].
    now intros (r' & [<-|[]] & M).
  - change (alts (r :: r2 :: rs)) with (Alt r (alts (r2 :: rs))). cbn [matches].
    rewrite IH. split.
    + intros [M|(r' & Hin & M)]; [exists r; split; [now left | exact M]|].
      exists r'. split; [now right | exact M].
    + intros (r' & [<-|Hin] & M); [now left|]. right. now exists r'.
Qed.

Lemma words_spec (w : string) (ws : list string) :
  forall prev t rest,
    matches true (words (w :: ws)) prev t rest
    <-> exists f, In f (w :: ws) /\ map canon t = map canon (str f).
Proof.
  intros prev t rest. unfold words. cbn [map]. rewrite alts_spec. split.
  - intros (r' & Hin & M).
    change (L w :: map L ws) with (map L (w :: ws)) in Hin.
    apply in_map_iff in Hin as (f & <- & Hf). exists f. split; [exact Hf|].
    now apply (lits_any_case (str f) prev t rest).
  - intros (f & Hf & E). exists (L f). split.
    + change (L w :: map L ws) with (map L (w :: ws)). now apply in_map.
    + now apply lits_any_case.
Qed.

Lemma star_space_spec (ci : bool) (sp : jsstring) :
  forall prev post,
    iter (matches ci Space) 0 None prev sp post <-> spaces sp.
Proof.
  intros prev post. split.
  - intro I.
    apply (iter_of_class ci Space (fun c => is_space c = true)) in I as [S _];
      [exact S|].
    intros ? ? ? (x & -> & E). eauto.
  - unfold spaces. intro S. revert prev. induction S as [|c sp Hc _ IH]; intro prev.
    + constructor.
    + change (c :: sp) with ([c] ++ sp).
      apply iter_more; [reflexivity | | discriminate | apply IH].
      exists c. split; [reflexivity | exact Hc].
Qed.

Lemma canon_word (x : N) : is_upper (canon x) = true -> is_word x = true.
Proof.
  unfold canon, is_word. destruct (is_lower x) eqn:E.
  - intros _. now rewrite orb_true_r.
  - intro H. now rewrite H.
Qed.

Lemma filler_letters (w : jsstring) :
  is_filler w -> w <> [] /\ Forall (fun c => is_word c = true) w.
Proof.
  intros (f & Hf & E).
  assert (U : Forall (fun c => is_upper c = true) (map canon (str f)) /\ str f <> []).
  { unfold filler_words in Hf.
    repeat (destruct Hf as [<-|Hf];
            [split; [repeat constructor | discriminate]|]).
    destruct Hf. }
  destruct U as [U Hn]. rewrite <- E in U. split.
  - intros ->. destruct (str f); [now apply Hn | discriminate].
  - clear - U. induction w as [|x w IH]; [constructor|].
    cbn [map] in U. inversion U; subst. constructor; [now apply canon_word | auto].
Qed.

Lemma space_is_no_word (c : N) : is_space c = true -> is_word c = false.
Proof.
  unfold is_space, is_word, is_upper, is_lower, is_digit, in_range, mem. cbn [existsb].
  intro H.
  repeat match goal with
         | H : (_ || _) = true |- _ => apply orb_prop in H as [H|H]
         | H : (_ && _) = true |- _ => apply andb_prop in H as [? ?]
         | H : N.eqb _ _ = true |- _ => apply N.eqb_eq in H; subst
         | H : false = true |- _ => discriminate H
         end;
    try reflexivity;
    repeat match goal with
           | H : (_ <=? _)%N = true |- _ => apply N.leb_le in H
           end;
    repeat (apply orb_false_iff; split); try (apply andb_false_iff);
    try (apply N.eqb_neq; lia);
    destruct (N.le_gt_cases 48 c), (N.le_gt_cases 65 c), (N.le_gt_cases 97 c);
    first [ left; apply N.leb_gt; lia | right; apply N.leb_gt; lia ].
Qed.

Lemma last_of_word (prev : option N) (w : jsstring) :
  w <> [] -> Forall (fun c => is_word c = true) w -> word_before (last_of prev w) = true.
Proof.
  intros Hn F. revert prev. induction F as [|c w Hc F IH]; intro prev; [now elim Hn|].
  unfold last_of. cbn [fold_left]. destruct w as [|d w].
  - exact Hc.
  - apply (IH ltac:(discriminate) (Some c)).
Qed.

Lemma word_starts (w post : jsstring) :
  w <> [] -> Forall (fun c => is_word c = true) w -> word_after (w ++ post) = true.
Proof. intros Hn F. destruct F; [now elim Hn | assumption]. Qed.

(** What the pattern of the filler words matches: a filler word that starts
    and ends at a word boundary, with white space after it. *)
Lemma fillers_match (prev : option N) (taken post : jsstring) :
  matches true (re fillers) prev taken post
  <-> exists w sp,
        taken = w ++ sp /\ is_filler w /\ spaces sp
        /\ word_before prev = false /\ word_after (sp ++ post) = false.
Proof.
  change (re fillers) with (Seq WordB (Seq (words filler_words) (Seq WordB (star Space)))).
  cbn [matches]. unfold star. cbn [matches]. split.
  - intros (t1 & t2 & -> & (-> & B1) & w & t3 & -> & W & t4 & sp & -> & (-> & B2) & S).
    apply words_spec in W. apply (star_space_spec true) in S.
    cbn [app last_of fold_left] in *. change (fold_left _ w prev) with (last_of prev w) in *.
    assert (F : is_filler w) by exact W.
    destruct (filler_letters w F) as [Hn Hw].
    exists w, sp. split; [reflexivity|]. split; [exact F|]. split; [exact S|]. split.
    + rewrite <- app_assoc in B1. rewrite (word_starts w _ Hn Hw) in B1.
      now destruct (word_before prev).
    + rewrite (last_of_word prev w Hn Hw) in B2. cbn [app] in B2.
      now destruct (word_after (sp ++ post)).
  - intros (w & sp & -> & F & S & B1 & B2).
    destruct (filler_letters w F) as [Hn Hw].
    exists [], (w ++ sp). split; [reflexivity|]. split.
    + split; [reflexivity|]. rewrite <- app_assoc, (word_starts w _ Hn Hw), B1. reflexivity.
    + exists w, sp. split; [reflexivity|]. split; [now apply words_spec|].
      exists [], sp. split; [reflexivity|]. split.
      * split; [reflexivity|]. cbn [app last_of fold_left].
        change (fold_left _ w prev) with (last_of prev w).
        rewrite (last_of_word prev w Hn Hw), B2. reflexivity.
      * now apply (star_space_spec true).
Qed.

(** A match of the pattern starts with a word character after none. *)
Lemma fillers_found (prev : option N) (rest : jsstring) :
  match_here fillers prev rest <> None ->
  exists w post,
    rest = w ++ post /\ is_filler w /\ word_after post = false
    /\ word_before prev = false.
Proof.
  intro H. apply match_here_matches in H as (taken & post & -> & M).
  change (flag_i fillers) with true in M.
  apply fillers_match in M as (w & sp & -> & F & _ & B1 & B2).
  exists w, (sp ++ post). now rewrite <- app_assoc.
Qed.

Lemma fillers_complete (prev : option N) (w post : jsstring) :
  is_filler w -> word_before prev = false -> word_after post = false ->
  match_here fillers prev (w ++ post) <> None.
Proof.
  intros F B1 B2. apply match_here_matches. exists w, post. split; [reflexivity|].
  change (flag_i fillers) with true. apply fillers_match.
  exists w, []. rewrite app_nil_r. repeat split; auto. constructor.
Qed.

Lemma fillers_step (prev : option N) (rest : jsstring) (n : nat) :
  match_here fillers prev rest = Some n ->
  1 <= n <= List.length rest
  /\ word_before prev = false
  /\ (word_before (last_of prev (firstn n rest)) = false
      \/ word_after (skipn n rest) = false).
Proof.
  intro H. apply match_here_sound in H as [Hn M].
  change (flag_i fillers) with true in M.
  apply fillers_match in M as (w & sp & E & F & S & B1 & B2).
  destruct (filler_letters w F) as [Hw _].
  assert (L : List.length (firstn n rest) = n) by (apply firstn_length_le; exact Hn).
  rewrite E in L. rewrite length_app in L.
  split; [|split; [exact B1|]].
  - split; [|exact Hn]. destruct w; [now elim Hw | cbn in L; lia].
  - rewrite E. destruct sp as [|c sp] using rev_ind.
    + right. exact B2.
    + left. rewrite app_assoc, last_of_app. cbn.
      apply space_is_no_word. unfold spaces in S. rewrite Forall_app in S.
      destruct S as [_ S]. now inversion S.
Qed.

Lemma scan_replace_skip (p : pattern) (f : jsstring -> jsstring) (k : nat) :
  forall rest prev,
    k <= List.length rest ->
    scan_replace p f prev rest k
    = scan_replace p f (last_of prev (firstn k rest)) (skipn k rest) 0.
Proof.
  induction k as [|k IH]; intros rest prev H; [reflexivity|].
  destruct rest as [|c rest]; [cbn in H; lia|].
  cbn [scan_replace firstn skipn]. rewrite IH by (cbn in H; lia). reflexivity.
Qed.

(** The scan of [replace] at a match that is not empty. *)
Lemma scan_replace_match (p : pattern) (f : jsstring -> jsstring) (prev : option N)
  (rest : jsstring) (n : nat) :
  match_here p prev rest = Some n -> 1 <= n <= List.length rest ->
  scan_replace p f prev rest 0
  = f (firstn n rest)
    ++ scan_replace p f (last_of prev (firstn n rest)) (skipn n rest) 0.
Proof.
  intros E [H1 H2]. destruct rest as [|c rest]; [cbn in H2; lia|].
  destruct n as [|n]; [lia|].
  cbn [scan_replace]. rewrite E. cbn [Nat.eqb Nat.pred]. f_equal.
  rewrite scan_replace_skip by (cbn in H2; lia). reflexivity.
Qed.

Lemma scan_replace_none (p : pattern) (f : jsstring -> jsstring) (prev : option N)
  (rest : jsstring) :
  match_here p prev rest = None ->
  scan_replace p f prev rest 0
  = match rest with
    | c :: rest' => c :: scan_replace p f (Some c) rest' 0
    | [] => []
    end.
Proof. intro E. destruct rest; cbn [scan_replace]; now rewrite E. Qed.

Lemma fillers_none_after_word (prev : option N) (rest : jsstring) :
  word_before prev = true -> match_here fillers prev rest = None.
Proof.
  intro B. destruct (match_here fillers prev rest) eqn:E; [|reflexivity].
  assert (H : match_here fillers prev rest <> None) by congruence.
  apply fillers_found in H as (_ & _ & _ & _ & _ & H). congruence.
Qed.

(** Within a word the scan copies: the word at the head of the result is at
    the head of the text. *)
Lemma word_run (w : jsstring) :
  forall rest prev post',
    Forall (fun c => is_word c = true) w ->
    word_before prev = true ->
    scan_replace fillers (fun _ => []) prev rest 0 = w ++ post' ->
    word_after post' = false ->
    exists post, rest = w ++ post /\ word_after post = false.
Proof.
  induction w as [|x w IH]; intros rest prev post' F B E A;
    rewrite (scan_replace_none _ _ _ _ (fillers_none_after_word prev rest B)) in E.
  - exists rest. split; [reflexivity|]. cbn [app] in E.
    destruct rest as [|c rest]; [reflexivity|]. subst post'. exact A.
  - destruct rest as [|c rest]; [discriminate|].
    cbn [app] in E. injection E as -> E. inversion F; subst.
    destruct (IH rest (Some x) post') as (post & -> & A'); auto.
    now exists post.
Qed.

(** The stripped text holds no filler word. *)
Lemma strip_quiet (n : nat) :
  forall rest prev_in prev_out,
    List.length rest <= n ->
    prev_out = prev_in
    \/ (word_before prev_out = false
        /\ (word_before prev_in = false \/ word_after rest = false)) ->
    quiet fillers prev_out (scan_replace fillers (fun _ => []) prev_in rest 0).
Proof.
  induction n as [|n IH]; intros rest prev_in prev_out L I.
  - destruct rest; [|cbn in L; lia].
    assert (X : forall prev, match_here fillers prev [] = None).
    { intro prev. destruct (match_here fillers prev []) eqn:E; [|reflexivity].
      assert (H : match_here fillers prev [] <> None) by congruence.
      apply fillers_found in H as (w & post & H & F & _).
      destruct (filler_letters w F) as [Hw _]. destruct w; [now elim Hw | discriminate]. }
    rewrite (scan_replace_none _ _ _ _ (X prev_in)). cbn [quiet]. now rewrite X.
  - destruct (match_here fillers prev_in rest) as [m|] eqn:E.
    + destruct (fillers_step _ _ _ E) as (Hm & B & D).
      rewrite (scan_replace_match _ (fun _ => []) _ _ _ E Hm). cbn [app].
      apply IH; [rewrite length_skipn; lia|]. right. split; [|exact D].
      destruct I as [->|[I _]]; assumption.
    + rewrite (scan_replace_none _ _ _ _ E).
      destruct rest as [|c rest].
      * cbn [quiet]. split; [|exact Logic.I].
        destruct (match_here fillers prev_out []) eqn:E'; [|reflexivity].
        assert (H : match_here fillers prev_out [] <> None) by congruence.
        apply fillers_found in H as (w & post & H & F & _).
        destruct (filler_letters w F) as [Hw _]. destruct w; [now elim Hw | discriminate].
      * cbn [quiet]. split; [|apply IH; [cbn in L; lia | now left]].
        destruct (match_here fillers prev_out (c :: _)) eqn:E'; [|reflexivity].
        exfalso.
        assert (H : match_here fillers prev_out
                      (c :: scan_replace fillers (fun _ => []) (Some c) rest 0) <> None)
          by congruence.
        apply fillers_found in H as (w & post' & H & F & A & B).
        destruct (filler_letters w F) as [Hw Fw].
        destruct w as [|x w]; [now elim Hw|]. cbn [app] in H. injection H as <- H.
        inversion Fw; subst.
        destruct (word_run w rest (Some c) post') as (post & -> & A'); auto.
        assert (Bin : word_before prev_in = false).
        { destruct I as [<-|[_ [I|I]]]; auto. cbn in I. congruence. }
        apply (fillers_complete prev_in (c :: w) post F Bin A'). exact E.
Qed.

Lemma quiet_scan (p : pattern) (text : jsstring) :
  forall prev, quiet p prev text -> scan_matches p prev text 0 = [].
Proof.
  induction text as [|c text IH]; intros prev [E Q]; cbn [scan_matches]; rewrite E.
  - reflexivity.
  - now apply IH.
Qed.

(** After [result.replace(fillers, '')] the pattern of the filler words
    matches nowhere. *)
Lemma fillers_gone (result : jsstring) :
  js_match fillers (replace_all fillers (fun _ => []) result) = None.
Proof.
  unfold js_match, replace_all.
  rewrite (quiet_scan fillers _ None); [reflexivity|].
  apply (strip_quiet (List.length result)); [lia | now left].
Qed.

End Fillers.

(* ================================================================== *)
(** * Sentences: splitting, trimming and joining *)
(* ================================================================== *)

Section Sentences.

Import PromptOptimizer.

Lemma eqb_succ (n : nat) : (n =? S n) = false.
Proof. apply Nat.eqb_neq. lia. Qed.

(** The greedy loop of [[.!?]+] from a position: it takes the whole run. *)
Lemma rep_loop_run (rest : jsstring) :
  forall fuel lo prev,
    lo + List.length rest < fuel ->
    rep_loop (rmatch false (OneOf (str ".!?"))) true (fun _ rest' => Some rest')
      fuel lo None prev rest
    = if lo <=? run rest then Some (skipn (run rest) rest) else None.
Proof.
  induction rest as [|c rest IH]; intros fuel lo prev Hf;
    (destruct fuel as [|fuel]; [lia|]); cbn [rep_loop hi_zero rmatch one run].
  - destruct lo; reflexivity.
  - fold (ends_sentence c). destruct (ends_sentence c).
    + cbn [List.length]. rewrite eqb_succ, andb_false_r.
      rewrite IH by (cbn [List.length] in Hf; lia).
      destruct lo as [|lo]; cbn [Nat.pred Nat.eqb Nat.leb skipn].
      * reflexivity.
      * reflexivity.
    + destruct lo; reflexivity.
Qed.

Lemma skipn_run_length (rest : jsstring) :
  List.length rest - List.length (skipn (run rest) rest) = run rest.
Proof.
  induction rest as [|c rest IH]; cbn [run]; [reflexivity|].
  destruct (ends_sentence c); cbn [skipn List.length]; [|lia].
  assert (List.length (skipn (run rest) rest) <= List.length rest)
    by (rewrite length_skipn; lia).
  lia.
Qed.

(** A sentence end matches where the text has one, over the whole run. *)
Lemma match_here_sentence_end (prev : option N) (rest : jsstring) :
  match_here sentence_end prev rest
  = if 1 <=? run rest then Some (run rest) else None.
Proof.
  unfold match_here, sentence_end, plain, plus. cbn [re flag_i rmatch].
  rewrite rep_loop_run by lia.
  destruct (1 <=? run rest); [|reflexivity].
  now rewrite skipn_run_length.
Qed.

Lemma match_here_free (prev : option N) (c : N) (rest : jsstring) :
  ends_sentence c = false -> match_here sentence_end prev (c :: rest) = None.
Proof. intro H. rewrite match_here_sentence_end. cbn [run]. now rewrite H. Qed.

Lemma match_here_end (prev : option N) (c : N) (rest : jsstring) :
  ends_sentence c = true -> match_here sentence_end prev (c :: rest) = Some (S (run rest)).
Proof. intro H. rewrite match_here_sentence_end. cbn [run]. now rewrite H. Qed.

(** Every piece that [split] cuts at sentence ends is free of them. *)
Lemma scan_split_free (rest : jsstring) :
  forall prev skip piece,
    free piece -> Forall free (scan_split sentence_end prev rest skip piece).
Proof.
  induction rest as [|c rest IH]; intros prev skip piece Hp.
  - assert (free (rev piece)) by (apply Forall_rev; exact Hp).
    destruct skip; cbn [scan_split]; auto.
  - assert (Hr : free (rev piece)) by (apply Forall_rev; exact Hp).
    destruct skip as [|n]; cbn [scan_split]; [|now apply IH].
    destruct (ends_sentence c) eqn:E.
    + rewrite (match_here_end _ _ _ E). constructor; [exact Hr|].
      apply IH. constructor.
    + rewrite (match_here_free _ _ _ E). apply IH. now constructor.
Qed.

Lemma split_free (text : jsstring) : Forall free (split sentence_end text).
Proof.
  destruct text as [|c text].
  - cbn. repeat constructor.
  - apply scan_split_free. constructor.
Qed.

Lemma trimStart_incl (x : jsstring) (c : N) : In c (trimStart x) -> In c x.
Proof.
  induction x as [|d x IH]; cbn [trimStart]; auto.
  destruct (is_space d); auto. intro H; right; auto.
Qed.

Lemma trim_incl (x : jsstring) (c : N) : In c (trim x) -> In c x.
Proof.
  unfold trim, trimEnd. intro H. apply in_rev in H. apply trimStart_incl in H.
  apply in_rev in H. now apply trimStart_incl.
Qed.

Lemma trim_free (x : jsstring) : free x -> free (trim x).
Proof.
  unfold free. rewrite !Forall_forall. intros H c Hc. apply H. now apply trim_incl.
Qed.

Lemma trimStart_idem (x : jsstring) : trimStart (trimStart x) = trimStart x.
Proof.
  induction x as [|c x IH]; cbn [trimStart]; auto.
  destruct (is_space c) eqn:E; auto. cbn [trimStart]. now rewrite E.
Qed.

Lemma trimStart_app (l : jsstring) (c : N) (m : jsstring) :
  is_space c = false -> trimStart (l ++ c :: m) = trimStart l ++ c :: m.
Proof.
  intro H. induction l as [|d l IH]; cbn [trimStart app].
  - now rewrite H.
  - destruct (is_space d); auto.
Qed.

Lemma trimEnd_cons (c : N) (y : jsstring) :
  is_space c = false -> trimEnd (c :: y) = c :: trimEnd y.
Proof.
  intro H. unfold trimEnd. cbn [rev]. rewrite (trimStart_app _ _ _ H).
  now rewrite rev_app_distr.
Qed.

Lemma trimEnd_idem (y : jsstring) : trimEnd (trimEnd y) = trimEnd y.
Proof. unfold trimEnd. now rewrite rev_involutive, trimStart_idem. Qed.

Lemma trim_idem (x : jsstring) : trim (trim x) = trim x.
Proof.
  unfold trim. destruct (trimStart x) as [|c y] eqn:E; [reflexivity|].
  assert (Hc : is_space c = false).
  { clear -E. induction x as [|d x IH]; cbn [trimStart] in E; [discriminate|].
    destruct (is_space d) eqn:Ed; auto. now inversion E; subst. }
  rewrite (trimEnd_cons _ _ Hc). cbn [trimStart]. rewrite Hc.
  now rewrite (trimEnd_cons _ _ Hc), trimEnd_idem.
Qed.

Lemma trim_after_space (u : jsstring) : trim u = u -> trim (32%N :: u) = u.
Proof. intro H. unfold trim in *. cbn [trimStart]. exact H. Qed.

(** [dedupe] keeps a sentence list without duplicates as it is. *)
Lemma seen_spec (x : jsstring) (seen : list jsstring) :
  existsb (str_eqb x) seen = true <-> In x seen.
Proof.
  rewrite existsb_exists. split.
  - intros (y & Hy & E). apply str_eqb_eq in E. now subst.
  - intro H. exists x. split; [assumption | apply str_eqb_refl].
Qed.

Lemma dedupe_spec (l : list jsstring) :
  forall seen removed unique removed',
    dedupe l seen removed = (unique, removed') ->
    NoDup (map toLowerCase unique)
    /\ (forall x, In x unique -> In x l /\ ~ In (toLowerCase x) seen)
    /\ removed <= removed'
    /\ (removed' = removed -> unique = l).
Proof.
  induction l as [|x l IH]; intros seen removed unique removed' H; cbn [dedupe] in H.
  - inversion H; subst. repeat split; try constructor; try lia; contradiction.
  - destruct (existsb (str_eqb (toLowerCase x)) seen) eqn:E.
    + destruct (IH _ _ _ _ H) as (N1 & I1 & L1 & _).
      split; [exact N1|]. split; [|split; [lia|lia]].
      intros y Hy. destruct (I1 y Hy). split; [now right | assumption].
    + destruct (dedupe l (seen ++ [toLowerCase x]) removed) as [u r] eqn:D.
      inversion H; subst; clear H.
      destruct (IH _ _ _ _ D) as (N1 & I1 & L1 & U1).
      assert (Hx : ~ In (toLowerCase x) seen).
      { intro Hin. apply seen_spec in Hin. congruence. }
      split; [|split; [|split]].
      * cbn [map]. constructor; [|exact N1].
        intro Hin. apply in_map_iff in Hin as (y & Ey & Hy).
        destruct (I1 y Hy) as [_ Hn]. apply Hn. rewrite Ey. apply in_or_app. right. now left.
      * intros y [<-|Hy]; [split; [now left | exact Hx]|].
        destruct (I1 y Hy) as [Hl Hn]. split; [now right|].
        intro Hin. apply Hn. apply in_or_app. now left.
      * exact L1.
      * intro Er. now rewrite (U1 Er).
Qed.

Lemma dedupe_nodup (l : list jsstring) :
  forall seen removed,
    NoDup (map toLowerCase l) ->
    (forall x, In x l -> ~ In (toLowerCase x) seen) ->
    dedupe l seen removed = (l, removed).
Proof.
  induction l as [|x l IH]; intros seen removed Hn Hs; cbn [dedupe]; [reflexivity|].
  destruct (existsb (str_eqb (toLowerCase x)) seen) eqn:E.
  - apply seen_spec in E. elim (Hs x (or_introl eq_refl) E).
  - cbn [map] in Hn. inversion Hn as [|? ? Hx Hn']; subst.
    rewrite IH; auto.
    intros y Hy Hin. apply in_app_or in Hin as [Hin|[Hin|[]]].
    + exact (Hs y (or_intror Hy) Hin).
    + apply Hx. rewrite Hin. now apply in_map.
Qed.

Lemma join_rest_of (u : jsstring) (us : list jsstring) :
  join (str ". ") (u :: us) ++ str "." = u ++ rest_of us.
Proof.
  revert u; induction us as [|v us IH]; intro u; [reflexivity|].
  change (join (str ". ") (u :: v :: us)) with (u ++ str ". " ++ join (str ". ") (v :: us)).
  rewrite <- !app_assoc, IH. reflexivity.
Qed.

(** [split] cuts [u1 + '. ' + u2 + ... + '.'] back into its sentences, each
    but the first with the blank of the separator, and an empty last piece. *)
Lemma scan_split_sentences (us : list jsstring) :
  Forall free us ->
  forall u prev piece,
    free u ->
    scan_split sentence_end prev (u ++ rest_of us) 0 piece = (rev piece ++ u) :: pieces_of us.
Proof.
  induction us as [|v vs IH]; intros Hus.
  - induction u as [|c u IHu]; intros prev piece Hu.
    + cbn [app rest_of]. change (str ".") with [46%N]. cbn [scan_split].
      rewrite (match_here_end _ 46%N [] eq_refl). cbn [run scan_split rev pieces_of app].
      now rewrite app_nil_r.
    + inversion Hu as [|? ? Hc Hu']; subst.
      cbn [app scan_split]. rewrite (match_here_free _ _ _ Hc).
      rewrite IHu by assumption. cbn [rev]. now rewrite <- app_assoc.
  - inversion Hus as [|? ? Hv Hvs]; subst. specialize (IH Hvs).
    induction u as [|c u IHu]; intros prev piece Hu.
    + cbn [app rest_of]. change (str ". " ++ v ++ rest_of vs)
        with (46%N :: 32%N :: v ++ rest_of vs).
      cbn [scan_split]. rewrite (match_here_end _ 46%N _ eq_refl).
      change (run (32%N :: v ++ rest_of vs)) with 0. cbn [scan_split].
      rewrite (match_here_free _ 32%N _ eq_refl).
      rewrite (IH v (Some 32%N) [32%N] Hv). cbn [rev app pieces_of].
      now rewrite app_nil_r.
    + inversion Hu as [|? ? Hc Hu']; subst.
      cbn [app scan_split]. rewrite (match_here_free _ _ _ Hc).
      rewrite IHu by assumption. cbn [rev]. now rewrite <- app_assoc.
Qed.

Lemma trimmed_pieces (us : list jsstring) :
  Forall (fun v => trim v = v /\ nonempty v = true) us ->
  filter nonempty (map trim (pieces_of us)) = us.
Proof.
  induction 1 as [|v vs [Hv Hn] _ IH]; [reflexivity|].
  cbn [pieces_of map filter]. rewrite (trim_after_space _ Hv), Hn. now rewrite IH.
Qed.

(** What [removeRedundancy] takes for the sentences of a text are non-empty,
    trimmed and free of sentence ends. *)
Lemma sentences_of_spec (text x : jsstring) :
  In x (sentences_of text) -> nonempty x = true /\ trim x = x /\ free x.
Proof.
  unfold sentences_of. intro H. apply filter_In in H as [H Hn].
  apply in_map_iff in H as (y & <- & Hy).
  split; [exact Hn|]. split; [apply trim_idem|].
  apply trim_free. pose proof (split_free text) as F.
  rewrite Forall_forall in F. now apply F.
Qed.

(** The round trip: joining sentences with ". " and a final "." and taking
    the sentences of the result gives the sentences back. *)
Lemma sentences_of_join (unique : list jsstring) :
  Forall (fun v => nonempty v = true /\ trim v = v /\ free v) unique ->
  sentences_of (join (str ". ") unique ++ str ".") = unique.
Proof.
  intro H. destruct unique as [|u us]; [reflexivity|].
  inversion H as [|? ? (Hn & Ht & Hf) Hus]; subst.
  rewrite join_rest_of. unfold sentences_of, split.
  assert (F : Forall free us) by (eapply Forall_impl; [|exact Hus]; now intros ? (_ & _ & ?)).
  assert (T : Forall (fun v => trim v = v /\ nonempty v = true) us)
    by (eapply Forall_impl; [|exact Hus]; now intros ? (? & ? & _)).
  destruct (u ++ rest_of us) as [|c rest] eqn:E.
  - destruct u; discriminate.
  - rewrite <- E, (scan_split_sentences us F u None [] Hf).
    cbn [rev app map filter]. rewrite Ht, Hn. now rewrite (trimmed_pieces _ T).
Qed.

Lemma record_inj (s : Store.t) (r1 r2 : list Technique.t) :
  ready s -> record s r1 = record s r2 -> r1 = r2.
Proof.
  intros [array H] E.
  pose proof (current_record s array r1 H) as C1. rewrite E in C1.
  rewrite (current_record s array r2 H) in C1. inversion C1 as [C].
  now apply app_inv_head in C.
Qed.

Lemma js_match_some (p : pattern) (text : jsstring) (ms : list jsstring) :
  js_match p text = Some ms -> (0 <? List.length ms) = true.
Proof.
  unfold js_match. destruct (scan_matches p None text 0); [discriminate|].
  intro H. injection H as <-. reflexivity.
Qed.

(** A text without two equal sentences and without filler words is returned
    as it is, with nothing recorded. *)
Lemma settled (out : jsstring) (s1 : Store.t) :
  no_duplicate_sentences out -> js_match fillers out = None ->
  removeRedundancy out s1 = Ok (out, s1).
Proof.
  intros N F. unfold removeRedundancy. fold (sentences_of out).
  rewrite (dedupe_nodup (sentences_of out) [] 0 N) by (intros; intro K; exact K).
  unfold M.bind at 1. cbn [Nat.ltb Nat.leb M.ret]. now rewrite F.
Qed.

(** The two steps of [removeRedundancy]: the sentences without repetitions,
    joined again when one was removed, and then the filler words stripped. *)
Lemma removeRedundancy_steps (text : jsstring) (s : Store.t) :
  ready s ->
  exists result recs,
    (sentences_of result = sentences_of text \/ exists unique removed,
        dedupe (sentences_of text) [] 0 = (unique, removed)
        /\ sentences_of result = unique)
    /\ NoDup (map toLowerCase (sentences_of result))
    /\ Forall (fun t => Technique.name t <> str "Filler Word Removal") recs
    /\ match js_match fillers result with
       | Some fillerMatches =>
           removeRedundancy text s
           = Ok (replace_all fillers (fun _ => []) result,
                 record s (recs ++ [technique (str "Filler Word Removal")
                                      (str "Removed " ++ show (List.length fillerMatches)
                                         ++ str " filler word(s)")
                                      (str "Signal density increased")]))
       | None => removeRedundancy text s = Ok (result, record s recs)
       end.
Proof.
  intro R.
  destruct (dedupe (sentences_of text) [] 0) as [unique removed] eqn:D.
  destruct (dedupe_spec _ _ _ _ _ D) as (N1 & I1 & _ & U1).
  destruct (0 <? removed) eqn:Er.
  - set (result := join (str ". ") unique ++ str ".").
    set (r1 := technique (str "Redundancy Removal")
                 (str "Removed " ++ show removed ++ str " repeated sentence(s)")
                 (str "Token efficiency improved")).
    assert (S1 : sentences_of result = unique).
    { apply sentences_of_join. apply Forall_forall. intros x Hx.
      apply (sentences_of_spec text). now apply I1. }
    exists result, [r1]. split; [right; now exists unique, removed|].
    split; [now rewrite S1|]. split; [repeat constructor; vm_compute; discriminate|].
    destruct (js_match fillers result) as [fm|] eqn:F;
      unfold removeRedundancy; fold (sentences_of text); rewrite D;
      unfold M.bind at 1; rewrite Er, (push_then_ret _ _ _ R); cbv beta iota;
      fold result; rewrite F.
    + rewrite (js_match_some _ _ _ F).
      rewrite (push_then_ret _ _ _ (ready_record _ _ R)). now rewrite (record_record _ _ _ R).
    + reflexivity.
  - assert (removed = 0) by (apply Nat.ltb_ge in Er; lia). subst removed.
    specialize (U1 eq_refl). subst unique.
    exists text, []. split; [now left|]. split; [exact N1|]. split; [constructor|].
    destruct (js_match fillers text) as [fm|] eqn:F;
      unfold removeRedundancy; fold (sentences_of text); rewrite D;
      unfold M.bind at 1; change (0 <? 0) with false; cbv beta iota;
      unfold M.ret at 1; cbv beta iota; rewrite F.
    + rewrite (js_match_some _ _ _ F). rewrite (push_then_ret _ _ _ R). reflexivity.
    + unfold M.ret. now rewrite (record_nil _ R).
Qed.

(** C8, as amended.  The first pass of [removeRedundancy] leaves two equal
    sentences only where its second step, the stripping of the filler words,
    makes them equal: when it strips none, no two sentences of its output
    are equal case-insensitively after trimming.  And whenever no two
    sentences of the output are equal, with filler words stripped or not, a
    second pass returns the output unchanged and records nothing, so the
    number of sentences stays. *)
Theorem removeRedundancy_settles :
  forall (text : jsstring) (s : Store.t) (out : jsstring) (s1 : Store.t)
         (recs : list Technique.t),
    ready s ->
    removeRedundancy text s = Ok (out, s1) ->
    pushed (removeRedundancy text) s = Some recs ->
    (Forall (fun t => Technique.name t <> str "Filler Word Removal") recs ->
     no_duplicate_sentences out)
    /\ (no_duplicate_sentences out ->
        removeRedundancy out s1 = Ok (out, s1)
        /\ forall out2 s2,
             removeRedundancy out s1 = Ok (out2, s2) ->
             List.length (sentences_of out2) = List.length (sentences_of out)).
Proof.
  intros text s out s1 recs R H P.
  destruct (removeRedundancy_steps text s R) as (result & recs' & _ & N & Hr & E).
  assert (Second : no_duplicate_sentences out -> removeRedundancy out s1 = Ok (out, s1)).
  { intro Nd. apply settled; [exact Nd|].
    destruct (js_match fillers result) as [fm|] eqn:F.
    - rewrite H in E. injection E as -> _. apply fillers_gone.
    - rewrite H in E. injection E as -> _. exact F. }
  split.
  - intro Hrecs. destruct (js_match fillers result) as [fm|] eqn:F.
    + exfalso. rewrite (pushed_record _ s _ _ R E) in P. injection P as <-.
      apply Forall_app in Hrecs as [_ Hrecs]. apply Forall_inv in Hrecs. now apply Hrecs.
    + rewrite H in E. injection E as -> _. exact N.
  - intro Nd. split; [now apply Second|].
    intros out2 s2 E2. rewrite (Second Nd) in E2. now injection E2 as <- _.
Qed.

(** The theorem at a text with a repeated sentence and filler words. *)
Lemma removeRedundancy_settles_witness :
  let s := Store.Make None None None None None (Some 0) [[]] in
  let out := str "Go fast. Stop." in
  exists s1,
    removeRedundancy (str "Go really fast. go REALLY fast! Stop. Go really fast?") s
    = Ok (out, s1)
    /\ no_duplicate_sentences out
    /\ removeRedundancy out s1 = Ok (out, s1).
Proof.
  cbv zeta.
  assert (R : ready (Store.Make None None None None None (Some 0) [[]]))
    by (exists []; reflexivity).
  eexists. split; [vm_compute; reflexivity|].
  assert (Nd : no_duplicate_sentences (str "Go fast. Stop.")).
  { unfold no_duplicate_sentences.
    change (NoDup [str "go fast"; str "stop"]).
    repeat constructor; cbn [In]; intuition discriminate. }
  split; [exact Nd|].
  refine (proj1 (proj2 (removeRedundancy_settles
                          (str "Go really fast. go REALLY fast! Stop. Go really fast?")
                          _ _ _ _ R _ _) Nd)).
  - vm_compute; reflexivity.
  - vm_compute; reflexivity.
Defined.

(** C8, as stated, fails: the filler words are stripped after the repeated
    sentences were removed, and stripping them can make two sentences equal.
    From "Go very fast. Go fast." the first pass returns "Go fast. Go fast.",
    and a second pass brings its two sentences down to one. *)
Lemma second_pass_shrinks :
  let s := Store.Make None None None None None (Some 0) [[]] in
  (exists s1 s2,
      removeRedundancy (str "Go very fast. Go fast.") s = Ok (str "Go fast. Go fast.", s1)
      /\ sentences_of (str "Go fast. Go fast.") = [str "Go fast"; str "Go fast"]
      /\ removeRedundancy (str "Go fast. Go fast.") s1 = Ok (str "Go fast.", s2)
      /\ sentences_of (str "Go fast.") = [str "Go fast"])
  /\ ~ one_pass_settles.
Proof.
  cbv zeta. split.
  - do 2 eexists. split; [vm_compute; reflexivity|]. split; [vm_compute; reflexivity|].
    split; vm_compute; reflexivity.
  - intro H.
    assert (R : ready (Store.Make None None None None None (Some 0) [[]]))
      by (exists []; reflexivity).
    let o := eval vm_compute in
      (removeRedundancy (str "Go very fast. Go fast.")
         (Store.Make None None None None None (Some 0) [[]])) in
    match o with
    | Ok (?out, ?s1) =>
        destruct (H (str "Go very fast. Go fast.") _ out s1 R) as [Hn _];
        [vm_compute; reflexivity|]
    end.
    unfold no_duplicate_sentences in Hn. vm_compute in Hn.
    inversion Hn as [|? ? Hin _]. apply Hin. now left.
Qed.

End Sentences.

(* ================================================================== *)
(** * The follow-up questions *)
(* ================================================================== *)

Section FollowUp.

Import PromptAnalyzer.

Ltac by_keywords :=
  repeat match goal with
         | |- context [includes ?a ?b] => destruct (includes a b); cbn [orb existsb]
         end.

(** X1. [getFollowUpQuestions] returns three questions when the text mentions a
    known type of task; otherwise two when the report has no task component
    and one when it has.  The questions of one answer have different ids. *)
Theorem followup_count :
  forall (text : jsstring) (analysis : Report.t),
    let questions := getFollowUpQuestions text analysis in
    List.length questions
    = (if mentions text task_type_keywords then 3
       else if lacks Flags.task (Report.components analysis) then 2 else 1)
    /\ NoDup (ids questions).
Proof.
  intros text analysis. unfold getFollowUpQuestions, mentions, task_type_keywords.
  cbn [existsb]. set (lower := toLowerCase text).
  destruct (lacks Flags.task (Report.components analysis)); by_keywords;
    (split; [reflexivity|]);
    repeat constructor; cbn; intuition discriminate.
Qed.

(** X2. The question about what to avoid, which the source means to ask always,
    is asked unless the text mentions a known type of task while the report
    has no task component: the two questions of the type and the one about
    the goal then fill the three places. *)
Theorem followup_avoid :
  forall (text : jsstring) (analysis : Report.t),
    In (str "avoid") (ids (getFollowUpQuestions text analysis))
    <-> mentions text task_type_keywords
        && lacks Flags.task (Report.components analysis) = false.
Proof.
  intros text analysis. unfold getFollowUpQuestions, mentions, task_type_keywords.
  cbn [existsb]. set (lower := toLowerCase text).
  destruct (lacks Flags.task (Report.components analysis)); by_keywords;
    cbn; split; intro H; try reflexivity; try discriminate; intuition discriminate.
Qed.

End FollowUp.

(* ================================================================== *)
(** * The reports of the analyzer *)
(* ================================================================== *)

Section Reports.

Import PromptAnalyzer.

Lemma trimStart_blank (x : jsstring) : trimStart x = [] <-> blank x = true.
Proof.
  unfold blank. induction x as [|c x IH]; cbn [trimStart forallb]; [tauto|].
  destruct (is_space c); cbn [andb]; [exact IH|]. split; discriminate.
Qed.

Lemma trimStart_settled (x : jsstring) : blank (trimStart x) = true -> trimStart x = [].
Proof.
  unfold blank. induction x as [|c x IH]; cbn [trimStart]; [reflexivity|].
  destruct (is_space c) eqn:E; [exact IH|]. cbn [forallb]. now rewrite E.
Qed.

Lemma blank_rev (x : jsstring) : blank (rev x) = blank x.
Proof.
  unfold blank. apply eq_true_iff_eq. rewrite !forallb_forall.
  split; intros H c Hc; apply H; [now apply in_rev in Hc | now apply in_rev].
Qed.

Lemma trim_blank (x : jsstring) : trim x = [] <-> blank x = true.
Proof.
  unfold trim, trimEnd. split.
  - intro H. apply (f_equal (@rev N)) in H. rewrite rev_involutive in H. cbn [rev] in H.
    apply trimStart_blank in H. rewrite blank_rev in H.
    apply trimStart_settled in H. now apply trimStart_blank.
  - intro H. apply trimStart_blank in H. now rewrite H.
Qed.

(** X3. [analyze] answers with the empty report exactly for the blank texts,
    whatever the model key: no analyzer is looked up for a blank text, and
    the report of any other text differs from the empty one. *)
Theorem analyze_blank_iff :
  forall (text model : jsstring),
    analyze text model = Ok getEmptyAnalysis <-> blank text = true.
Proof.
  intros text model. unfold analyze. split.
  - intro H. destruct (blank text) eqn:B; [reflexivity|]. exfalso.
    assert (T : trim text <> []) by (rewrite trim_blank; congruence).
    destruct text as [|c text]; [discriminate B|]. cbn [nonempty negb orb] in H.
    destruct (trim (c :: text)) as [|d tr]; [now elim T|].
    cbn [List.length Nat.eqb] in H.
    destruct (analyzeModelFit (c :: text) model); try discriminate;
      (destruct (calculateOverallScore (c :: text) model); cbn [bind] in H; discriminate).
  - intro B. apply trim_blank in B. rewrite B. cbn [List.length Nat.eqb].
    now rewrite orb_true_r.
Qed.

Lemma missing_fold (l : list (string * bool)) :
  forall acc,
    fold_left
      (fun missing '(key, value) =>
         match value, find_own names (str key) with
         | false, Some name => missing ++ [str name]
         | _, _ => missing
         end) l acc
    = acc ++ flat_map label_if_missing l.
Proof.
  induction l as [|[key value] l IH]; intro acc; cbn [fold_left flat_map].
  - now rewrite app_nil_r.
  - rewrite IH. unfold label_if_missing at 2. cbn [fst snd].
    destruct value, (find_own names (str key)); rewrite <- ?app_assoc; reflexivity.
Qed.

Lemma missing_difference (present : nat) :
  present <= 10 -> (10 - num present)%float = num (10 - present).
Proof.
  intro H. do 11 (destruct present as [|present]; [vm_compute; reflexivity|]). lia.
Qed.

Lemma missing_and_present (l : list (string * bool)) :
  Forall (fun entry => find_own names (str (fst entry)) <> None) l ->
  List.length (filter (fun v : bool => v) (map snd l))
  + List.length (flat_map label_if_missing l) = List.length l.
Proof.
  induction 1 as [|[key value] l H _ IH]; [reflexivity|].
  cbn [map snd filter flat_map List.length]. rewrite length_app.
  unfold label_if_missing at 1. cbn [fst snd] in *.
  destruct value, (find_own names (str key)); cbn [List.length]; try lia. now elim H.
Qed.

Lemma for_both_spec (f : bool -> bool) : for_both f = true -> forall b, f b = true.
Proof. unfold for_both. intros [H1 H2]%andb_prop []; assumption. Qed.

Lemma missing_by_flags (fl : Flags.t) :
  (10 - num (List.length (filter (fun v : bool => v) (map snd (entries fl)))))%float
  = num (List.length (listMissingComponents fl))
  /\ forallb (fun '(flag, label) =>
                Bool.eqb (existsb (str_eqb (str label)) (listMissingComponents fl))
                  (negb (flag fl)))
       component_labels = true.
Proof.
  split.
  - unfold listMissingComponents. rewrite missing_fold. cbn [app].
    assert (H : Forall (fun entry => find_own names (str (fst entry)) <> None) (entries fl))
      by (repeat constructor; discriminate).
    apply missing_and_present in H. change (List.length (entries fl)) with 10 in H.
    rewrite missing_difference by lia. f_equal. lia.
  - destruct fl as [b1 b2 b3 b4 b5 b6 b7 b8 b9 b10].
    revert b10; apply for_both_spec. revert b9; apply for_both_spec.
    revert b8; apply for_both_spec. revert b7; apply for_both_spec.
    revert b6; apply for_both_spec. revert b5; apply for_both_spec.
    revert b4; apply for_both_spec. revert b3; apply for_both_spec.
    revert b2; apply for_both_spec. revert b1; apply for_both_spec.
    vm_compute. reflexivity.
Qed.

(** X4. The list [missing] of [analyzeComponents] names exactly the components
    whose flag is false, so it has [missingCount] entries. *)
Theorem missing_names_the_absent_components :
  forall (text : jsstring),
    let c := analyzeComponents text in
    exists fl,
      Components.flags c = Some fl
      /\ Components.missingCount c = num (List.length (Components.missing c))
      /\ Forall (fun '(flag, label) =>
                   In (str label) (Components.missing c) <-> flag fl = false)
           component_labels.
Proof.
  intro text. unfold analyzeComponents. cbv zeta.
  set (fl := Flags.Make _ _ _ _ _ _ _ _ _ _). exists fl.
  cbn [Components.flags Components.missingCount Components.missing].
  destruct (missing_by_flags fl) as [Hn Hl].
  split; [reflexivity|]. split; [exact Hn|].
  apply Forall_forall. intros [flag label] Hin.
  rewrite forallb_forall in Hl. specialize (Hl _ Hin). cbv beta iota in Hl.
  apply Bool.eqb_prop in Hl. rewrite <- seen_spec, Hl.
  destruct (flag fl); cbn [negb]; split; congruence.
Qed.

(** X5. The compatibility of every model analysis is 100 less 15 for each issue
    it lists, and there are at most three issues: the compatibility is one
    of 100, 85, 70 and 55 and never reaches the floor of zero. *)
Theorem model_fit_compatibility :
  forall (text : jsstring),
    Forall (fun analyzer : jsstring -> ModelFit.t =>
              let n := List.length (ModelFit.issues (analyzer text)) in
              n <= 3 /\ ModelFit.compatibility (analyzer text) = num (100 - 15 * n))
      (map snd modelAnalyzers).
Proof.
  intro text. cbn [map snd modelAnalyzers].
  repeat apply Forall_cons; try apply Forall_nil;
    unfold analyzeClaudeFit, analyzeGPTFit, analyzeGeminiFit, fit; cbv zeta;
    repeat match goal with |- context [push_if ?c _ _] => destruct c; cbn [push_if app] end;
    cbn [ModelFit.issues ModelFit.compatibility List.length];
    (split; [lia | vm_compute; reflexivity]).
Qed.

End Reports.

(* ================================================================== *)
(** * The redundancy score *)
(* ================================================================== *)

Section Redundancy.

Import PromptAnalyzer.

Lemma phrase_loop_absorbs (words : list jsstring) :
  forall todo i st,
    phrase_loop words i todo st
    = fold_left absorb
        (map (fun i => join (str " ") (firstn 3 (skipn i words))) (seq i todo)) st.
Proof.
  induction todo as [|todo IH]; intros i [phrases n]; [reflexivity|].
  cbn [phrase_loop seq map fold_left]. now rewrite IH.
Qed.

Lemma sentences_absorb (sentences : list jsstring) :
  forall st,
    fold_left
      (fun st sentence =>
         let words := split whitespace (toLowerCase (trim sentence)) in
         phrase_loop words 0 (List.length words - 2) st)
      sentences st
    = fold_left absorb
        (flat_map (fun sentence => windows (split whitespace (toLowerCase (trim sentence))))
           sentences) st.
Proof.
  induction sentences as [|x l IH]; intro st; [reflexivity|].
  cbn [fold_left flat_map]. rewrite fold_left_app, IH. cbv zeta.
  now rewrite phrase_loop_absorbs.
Qed.

(** The loop keeps every window once, in [phrases], and counts the others. *)
Lemma absorb_keeps_one_of_each (l : list jsstring) :
  forall phrases n phrases' n',
    NoDup phrases ->
    fold_left absorb l (phrases, n) = (phrases', n') ->
    NoDup phrases'
    /\ (forall x, In x phrases' <-> In x phrases \/ In x l)
    /\ n' + List.length phrases' = n + List.length phrases + List.length l.
Proof.
  induction l as [|w l IH]; intros phrases n phrases' n' Hn H; cbn [fold_left] in H.
  - inversion H; subst. split; [assumption|]. split; [|cbn; lia].
    intro x; cbn; tauto.
  - unfold absorb at 2 in H. destruct (existsb (str_eqb w) phrases) eqn:E.
    + destruct (IH _ _ _ _ Hn H) as (N1 & I1 & L1).
      apply seen_spec in E. split; [assumption|]. split; [|cbn [List.length]; lia].
      intro x. rewrite I1. cbn [In]. intuition (subst; auto).
    + assert (Hw : ~ In w phrases) by (rewrite <- seen_spec; congruence).
      assert (Hn' : NoDup (phrases ++ [w])).
      { apply NoDup_app; [assumption | repeat constructor; auto |].
        intros x Hx [<-|[]]. contradiction. }
      destruct (IH _ _ _ _ Hn' H) as (N1 & I1 & L1).
      split; [assumption|]. split.
      * intro x. rewrite I1, in_app_iff. cbn [In]. tauto.
      * rewrite length_app in L1. cbn [List.length] in *. lia.
Qed.

Lemma distinct_spec (l phrases : list jsstring) :
  NoDup phrases -> (forall x, In x phrases <-> In x l) ->
  List.length phrases = distinct l.
Proof.
  intros Hn Hi. unfold distinct. apply Nat.le_antisymm; apply NoDup_incl_length.
  - assumption.
  - intros x Hx. apply nodup_In. now apply Hi.
  - apply NoDup_nodup.
  - intros x Hx. apply nodup_In in Hx. now apply Hi.
Qed.

(** X6. The redundancy score is the number of three-word windows of the text's
    sentences that repeat an earlier window, compared in lower case and
    across sentences: the number of windows less the number of different
    ones.  A sentence of fewer than three words has no window.  The level is
    high above 3, medium above 1 and low otherwise. *)
Theorem redundancy_counts_repeated_windows :
  forall (text : jsstring),
    let n := List.length (windows_of text) - distinct (windows_of text) in
    detectRedundancy text
    = Redundancy.Make (num n)
        (if 3 <? n then str "high" else if 1 <? n then str "medium" else str "low").
Proof.
  intro text. unfold detectRedundancy. cbv zeta. rewrite sentences_absorb.
  fold (windows_of text).
  destruct (fold_left absorb (windows_of text) ([], 0)) as [phrases n] eqn:E.
  destruct (absorb_keeps_one_of_each _ _ _ _ _ (NoDup_nil _) E) as (N1 & I1 & L1).
  assert (D : List.length phrases = distinct (windows_of text)).
  { apply distinct_spec; [assumption|]. intro x. rewrite I1. cbn [In]. tauto. }
  cbn [List.length] in L1.
  replace (List.length (windows_of text) - distinct (windows_of text)) with n by lia.
  reflexivity.
Qed.

End Redundancy.

(* ================================================================== *)
(** * The technique log of a call *)
(* ================================================================== *)

Section Techniques.

Import PromptOptimizer.

Lemma part_of_nil {A : Type} (l : list A) : part_of [] l.
Proof. induction l; constructor; assumption. Qed.

Lemma part_of_refl {A : Type} (l : list A) : part_of l l.
Proof. induction l; constructor; assumption. Qed.

Lemma part_of_app {A : Type} (a b a' b' : list A) :
  part_of a a' -> part_of b b' -> part_of (a ++ b) (a' ++ b').
Proof.
  intros Ha Hb. induction Ha; cbn [app]; [assumption | now constructor | now constructor].
Qed.

Lemma part_of_length {A : Type} (a b : list A) : part_of a b -> List.length a <= List.length b.
Proof. induction 1; cbn [List.length]; lia. Qed.

Lemma record_fields (s : Store.t) (recs : list Technique.t) :
  Store.analysis (record s recs) = Store.analysis s
  /\ Store.options (record s recs) = Store.options s
  /\ Store.model (record s recs) = Store.model s.
Proof.
  unfold record. destruct (Store.techniques s) as [ref|]; auto.
  destruct (nth_error (Store.heap s) ref); auto.
Qed.

Lemma prepared_record (model : jsstring) (s : Store.t) (recs : list Technique.t) :
  prepared model s -> prepared model (record s recs).
Proof.
  intros (R & A & O & M). unfold prepared.
  destruct (record_fields s recs) as (-> & -> & ->).
  repeat split; auto. now apply ready_record.
Qed.

Lemma chain_app (fs gs : list (jsstring -> M.t jsstring)) :
  forall text s, chain (fs ++ gs) text s = M.bind (chain fs text) (chain gs) s.
Proof.
  induction fs as [|f fs IH]; intros text s; [reflexivity|].
  cbn [app chain]. unfold M.bind at 1 2 3.
  destruct (f text s) as [[a s']| |]; [apply IH | reflexivity | reflexivity].
Qed.

Lemma logs_then (model : jsstring) (a b : list jsstring) (q r : jsstring -> jsstring)
  (f g : jsstring -> M.t jsstring) :
  logs model a q f -> logs model b r g ->
  logs model (a ++ b) (fun t => r (q t)) (fun t => M.bind (f t) g).
Proof.
  intros Hf Hg text s P.
  destruct (Hf text s P) as (o1 & r1 & E1 & P1 & Q1).
  destruct (Hg o1 _ (prepared_record _ _ r1 P)) as (o2 & r2 & E2 & P2 & Q2).
  exists o2, (r1 ++ r2). unfold M.bind. rewrite E1, E2.
  rewrite record_record by apply P. split; [reflexivity|]. split.
  - unfold technique_names. rewrite map_app. now apply part_of_app.
  - intro E. apply app_eq_nil in E as [-> ->]. now rewrite Q2, Q1.
Qed.

Lemma logs_nothing (model : jsstring) (allowed : list jsstring) :
  logs model allowed (fun t => t) (chain []).
Proof.
  intros text s P. exists text, []. rewrite record_nil by apply P.
  split; [reflexivity|]. split; [apply part_of_nil | reflexivity].
Qed.

Lemma logs_ext (model : jsstring) (a : list jsstring) (q : jsstring -> jsstring)
  (f g : jsstring -> M.t jsstring) :
  (forall text s, f text s = g text s) -> logs model a q f -> logs model a q g.
Proof. intros E H text s P. rewrite <- E. now apply H. Qed.

Lemma logs_group (model : jsstring) (b : bool) (a : list jsstring) (q : jsstring -> jsstring)
  (fs : list (jsstring -> M.t jsstring)) :
  logs model a q (chain fs) ->
  logs model a (if b then q else fun t => t) (chain (if b then fs else [])).
Proof. destruct b; [auto | intros _; apply logs_nothing]. Qed.

Lemma logs_append (model : jsstring) (a b : list jsstring) (q r : jsstring -> jsstring)
  (fs gs : list (jsstring -> M.t jsstring)) :
  logs model a q (chain fs) -> logs model b r (chain gs) ->
  logs model (a ++ b) (fun t => r (q t)) (chain (fs ++ gs)).
Proof.
  intros Hf Hg. eapply logs_ext; [|apply (logs_then _ _ _ _ _ _ _ Hf Hg)].
  intros text s. now rewrite chain_app.
Qed.

Lemma logs_cons (model : jsstring) (a b : list jsstring) (q r : jsstring -> jsstring)
  (f : jsstring -> M.t jsstring) (fs : list (jsstring -> M.t jsstring)) :
  logs model a q f -> logs model b r (chain fs) ->
  logs model (a ++ b) (fun t => r (q t)) (chain (f :: fs)).
Proof. intros Hf Hg. exact (logs_then _ _ _ _ _ _ _ Hf Hg). Qed.

Ltac part :=
  solve [ apply part_nil | apply part_take; part | apply part_skip; part ].

Ltac logged recs :=
  do 2 eexists; split; [reflexivity|]; split;
  [cbn [technique_names map Technique.name technique]; part | try discriminate; auto].

Lemma removeRedundancy_logs (model : jsstring) :
  logs model (map str ["Redundancy Removal"; "Filler Word Removal"]) (fun t => t)
    removeRedundancy.
Proof.
  intros text s (R & _). unfold removeRedundancy.
  destruct (dedupe _ [] 0) as [unique removed]. unfold M.bind at 1.
  destruct (0 <? removed).
  - rewrite (push_then_ret _ _ _ R).
    destruct (js_match fillers _) as [fm|]; [destruct (0 <? List.length fm)|].
    + rewrite (push_then_ret _ _ _ (ready_record _ _ R)), (record_record _ _ _ R).
      logged tt.
    + logged tt.
    + logged tt.
  - cbn [M.ret].
    destruct (js_match fillers text) as [fm|]; [destruct (0 <? List.length fm)|].
    + rewrite (push_then_ret _ _ _ R). logged tt.
    + exists text, []. rewrite (record_nil _ R). repeat split. apply part_of_nil.
    + exists text, []. rewrite (record_nil _ R). repeat split. apply part_of_nil.
Qed.

Lemma improveClarity_logs (model : jsstring) : logs model [] clarified improveClarity.
Proof.
  intros text s (R & _). exists (clarified text), []. rewrite (record_nil _ R).
  repeat split. constructor.
Qed.

Ltac run_stage R :=
  repeat first
    [ progress cbv beta iota zeta
        delta [M.bind M.read M.ret M.when record_applied List.length app Nat.ltb Nat.leb]
    | match goal with
      | H : ?f ?s = Some _ |- context [?f ?s] => rewrite H
      | |- context [if ?c then _ else _] =>
          lazymatch c with
          | context [Options.concise] => fail
          | context [Options.noPreamble] => fail
          | _ => destruct c
          end
      | |- context [indexOf ?a ?b] => destruct (indexOf a b)
      end ].

Ltac stage_logged R :=
  first
    [ rewrite (push_record _ _ R);
      do 2 eexists; split; [reflexivity|]; split;
      [cbn [technique_names map Technique.name technique]; part | intro; discriminate]
    | eexists; exists []; split; [rewrite (record_nil _ R); reflexivity|];
      split; [apply part_of_nil | reflexivity] ].

Lemma addFrameworkStructure_logs (model : jsstring) :
  logs model [str "Framework Structure"] (fun t => t) addFrameworkStructure.
Proof.
  intros text s (R & [a Ha] & [o Ho] & _). unfold addFrameworkStructure.
  run_stage R; stage_logged R.
Qed.

Lemma replace_first_bol (s text : jsstring) : replace_first (plain Bol) s text = s ++ text.
Proof.
  unfold replace_first. destruct text as [|c text]; cbn [scan_replace_first].
  - reflexivity.
  - unfold match_here. cbn [rmatch re flag_i plain]. now rewrite Nat.sub_diag.
Qed.

Lemma addFrameworkStructure_text (text : jsstring) (s : Store.t) (a : Report.t) (o : Options.t) :
  ready s -> Store.analysis s = Some a -> Store.options s = Some o ->
  exists recs, addFrameworkStructure text s = Ok (framework_text a o text, record s recs).
Proof.
  intros R Ha Ho. unfold addFrameworkStructure, framework_text.
  run_stage R.
  all: first [ rewrite (push_record _ _ R); eexists; reflexivity
            | exists []; rewrite (record_nil _ R); reflexivity ].
Qed.

Lemma if_app (b : bool) (x y : jsstring) :
  (if b then x ++ y else x) = x ++ (if b then y else []).
Proof. destruct b; [reflexivity | now rewrite app_nil_r]. Qed.

Lemma framework_text_shape (a : Report.t) (o : Options.t) (text : jsstring) :
  framework_text a o text
  = framework_head (Report.components a) text ++ text ++ framework_tail a o.
Proof.
  unfold framework_text, framework_head, framework_tail. cbv zeta.
  rewrite !replace_first_bol.
  destruct (lacks Flags.role (Report.components a)).
  - rewrite role_line_is_no_task_header. cbn [negb orb]. rewrite andb_true_r.
    destruct (lacks Flags.task (Report.components a));
      destruct (lacks Flags.outputFormat (Report.components a)),
        (lacks Flags.constraints (Report.components a)),
        (altitude_eqb (ContextEngineering.altitude (Report.contextEngineering a)) TooHigh);
      rewrite ?if_app, ?app_nil_r; repeat (progress (rewrite <- ?app_assoc; cbn [app]));
      reflexivity.
  - cbn [orb app].
    destruct (lacks Flags.task (Report.components a) && negb (startsWith text (str "[TASK]")));
      destruct (lacks Flags.outputFormat (Report.components a)),
        (lacks Flags.constraints (Report.components a)),
        (altitude_eqb (ContextEngineering.altitude (Report.contextEngineering a)) TooHigh);
      rewrite ?if_app, ?app_nil_r; repeat (progress (rewrite <- ?app_assoc; cbn [app]));
      reflexivity.
Qed.

Lemma correctAltitude_logs (model : jsstring) :
  logs model [str "Altitude Correction"] (fun t => t) correctAltitude.
Proof.
  intros text s (R & [a Ha] & _). unfold correctAltitude, raiseAltitude, lowerAltitude.
  run_stage R.
  destruct (ContextEngineering.altitude (Report.contextEngineering a)); run_stage R;
    stage_logged R.
Qed.

Lemma applyClaudeRules_logs (model : jsstring) :
  logs model [str "Claude 4.x Optimization"] (fun t => t) applyClaudeRules.
Proof.
  intros text s (R & _). unfold applyClaudeRules. run_stage R; stage_logged R.
Qed.

Lemma applyGPTRules_logs (model : jsstring) :
  logs model [str "GPT-5 Optimization"] (fun t => t) applyGPTRules.
Proof.
  intros text s (R & _). unfold applyGPTRules. run_stage R; stage_logged R.
Qed.

Lemma applyGeminiRules_logs (model : jsstring) :
  logs model [str "Gemini 3 Optimization"] (fun t => t) applyGeminiRules.
Proof.
  intros text s (R & _). unfold applyGeminiRules. run_stage R; stage_logged R.
Qed.

Lemma rules_keys (model : jsstring) :
  find_own modelRules model = None <-> find_own PromptAnalyzer.modelAnalyzers model = None.
Proof.
  unfold modelRules, PromptAnalyzer.modelAnalyzers. cbn [find_own].
  destruct (str_eqb (str "claude") model), (str_eqb (str "gpt") model),
    (str_eqb (str "gemini") model); split; congruence.
Qed.

Lemma applyModelSpecificRules_logs (model : jsstring) :
  plain_key model ->
  logs model [str (rule_set_name model)] (fun t => t) applyModelSpecificRules.
Proof.
  intros K text s P. pose proof P as (R & _ & _ & M).
  unfold applyModelSpecificRules. rewrite M.
  unfold plain_key in K. pose proof (rules_keys model) as Hk. revert K Hk.
  unfold get, rule_set_name, modelRules, PromptAnalyzer.modelAnalyzers. cbn [find_own].
  destruct (str_eqb (str "claude") model); [intros; now apply (applyClaudeRules_logs model)|].
  destruct (str_eqb (str "gpt") model); [intros; now apply (applyGPTRules_logs model)|].
  destruct (str_eqb (str "gemini") model); [intros; now apply (applyGeminiRules_logs model)|].
  intros K _.
  destruct (find (fun name => str_eqb (str name) model) object_prototype) as [name|].
  - now elim (K name).
  - now apply (applyClaudeRules_logs model).
Qed.

Lemma addExamples_logs (model : jsstring) :
  logs model [str "Examples Added"] (fun t => t) addExamples.
Proof.
  intros text s (R & [a Ha] & _). unfold addExamples. run_stage R; stage_logged R.
Qed.

Lemma addChainOfThought_logs (model : jsstring) :
  logs model [str "Chain-of-Thought Added"] (fun t => t) addChainOfThought.
Proof.
  intros text s (R & _). unfold addChainOfThought. run_stage R; stage_logged R.
Qed.

Lemma enhanceStructure_logs (model : jsstring) :
  logs model [str "XML Structure"] (fun t => t) enhanceStructure.
Proof.
  intros text s (R & _). unfold enhanceStructure.
  destruct (PromptAnalyzer.hasXMLStructure text); [run_stage R; stage_logged R|].
  cbv zeta.
  match goal with |- context [M.when (negb (str_eqb ?r text))] => set (result := r) end.
  clearbody result. destruct (str_eqb result text) eqn:E; cbn [negb].
  - apply str_eqb_eq in E. subst result. run_stage R; stage_logged R.
  - run_stage R; stage_logged R.
Qed.


Lemma logs_weaken (model : jsstring) (a a' : list jsstring) (q q' : jsstring -> jsstring)
  (f : jsstring -> M.t jsstring) :
  a = a' -> (forall t, q t = q' t) -> logs model a q f -> logs model a' q' f.
Proof.
  intros <- Hq H text s P. destruct (H text s P) as (out & recs & E & Hp & Hs).
  exists out, recs. rewrite <- Hq. auto.
Qed.

(** The stages of a level, as one stage. *)
Lemma stages_log (model level : jsstring) :
  plain_key model ->
  logs model (technique_order model)
    (if is_level level ["quick"; "standard"; "advanced"] then clarified else fun t => t)
    (chain (stages_of level)).
Proof.
  intro K. unfold stages_of.
  eapply logs_weaken;
    [| | apply logs_append;
         [ apply (logs_group model (is_level level ["quick"; "standard"; "advanced"]));
           apply logs_cons; [apply removeRedundancy_logs|];
           apply logs_cons; [apply improveClarity_logs | apply logs_nothing with (allowed := [])]
         | apply logs_append;
           [ apply (logs_group model (is_level level ["standard"; "advanced"]));
             apply logs_cons; [apply addFrameworkStructure_logs|];
             apply logs_cons; [apply correctAltitude_logs|];
             apply logs_cons; [now apply applyModelSpecificRules_logs
                              | apply logs_nothing with (allowed := [])]
           | apply (logs_group model (is_level level ["advanced"]));
             apply logs_cons; [apply addExamples_logs|];
             apply logs_cons; [apply addChainOfThought_logs|];
             apply logs_cons; [apply enhanceStructure_logs
                              | apply logs_nothing with (allowed := [])] ] ] ].
  - reflexivity.
  - intro t. cbv beta.
    destruct (is_level level ["quick"; "standard"; "advanced"]),
      (is_level level ["standard"; "advanced"]), (is_level level ["advanced"]); reflexivity.
Qed.

Lemma pipeline_chain (text model level : jsstring) (s : Store.t) :
  pipeline text model level s
  = M.bind (chain (stages_of level) text)
      (fun optimized =>
         M.bind (M.lift (PromptAnalyzer.analyze optimized model))
           (fun newAnalysis => M.ret (optimized, newAnalysis))) s.
Proof.
  unfold pipeline, stages_of.
  destruct (is_level level ["quick"; "standard"; "advanced"]),
    (is_level level ["standard"; "advanced"]), (is_level level ["advanced"]);
    cbn [app chain]; unfold M.bind, M.ret;
    repeat match goal with
           | |- context [match ?f ?t ?x with _ => _ end] =>
               lazymatch f with
               | PromptAnalyzer.analyze => fail
               | _ => destruct (f t x) as [[? ?]| |]
               end
           end; reflexivity.
Qed.

Lemma entered_prepared (text : jsstring) (analysis : Report.t) (model level : jsstring)
  (options : Options.t) (s : Store.t) :
  prepared model (entered text analysis model level options s).
Proof.
  split; [apply entered_ready|]. unfold entered; cbn. eauto.
Qed.

(** What a call of [optimize] returns for a model key that names no
    inherited property, with the records in its technique array. *)
Lemma optimize_logged (text : jsstring) (analysis : Report.t) (model level : jsstring)
  (options : Options.t) (s : Store.t) :
  plain_key model ->
  exists r s' recs,
    optimize text analysis model level options s = Ok (r, s')
    /\ nth (Result.techniques r) (Store.heap s') [] = recs
    /\ part_of (technique_names recs) (technique_order model)
    /\ (recs = [] ->
        Result.optimized r
        = if is_level level ["quick"; "standard"; "advanced"] then clarified text else text).
Proof.
  intro K. rewrite optimize_pipeline, pipeline_chain.
  set (s0 := entered text analysis model level options s).
  destruct (stages_log model level K text s0 (entered_prepared _ _ _ _ _ _))
    as (out & recs & E & Hp & Hs).
  destruct (analyze_returns out model K) as [newAnalysis Ea].
  unfold M.bind, M.lift, M.ret. rewrite E, Ea, record_techniques.
  cbn [s0 entered Store.techniques].
  do 2 eexists. exists recs. split; [reflexivity|].
  cbn [Result.techniques Result.optimized].
  split; [|split; [assumption|]; intro H0; rewrite (Hs H0);
           now destruct (is_level level ["quick"; "standard"; "advanced"])].
  apply deref_current.
  - now rewrite record_techniques.
  - apply (current_record s0 [] recs), entered_current.
Qed.

(** X7. Every call of [optimize] with a model key that names no inherited
    property returns, whatever the text, the report, the level and the
    options; the names of the techniques it lists are part of the eight names
    of the pipeline, in the order of the stages, so a technique is listed at
    most once and the rule set listed is the one of the model. *)
Theorem techniques_follow_the_pipeline :
  forall (text : jsstring) (analysis : Report.t) (model level : jsstring)
         (options : Options.t) (s : Store.t),
    plain_key model ->
    exists r s',
      optimize text analysis model level options s = Ok (r, s')
      /\ part_of (technique_names (nth (Result.techniques r) (Store.heap s') []))
           (technique_order model).
Proof.
  intros text analysis model level options s K.
  destruct (optimize_logged text analysis model level options s K)
    as (r & s' & recs & E & <- & Hp & _).
  now exists r, s'.
Qed.

(** The theorem for a prompt at level advanced. *)
Lemma techniques_follow_the_pipeline_witness :
  plain_key (str "gpt")
  /\ exists r s',
       optimize (str "Please write very good code. Please write very good code.")
         PromptAnalyzer.getEmptyAnalysis (str "gpt") (str "advanced") no_options Store.initial
       = Ok (r, s')
       /\ part_of (technique_names (nth (Result.techniques r) (Store.heap s') []))
            (technique_order (str "gpt")).
Proof.
  assert (K : plain_key (str "gpt")).
  { intro name. unfold get.
    change (find_own PromptAnalyzer.modelAnalyzers (str "gpt"))
      with (Some PromptAnalyzer.analyzeGPTFit).
    discriminate. }
  split; [exact K|].
  exact (techniques_follow_the_pipeline
           (str "Please write very good code. Please write very good code.")
           PromptAnalyzer.getEmptyAnalysis (str "gpt") (str "advanced") no_options
           Store.initial K).
Defined.


(** X8. Every change that [optimize] makes to the prompt is listed among the
    techniques, except the one of [improveClarity]: when the techniques list
    of a call is empty the optimized text is the prompt with the white space
    around each "and" replaced by single spaces at the three known levels,
    and the prompt itself at any other level. *)
Theorem unlisted_changes_are_spacing_only :
  forall (text : jsstring) (analysis : Report.t) (model level : jsstring)
         (options : Options.t) (s : Store.t) (r : Result.t) (s' : Store.t),
    plain_key model ->
    optimize text analysis model level options s = Ok (r, s') ->
    nth (Result.techniques r) (Store.heap s') [] = [] ->
    Result.optimized r
    = if is_level level ["quick"; "standard"; "advanced"] then clarified text else text.
Proof.
  intros text analysis model level options s r s' K E Hn.
  destruct (optimize_logged text analysis model level options s K)
    as (r' & s'' & recs & E' & Hr & _ & Hs).
  rewrite E in E'. inversion E'; subst r' s''. apply Hs. now rewrite <- Hr.
Qed.

(** The theorem for a prompt in which only the spacing changes. *)
Lemma unlisted_changes_are_spacing_only_witness :
  exists r s',
    optimize (str "Cats   and
dogs") PromptAnalyzer.getEmptyAnalysis (str "claude") (str "quick") no_options Store.initial
    = Ok (r, s')
    /\ Result.optimized r
       = (if is_level (str "quick") ["quick"; "standard"; "advanced"]
          then clarified (str "Cats   and
dogs") else str "Cats   and
dogs")
    /\ clarified (str "Cats   and
dogs") = str "Cats and dogs".
Proof.
  do 2 eexists. split; [vm_compute; reflexivity|]. split; [|vm_compute; reflexivity].
  refine (unlisted_changes_are_spacing_only
            (str "Cats   and
dogs") PromptAnalyzer.getEmptyAnalysis (str "claude") (str "quick") no_options
            Store.initial _ _ _ _ _).
  - intro name. unfold get.
    change (find_own PromptAnalyzer.modelAnalyzers (str "claude"))
      with (Some PromptAnalyzer.analyzeClaudeFit).
    discriminate.
  - vm_compute; reflexivity.
  - vm_compute; reflexivity.
Defined.


Lemma is_level_tail (level : jsstring) (name : string) (names : list string) :
  is_level level (name :: names) = false -> is_level level names = false.
Proof. unfold is_level. cbn [existsb]. now intros [_ H]%orb_false_iff. Qed.

(** X9. For a level other than "quick", "standard" and "advanced" in exactly
    this spelling, [optimize] runs no stage: it returns the prompt as it is,
    with an empty techniques list and the analysis of the prompt. *)
Theorem unknown_level_changes_nothing :
  forall (text : jsstring) (analysis : Report.t) (model level : jsstring)
         (options : Options.t) (s : Store.t),
    is_level level ["quick"; "standard"; "advanced"] = false ->
    observed (optimize text analysis model level options s)
    = match PromptAnalyzer.analyze text model with
      | Ok newAnalysis =>
          Ok (text, text, [], calculateImprovements analysis newAnalysis, newAnalysis)
      | TypeError => TypeError
      | Foreign => Foreign
      end.
Proof.
  intros text analysis model level options s H.
  pose proof (is_level_tail _ _ _ H) as H2. pose proof (is_level_tail _ _ _ H2) as H3.
  rewrite optimize_pipeline. unfold pipeline. rewrite H, H2, H3.
  unfold M.bind, M.ret, M.lift.
  destruct (PromptAnalyzer.analyze text model); try reflexivity.
  cbn [entered Store.techniques observed Result.original Result.optimized Result.techniques
       Result.improvements Result.newAnalysis Store.heap].
  rewrite app_nth2 by lia. now rewrite Nat.sub_diag.
Qed.

(** The theorem for a level spelled with a capital letter. *)
Lemma unknown_level_changes_nothing_witness :
  is_level (str "Standard") ["quick"; "standard"; "advanced"] = false
  /\ observed (optimize (str "Be very helpful. Be very helpful.")
                 PromptAnalyzer.getEmptyAnalysis (str "claude") (str "Standard") no_options
                 Store.initial)
     = match PromptAnalyzer.analyze (str "Be very helpful. Be very helpful.") (str "claude") with
       | Ok newAnalysis =>
           Ok (str "Be very helpful. Be very helpful.",
               str "Be very helpful. Be very helpful.", [],
               calculateImprovements PromptAnalyzer.getEmptyAnalysis newAnalysis, newAnalysis)
       | TypeError => TypeError
       | Foreign => Foreign
       end.
Proof.
  split; [reflexivity|].
  apply (unknown_level_changes_nothing (str "Be very helpful. Be very helpful.")
           PromptAnalyzer.getEmptyAnalysis (str "claude") (str "Standard") no_options
           Store.initial).
  reflexivity.
Defined.


End Techniques.

(* ================================================================== *)
(** * What the analyzer makes of the optimizer's additions *)
(* ================================================================== *)

Section Recognition.

Import PromptOptimizer.
Import PromptAnalyzer.

Lemma some_found (p : pattern) (patterns : list pattern) (text : jsstring) :
  In p patterns -> test p text = true -> some patterns text = true.
Proof. intros Hin H. unfold some. apply existsb_exists. eauto. Qed.

Lemma test_after (p : pattern) (x y : jsstring) :
  context_free (re p) = true -> test p y = true -> test p (x ++ y) = true.
Proof.
  intros F H. apply (test_within p x y [] F) in H. now rewrite app_nil_r in H.
Qed.

Lemma test_before (p : pattern) (a post : jsstring) :
  context_free (re p) = true -> test p a = true -> test p (a ++ post) = true.
Proof. intros F H. exact (test_within p [] a post F H). Qed.

Ltac find_piece :=
  rewrite <- ?app_assoc;
  repeat first
    [ lazymatch goal with
      | |- test _ (str _ ++ _) = true =>
          apply test_before; [reflexivity | vm_compute; reflexivity]
      end
    | apply test_after; [reflexivity|] ].

(** X11. The analyzer recognises what [addFrameworkStructure] adds for a role, an
    output format and constraints: for each of the three that the report
    lacks, the text the stage returns has it. *)
Theorem framework_sections_are_recognised :
  forall (text : jsstring) (s : Store.t) (a : Report.t) (o : Options.t)
         (out : jsstring) (s' : Store.t),
    ready s -> Store.analysis s = Some a -> Store.options s = Some o ->
    addFrameworkStructure text s = Ok (out, s') ->
    (lacks Flags.role (Report.components a) = true -> hasRole out = true)
    /\ (lacks Flags.outputFormat (Report.components a) = true -> hasOutputFormat out = true)
    /\ (lacks Flags.constraints (Report.components a) = true -> hasConstraints out = true).
Proof.
  intros text s a o out s' R Ha Ho H.
  destruct (addFrameworkStructure_text text s a o R Ha Ho) as [recs E].
  rewrite E in H. inversion H; subst out s'; clear H.
  rewrite framework_text_shape. unfold framework_head, framework_tail.
  split; [|split]; intro Hl; rewrite Hl.
  - apply some_found with (p := ci (L "[ROLE]")); [now left|].
    change (str "[ROLE]: ") with (str "[ROLE]" ++ str ": "). find_piece.
  - apply some_found with
      (p := ci (seqs [L "output"; between 0 20 Dot; words ["format"; "should be"; "must be"]]));
      [right; right; now left|].
    change (str "[OUTPUT FORMAT]: ") with (str "[" ++ str "OUTPUT FORMAT" ++ str "]: ").
    find_piece.
  - apply some_found with (p := ci (L "[CONSTRAINTS]")); [now left|].
    change (str "[CONSTRAINTS]:") with (str "[CONSTRAINTS]" ++ str ":"). find_piece.
Qed.

(** Patterns that are searched line by line. *)
Lemma some_in_lines (patterns : list pattern) (a b : jsstring) :
  forallb (fun p => context_free (re p) && line_bound (re p)) patterns = true ->
  some patterns (a ++ nl :: b) = some patterns a || some patterns b.
Proof.
  unfold some. induction patterns as [|p ps IH]; cbn [forallb existsb]; [reflexivity|].
  intros [[F Lb]%andb_prop H]%andb_prop. rewrite (IH H), (test_in_lines p a b F Lb).
  destruct (test p a), (test p b), (existsb (fun p => test p a) ps); reflexivity.
Qed.

Lemma hasChainOfThought_lines (a b : jsstring) :
  hasChainOfThought (a ++ nl :: b) = hasChainOfThought a || hasChainOfThought b.
Proof. unfold hasChainOfThought. now apply some_in_lines. Qed.

(** X12. The analyzer does not recognise the reasoning request that
    [addChainOfThought] and [applyGPTRules] append: the text either stage
    returns has a chain of thought exactly when the text it was given has
    one.  So a text without one still has none after either stage. *)
Theorem reasoning_request_is_not_recognised :
  forall (text : jsstring) (s : Store.t) (out : jsstring) (s' : Store.t),
    addChainOfThought text s = Ok (out, s') \/ applyGPTRules text s = Ok (out, s') ->
    hasChainOfThought out = hasChainOfThought text.
Proof.
  intros text s out s' [H|H].
  - unfold addChainOfThought in H.
    destruct (hasChainOfThought text) eqn:E; [inversion H; now subst|].
    destruct (isAnalyticalTask text || (300 <? List.length text)); [|inversion H; now subst].
    unfold M.bind in H. destruct (push _ s) as [[[] s1]| |]; try discriminate.
    inversion H; subst out s'. cbn [app].
    rewrite hasChainOfThought_lines, E. vm_compute. reflexivity.
  - unfold applyGPTRules in H. cbv zeta in H.
    destruct (hasChainOfThought text) eqn:E; cbn [negb] in H; cbv iota beta in H;
      unfold record_applied, M.bind, M.when in H; cbn [List.length app Nat.ltb Nat.leb] in H.
    + inversion H; now subst.
    + destruct (push _ s) as [[[] s1]| |]; try discriminate.
      inversion H; subst out s'. cbn [app].
      rewrite hasChainOfThought_lines, E. vm_compute. reflexivity.
Qed.

(** X10. [addFrameworkStructure] leaves the text it is given as it is: it puts a
    head before it and a tail after it.  The head is the role line when the
    report has no role, with "[TASK]: " before it when the report has no
    task: the task header comes before the role line, not before the task,
    and it is added even to a text that begins with "[TASK]" whenever the
    role line is added.  Without a role line the header is added unless the
    text begins with "[TASK]". *)
Theorem framework_keeps_the_text :
  forall (text : jsstring) (s : Store.t) (a : Report.t) (o : Options.t)
         (out : jsstring) (s' : Store.t),
    ready s -> Store.analysis s = Some a -> Store.options s = Some o ->
    addFrameworkStructure text s = Ok (out, s') ->
    out = framework_head (Report.components a) text ++ text ++ framework_tail a o.
Proof.
  intros text s a o out s' R Ha Ho H.
  destruct (addFrameworkStructure_text text s a o R Ha Ho) as [recs E].
  rewrite E in H. inversion H. apply framework_text_shape.
Qed.

(** The theorem for a text that begins with a task header of its own. *)
Lemma framework_keeps_the_text_witness :
  exists out s',
    addFrameworkStructure (str "[TASK] Sort the list") in_progress = Ok (out, s')
    /\ out = framework_head (Report.components getEmptyAnalysis) (str "[TASK] Sort the list")
               ++ str "[TASK] Sort the list" ++ framework_tail getEmptyAnalysis no_options
    /\ startsWith out (str "[TASK]: [ROLE]: You are an expert assistant") = true.
Proof.
  do 2 eexists. split; [vm_compute; reflexivity|]. split; [|vm_compute; reflexivity].
  eapply (framework_keeps_the_text (str "[TASK] Sort the list") in_progress).
  - exists []. reflexivity.
  - reflexivity.
  - reflexivity.
  - vm_compute. reflexivity.
Defined.

(** The theorem for a bare request. *)
Lemma framework_sections_are_recognised_witness :
  exists out s',
    addFrameworkStructure (str "sort the list") in_progress = Ok (out, s')
    /\ hasRole out = true /\ hasOutputFormat out = true /\ hasConstraints out = true.
Proof.
  do 2 eexists. split; [vm_compute; reflexivity|].
  refine (let H := framework_sections_are_recognised (str "sort the list") in_progress
                     getEmptyAnalysis no_options _ _ _ eq_refl eq_refl _ in
          conj (proj1 H eq_refl) (conj (proj1 (proj2 H) eq_refl) (proj2 (proj2 H) eq_refl))).
  - exists []. reflexivity.
  - vm_compute. reflexivity.
Defined.

(** The theorem for a request to which the rule of GPT adds its sentence. *)
Lemma reasoning_request_is_not_recognised_witness :
  exists out s',
    applyGPTRules (str "Sort the list") in_progress = Ok (out, s')
    /\ hasChainOfThought out = hasChainOfThought (str "Sort the list")
    /\ hasChainOfThought (str "Sort the list") = false
    /\ out <> str "Sort the list".
Proof.
  do 2 eexists. split; [vm_compute; reflexivity|].
  split; [|split; [vm_compute; reflexivity | vm_compute; discriminate]].
  eapply (reasoning_request_is_not_recognised (str "Sort the list") in_progress).
  right. vm_compute. reflexivity.
Defined.

(** X13. Applied to its own output, the rule set of Gemini changes nothing and
    records nothing, while the rule set of GPT, if it has changed the text,
    appends its sentence once more. *)
Theorem rules_on_their_own_output :
  (forall (text : jsstring) (s : Store.t) (out : jsstring) (s' : Store.t),
      ready s ->
      applyGeminiRules text s = Ok (out, s') ->
      applyGeminiRules out s' = Ok (out, s'))
  /\ (forall (text : jsstring) (s : Store.t) (out : jsstring) (s' : Store.t),
        ready s ->
        applyGPTRules text s = Ok (out, s') ->
        out <> text ->
        exists s'', applyGPTRules out s' = Ok (out ++ gpt_sentence, s'')).
Proof.
  split; intros text s out s' R H.
  - unfold applyGeminiRules in *. cbv zeta in *.
    destruct (negb (includes (toLowerCase text) (str "context")) && (List.length text <? 100))
      eqn:E; cbv iota beta in H;
      unfold record_applied, M.bind, M.when in H; cbn [List.length app Nat.ltb Nat.leb] in H.
    + rewrite (push_record _ _ R) in H. inversion H; subst out s'; clear H.
      match goal with
      | |- context [includes ?x ?y] =>
          replace (includes x y) with true by (symmetry; vm_compute; reflexivity)
      end.
      reflexivity.
    + inversion H; subst out s'; clear H. rewrite E. reflexivity.
  - intro Hne. unfold applyGPTRules in H. cbv zeta in H.
    destruct (hasChainOfThought text) eqn:E; cbn [negb] in H; cbv iota beta in H;
      unfold record_applied, M.bind, M.when in H; cbn [List.length app Nat.ltb Nat.leb] in H.
    + inversion H; subst. now elim Hne.
    + rewrite (push_record _ _ R) in H. inversion H; subst out s'; clear H.
      unfold applyGPTRules. cbv zeta. cbn [app].
      rewrite hasChainOfThought_lines, E.
      change (hasChainOfThought
                (nl :: str "Think through this step-by-step before providing your final answer."))
        with false.
      cbn [orb negb]. cbv iota beta.
      unfold record_applied, M.bind, M.when. cbn [List.length app Nat.ltb Nat.leb].
      rewrite (push_record _ _ (ready_record _ _ R)).
      eexists. unfold gpt_sentence. cbn [app]. reflexivity.
Qed.


(** Both parts of the theorem at a short request. *)
Lemma rules_on_their_own_output_witness :
  (exists out s',
      applyGeminiRules (str "Sort the list") in_progress = Ok (out, s')
      /\ out <> str "Sort the list"
      /\ applyGeminiRules out s' = Ok (out, s'))
  /\ (exists out s' s'',
        applyGPTRules (str "Sort the list") in_progress = Ok (out, s')
        /\ applyGPTRules out s' = Ok (out ++ gpt_sentence, s'')).
Proof.
  assert (R : ready in_progress) by (exists []; reflexivity).
  split.
  - do 2 eexists. split; [vm_compute; reflexivity|]. split; [vm_compute; discriminate|].
    refine (proj1 rules_on_their_own_output (str "Sort the list") in_progress _ _ R _).
    vm_compute. reflexivity.
  - assert (E : exists out s',
               applyGPTRules (str "Sort the list") in_progress = Ok (out, s')
               /\ out <> str "Sort the list")
      by (do 2 eexists; split; [vm_compute; reflexivity | vm_compute; discriminate]).
    destruct E as (out & s' & E & Hne).
    destruct (proj2 rules_on_their_own_output (str "Sort the list") in_progress out s' R E Hne)
      as [s'' E2].
    now exists out, s', s''.
Defined.

End Recognition.

(* ================================================================== *)
(** * The spacing around "and" *)
(* ================================================================== *)

Section Spacing.

Import PromptOptimizer.

Lemma clarity_match (prev : option N) (t rest : jsstring) :
  matches false (seqs [plus Space; L "and"; plus Space]) prev t rest ->
  exists w1 w2,
    t = w1 ++ str "and" ++ w2 /\ spaces w1 /\ spaces w2 /\ w1 <> [] /\ w2 <> [].
Proof.
  intros (w1 & t' & -> & M1 & (a & w2 & -> & Ma & M2)).
  apply lits_exact in Ma. subst a.
  apply (iter_of_class false Space (fun c => is_space c = true)) in M1 as [S1 L1];
    [|intros ? ? ? (x & -> & E); eauto].
  apply (iter_of_class false Space (fun c => is_space c = true)) in M2 as [S2 L2];
    [|intros ? ? ? (x & -> & E); eauto].
  exists w1, w2. repeat split; auto; intros ->; cbn in *; lia.
Qed.

Lemma scan_replace_filter (p : pattern) (r : jsstring -> jsstring) (f : N -> bool) :
  (forall prev rest n,
      match_here p prev rest = Some n ->
      filter f (r (firstn n rest)) = filter f (firstn n rest)) ->
  forall rest prev skip,
    filter f (scan_replace p r prev rest skip) = filter f (skipn skip rest).
Proof.
  intro H. induction rest as [|c rest IH]; intros prev skip.
  - destruct skip; cbn [scan_replace skipn]; [|reflexivity].
    destruct (match_here p prev []) as [n|] eqn:E; [|reflexivity].
    rewrite app_nil_r, (H _ _ _ E). now destruct n.
  - destruct skip as [|k]; cbn [scan_replace skipn]; [|apply IH].
    destruct (match_here p prev (c :: rest)) as [n|] eqn:E.
    + rewrite filter_app, (H _ _ _ E). destruct n as [|n]; cbn [Nat.eqb Nat.pred].
      * cbn [firstn filter app]. destruct (f c); now rewrite IH.
      * rewrite IH, <- filter_app. cbn [firstn skipn].
        now rewrite <- app_comm_cons, firstn_skipn.
    + cbn [filter]. destruct (f c); now rewrite IH.
Qed.

Lemma scan_replace_length (p : pattern) (r : jsstring -> jsstring) :
  (forall prev rest n,
      match_here p prev rest = Some n -> List.length (r (firstn n rest)) <= n) ->
  forall rest prev skip,
    List.length (scan_replace p r prev rest skip) <= List.length (skipn skip rest).
Proof.
  intro H. induction rest as [|c rest IH]; intros prev skip.
  - destruct skip; cbn [scan_replace skipn List.length]; [|lia].
    destruct (match_here p prev []) as [n|] eqn:E; [|reflexivity].
    rewrite app_nil_r. pose proof (H _ _ _ E) as Hn.
    apply match_here_within in E as [E _]. cbn in E. lia.
  - destruct skip as [|k]; cbn [scan_replace skipn]; [|apply IH].
    destruct (match_here p prev (c :: rest)) as [n|] eqn:E.
    + rewrite length_app. pose proof (H _ _ _ E) as Hn.
      apply match_here_within in E as [E _]. cbn [List.length] in E.
      destruct n as [|n]; cbn [Nat.eqb Nat.pred].
      * specialize (IH (Some c) 0). cbn [List.length skipn] in *. lia.
      * specialize (IH (Some c) n). rewrite length_skipn in IH. cbn [List.length]. lia.
    + specialize (IH (Some c) 0). cbn [List.length skipn] in *. lia.
Qed.

(** X14. [improveClarity] changes white space only: the code units of its result
    that are not white space are those of the text, in the same order; it
    never makes the text longer, and it leaves the store as it is. *)
Theorem clarity_changes_spacing_only :
  forall (text : jsstring) (s : Store.t),
    exists out,
      improveClarity text s = Ok (out, s)
      /\ filter solid out = filter solid text
      /\ List.length out <= List.length text.
Proof.
  intros text s. eexists. split; [reflexivity|]. unfold replace_all.
  assert (H : forall prev rest n,
             match_here (g (seqs [plus Space; L "and"; plus Space])) prev rest = Some n ->
             exists w1 w2,
               firstn n rest = w1 ++ str "and" ++ w2
               /\ spaces w1 /\ spaces w2 /\ w1 <> [] /\ w2 <> [] /\ n <= List.length rest).
  { intros prev rest n E. apply match_here_sound in E as [Hn M].
    apply clarity_match in M as (w1 & w2 & E & S1 & S2 & N1 & N2). exists w1, w2. auto 10. }
  assert (F : forall w, spaces w -> filter solid w = []).
  { induction 1 as [|c w Hc _ IH]; [reflexivity|]. cbn [filter]. unfold solid at 1.
    now rewrite Hc. }
  split.
  - rewrite scan_replace_filter; [reflexivity|].
    intros prev rest n E. apply H in E as (w1 & w2 & -> & S1 & S2 & _).
    rewrite !filter_app, (F _ S1), (F _ S2). reflexivity.
  - etransitivity; [apply scan_replace_length | reflexivity].
    intros prev rest n E. apply H in E as (w1 & w2 & E & _ & _ & N1 & N2 & Hn).
    apply (f_equal (@List.length N)) in E. rewrite length_firstn, !length_app in E.
    destruct w1; [congruence|]. destruct w2; [congruence|].
    cbn [List.length str] in *. cbn in E. cbn. lia.
Qed.

End Spacing.

(* ================================================================== *)
(** * What the removal of repeated sentences keeps *)
(* ================================================================== *)

Section Repeated.

Import PromptOptimizer.

Lemma free_count (x : jsstring) (c : N) :
  free x -> ends_sentence c = true -> count c x = 0.
Proof.
  intros F E. unfold count. apply count_occ_not_In. intro Hin.
  unfold free in F. rewrite Forall_forall in F. specialize (F c Hin). congruence.
Qed.

Lemma total_free (l : list jsstring) (c : N) :
  Forall free l -> ends_sentence c = true -> total c l = 0.
Proof.
  intros F E. induction F as [|x l Hx _ IH]; [reflexivity|].
  rewrite total_cons, IH, (free_count x c Hx E). reflexivity.
Qed.

(** What [removeRedundancy] does, case by case. *)
Lemma removeRedundancy_cases (text : jsstring) (s : Store.t) :
  ready s ->
  forall unique removed,
    dedupe (sentences_of text) [] 0 = (unique, removed) ->
    let result := if 0 <? removed then join (str ". ") unique ++ str "." else text in
    let first := if 0 <? removed
                 then [technique (str "Redundancy Removal")
                         (str "Removed " ++ show removed ++ str " repeated sentence(s)")
                         (str "Token efficiency improved")]
                 else [] in
    exists out recs,
      removeRedundancy text s = Ok (out, record s recs)
      /\ ((exists d,
              out = replace_all fillers (fun _ => []) result
              /\ recs = first ++ [technique (str "Filler Word Removal") d
                                    (str "Signal density increased")])
          \/ (out = result /\ recs = first /\ js_match fillers result = None)
          \/ (out = result /\ recs = first /\ js_match fillers result = Some [])).
Proof.
  intros R unique removed D. cbv zeta. unfold removeRedundancy.
  fold (sentences_of text). rewrite D. unfold M.bind at 1.
  destruct (0 <? removed).
  - rewrite (push_then_ret _ _ _ R).
    destruct (js_match fillers _) as [fm|] eqn:F; [destruct (0 <? List.length fm) eqn:L|].
    + rewrite (push_then_ret _ _ _ (ready_record _ _ R)), (record_record _ _ _ R).
      do 2 eexists. split; [reflexivity|]. left. eexists. split; reflexivity.
    + do 2 eexists. split; [reflexivity|]. right. right. destruct fm; [auto | discriminate].
    + do 2 eexists. split; [reflexivity|]. right. left. auto.
  - cbn [M.ret].
    destruct (js_match fillers text) as [fm|] eqn:F; [destruct (0 <? List.length fm) eqn:L|].
    + rewrite (push_then_ret _ _ _ R).
      do 2 eexists. split; [reflexivity|]. left. eexists. split; reflexivity.
    + exists text, []. rewrite (record_nil _ R). split; [reflexivity|]. right. right.
      destruct fm; [auto | discriminate].
    + exists text, []. rewrite (record_nil _ R). split; [reflexivity|]. right. left. auto.
Qed.

(** X16. When [removeRedundancy] removes a repeated sentence it writes the
    sentences anew, each ended by a full stop: the text it returns holds no
    exclamation mark and no question mark. *)
Theorem repeated_sentences_flatten_punctuation :
  forall (text : jsstring) (s : Store.t) (out : jsstring) (recs : list Technique.t),
    ready s ->
    removeRedundancy text s = Ok (out, record s recs) ->
    In (str "Redundancy Removal") (technique_names recs) ->
    forall c, mem c (str "!?") = true -> count c out = 0.
Proof.
  intros text s out recs R H Hin c Hc.
  destruct (dedupe (sentences_of text) [] 0) as [unique removed] eqn:D.
  assert (Hj : count c (join (str ". ") unique ++ str ".") = 0).
  { assert (E : ends_sentence c = true).
    { unfold ends_sentence. cbn in Hc |- *. destruct (N.eqb c 33), (N.eqb c 63);
        try discriminate; now rewrite ?orb_true_r. }
    assert (Hsep : count c (str ". ") = 0 /\ count c (str ".") = 0).
    { cbn in Hc. rewrite orb_false_r in Hc. apply orb_prop in Hc as [Hc|Hc];
        apply N.eqb_eq in Hc; subst c; split; reflexivity. }
    destruct Hsep as [Hsep Hdot].
    rewrite count_app, (count_join _ _ _ Hsep), Hdot, total_free; auto.
    apply Forall_forall. intros x Hx.
    destruct (dedupe_spec _ _ _ _ _ D) as (_ & I1 & _).
    now apply (sentences_of_spec text), I1. }
  destruct (removeRedundancy_cases text s R unique removed D)
    as (out' & recs' & E & Hcase).
  rewrite E in H. inversion H as [[Ho Hs]]. apply (record_inj _ _ _ R) in Hs. subst out' recs'.
  destruct (0 <? removed).
  - destruct Hcase as [(d & -> & _) | [(-> & _) | (-> & _)]]; try exact Hj.
    apply Nat.le_0_r. rewrite <- Hj. apply count_replace_all. reflexivity.
  - exfalso.
    destruct Hcase as [(d & _ & ->) | [(_ & -> & _) | (_ & -> & _)]]; cbn in Hin;
      try contradiction.
    destruct Hin as [Hin|Hin]; [discriminate Hin | contradiction].
Qed.

(** The theorem for an exclamation that is repeated after a question. *)
Lemma repeated_sentences_flatten_punctuation_witness :
  exists out recs,
    removeRedundancy (str "Stop! Why me? stop!") in_progress = Ok (out, record in_progress recs)
    /\ out = str "Stop. Why me."
    /\ count 33 out = 0 /\ count 63 out = 0.
Proof.
  exists (str "Stop. Why me."),
    [technique (str "Redundancy Removal") (str "Removed 1 repeated sentence(s)")
       (str "Token efficiency improved")].
  assert (E : removeRedundancy (str "Stop! Why me? stop!") in_progress
              = Ok (str "Stop. Why me.",
                    record in_progress
                      [technique (str "Redundancy Removal")
                         (str "Removed 1 repeated sentence(s)")
                         (str "Token efficiency improved")]))
    by (vm_compute; reflexivity).
  assert (R : ready in_progress) by (exists []; reflexivity).
  split; [exact E|]. split; [reflexivity|].
  split;
    apply (repeated_sentences_flatten_punctuation _ _ _ _ R E (or_introl eq_refl));
    reflexivity.
Defined.

Lemma dedupe_keeps (l : list jsstring) :
  forall seen removed unique removed',
    dedupe l seen removed = (unique, removed') ->
    part_of unique l
    /\ (forall x, In x l ->
                  In (toLowerCase x) seen \/ In (toLowerCase x) (map toLowerCase unique)).
Proof.
  induction l as [|x l IH]; intros seen removed unique removed' H; cbn [dedupe] in H.
  - inversion H; subst. split; [constructor | contradiction].
  - destruct (existsb (str_eqb (toLowerCase x)) seen) eqn:E.
    + destruct (IH _ _ _ _ H) as [P C]. split; [now constructor|].
      intros y [<-|Hy]; [left; now apply seen_spec | now apply C].
    + destruct (dedupe l (seen ++ [toLowerCase x]) removed) as [u r] eqn:D.
      inversion H; subst; clear H. destruct (IH _ _ _ _ D) as [P C].
      split; [now constructor|].
      intros y [<-|Hy]; [right; now left|].
      destruct (C y Hy) as [Hs|Hu]; [|right; now right].
      apply in_app_or in Hs as [Hs|[<-|[]]]; [now left | right; now left].
Qed.

(** X17. When [removeRedundancy] strips no filler word, the sentences of the text
    it returns are sentences of the text it was given, in the same order, and
    every sentence of that text is among them up to letter case: only
    repetitions are dropped. *)
Theorem no_sentence_is_lost :
  forall (text : jsstring) (s : Store.t) (out : jsstring) (recs : list Technique.t),
    ready s ->
    removeRedundancy text s = Ok (out, record s recs) ->
    ~ In (str "Filler Word Removal") (technique_names recs) ->
    part_of (sentences_of out) (sentences_of text)
    /\ (forall x, In x (sentences_of text) ->
                  In (toLowerCase x) (map toLowerCase (sentences_of out))).
Proof.
  intros text s out recs R H Hn.
  destruct (dedupe (sentences_of text) [] 0) as [unique removed] eqn:D.
  destruct (removeRedundancy_cases text s R unique removed D)
    as (out' & recs' & E & Hcase).
  rewrite E in H. inversion H as [[Ho Hs]]. apply (record_inj _ _ _ R) in Hs. subst out' recs'.
  assert (K : out = if 0 <? removed then join (str ". ") unique ++ str "." else text).
  { destruct Hcase as [(d & _ & ->) | [(-> & _) | (-> & _)]]; try reflexivity.
    elim Hn. unfold technique_names. rewrite map_app, in_app_iff. right. now left. }
  destruct (dedupe_spec _ _ _ _ _ D) as (_ & I1 & Hle & U1).
  destruct (dedupe_keeps _ _ _ _ _ D) as [P C].
  destruct (0 <? removed) eqn:Er.
  - assert (S1 : sentences_of out = unique).
    { rewrite K. apply sentences_of_join. apply Forall_forall. intros x Hx.
      apply (sentences_of_spec text). now apply I1. }
    rewrite S1. split; [exact P|]. intros x Hx. destruct (C x Hx) as [[]|Hu]. exact Hu.
  - subst out. split; [apply part_of_refl|]. intros x Hx. now apply in_map.
Qed.

(** The theorem for the same text. *)
Lemma no_sentence_is_lost_witness :
  exists out recs,
    removeRedundancy (str "Stop! Why me? stop!") in_progress = Ok (out, record in_progress recs)
    /\ sentences_of (str "Stop! Why me? stop!") = [str "Stop"; str "Why me"; str "stop"]
    /\ sentences_of out = [str "Stop"; str "Why me"]
    /\ part_of (sentences_of out) (sentences_of (str "Stop! Why me? stop!")).
Proof.
  exists (str "Stop. Why me."),
    [technique (str "Redundancy Removal") (str "Removed 1 repeated sentence(s)")
       (str "Token efficiency improved")].
  assert (E : removeRedundancy (str "Stop! Why me? stop!") in_progress
              = Ok (str "Stop. Why me.",
                    record in_progress
                      [technique (str "Redundancy Removal")
                         (str "Removed 1 repeated sentence(s)")
                         (str "Token efficiency improved")]))
    by (vm_compute; reflexivity).
  assert (R : ready in_progress) by (exists []; reflexivity).
  split; [exact E|]. split; [vm_compute; reflexivity|]. split; [vm_compute; reflexivity|].
  refine (proj1 (no_sentence_is_lost _ _ _ _ R E _)).
  intros [H|[]]. discriminate H.
Defined.

End Repeated.

(* ================================================================== *)
(** * A higher level extends a lower one *)
(* ================================================================== *)

Section Levels.

Import PromptOptimizer.

Lemma same_inputs_record (s1 s2 : Store.t) (r1 r2 : list Technique.t) :
  same_inputs s1 s2 -> same_inputs (record s1 r1) (record s2 r2).
Proof.
  unfold same_inputs, record.
  destruct (Store.techniques s1) as [ref1|], (Store.techniques s2) as [ref2|];
    try destruct (nth_error (Store.heap s1) ref1);
    try destruct (nth_error (Store.heap s2) ref2); cbn; auto.
Qed.

Lemma level_free_ret {A : Type} (a : A) : level_free (M.ret a).
Proof.
  intros s1 s2 _ R1 R2. unfold M.ret. split; [reflexivity|].
  exists []. now rewrite !record_nil.
Qed.

Lemma level_free_bind {A B : Type} (m : M.t A) (f : A -> M.t B) :
  level_free m -> (forall a, level_free (f a)) -> level_free (M.bind m f).
Proof.
  intros Hm Hf s1 s2 C R1 R2. specialize (Hm s1 s2 C R1 R2). unfold M.bind.
  destruct (m s1) as [[a1 s1']| |], (m s2) as [[a2 s2']| |]; try contradiction; auto.
  destruct Hm as (<- & recs & -> & ->).
  specialize (Hf a1 (record s1 recs) (record s2 recs)
                (same_inputs_record _ _ _ _ C) (ready_record _ _ R1) (ready_record _ _ R2)).
  destruct (f a1 (record s1 recs)) as [[b1 t1]| |], (f a1 (record s2 recs)) as [[b2 t2]| |];
    try contradiction; auto.
  destruct Hf as (<- & recs' & -> & ->). split; [reflexivity|].
  exists (recs ++ recs'). now rewrite !record_record.
Qed.

Lemma level_free_push (t : Technique.t) : level_free (push t).
Proof.
  intros s1 s2 _ R1 R2. rewrite !push_record by assumption.
  split; [reflexivity|]. now exists [t].
Qed.

Lemma level_free_when (cond : bool) (m : M.t unit) :
  level_free m -> level_free (M.when cond m).
Proof. destruct cond; cbn; auto using level_free_ret. Qed.

Lemma level_free_read_analysis : level_free (M.read Store.analysis).
Proof.
  intros s1 s2 (H & _) R1 R2. unfold M.read. rewrite H.
  destruct (Store.analysis s2); auto.
  split; [reflexivity|]. exists []. now rewrite !record_nil.
Qed.

Lemma level_free_read_options : level_free (M.read Store.options).
Proof.
  intros s1 s2 (_ & _ & H) R1 R2. unfold M.read. rewrite H.
  destruct (Store.options s2); auto.
  split; [reflexivity|]. exists []. now rewrite !record_nil.
Qed.

Ltac level_free_step :=
  match goal with
  | |- level_free (M.bind _ _) => apply level_free_bind; [|intro]
  | |- level_free (M.ret _) => apply level_free_ret
  | |- level_free (push _) => apply level_free_push
  | |- level_free (M.when _ _) => apply level_free_when
  | |- level_free (M.read Store.analysis) => apply level_free_read_analysis
  | |- level_free (M.read Store.options) => apply level_free_read_options
  | |- level_free (if ?b then _ else _) => destruct b
  | |- level_free (match ?x with _ => _ end) => destruct x
  | |- level_free (let x := _ in _) => cbv zeta
  end.

Lemma rule_sets_level_free (text : jsstring) :
  level_free (applyClaudeRules text) /\ level_free (applyGPTRules text)
  /\ level_free (applyGeminiRules text).
Proof.
  unfold applyClaudeRules, applyGPTRules, applyGeminiRules, record_applied.
  repeat split; repeat level_free_step.
Qed.

Lemma modelRules_level_free (key : jsstring) (f : jsstring -> M.t jsstring) (text : jsstring) :
  get modelRules key = Own f -> level_free (f text).
Proof.
  destruct (rule_sets_level_free text) as (Hc & Hg & Hm).
  unfold get, modelRules. cbn [find_own].
  repeat match goal with
         | |- context [if ?b then _ else _] => destruct b
         end;
    try (intro H; inversion H; subst; assumption).
  destruct (find _ object_prototype); discriminate.
Qed.

Lemma applyModelSpecificRules_level_free (text : jsstring) :
  level_free (applyModelSpecificRules text).
Proof.
  intros s1 s2 C R1 R2. unfold applyModelSpecificRules.
  assert (Hm : Store.model s1 = Store.model s2) by apply C. rewrite Hm.
  destruct (get modelRules _) as [f|name|] eqn:E.
  - now apply (modelRules_level_free _ _ text E).
  - unfold call_inherited. now destruct (existsb _ _).
  - now apply (proj1 (rule_sets_level_free text)).
Qed.

(** No stage of the pipeline reads the level. *)
Lemma stages_level_free (level : jsstring) :
  Forall (fun stage => forall text, level_free (stage text)) (stages_of level).
Proof.
  unfold stages_of.
  destruct (is_level level ["quick"; "standard"; "advanced"]),
    (is_level level ["standard"; "advanced"]), (is_level level ["advanced"]);
    cbn [app];
    repeat apply Forall_cons; try apply Forall_nil; intro t;
    try apply applyModelSpecificRules_level_free;
    unfold removeRedundancy, improveClarity, addFrameworkStructure, correctAltitude,
      raiseAltitude, lowerAltitude, addExamples, addChainOfThought, enhanceStructure;
    repeat level_free_step.
Qed.

Lemma chain_level_free (stages : list (jsstring -> M.t jsstring)) :
  Forall (fun stage => forall text, level_free (stage text)) stages ->
  forall text, level_free (chain stages text).
Proof.
  induction 1 as [|stage stages Hs _ IH]; intro text; cbn [chain].
  - apply level_free_ret.
  - apply level_free_bind; [apply Hs | apply IH].
Qed.

(** A level-free method only pushes records. *)
Lemma level_free_records {A : Type} (m : M.t A) (s : Store.t) (a : A) (s' : Store.t) :
  level_free m -> ready s -> m s = Ok (a, s') -> exists recs, s' = record s recs.
Proof.
  intros F R E. specialize (F s s (conj eq_refl (conj eq_refl eq_refl)) R R).
  rewrite E in F. destruct F as (_ & recs & H & _). now exists recs.
Qed.

Lemma depth_levels (level : jsstring) :
  (is_level level ["advanced"] = true -> is_level level ["standard"; "advanced"] = true)
  /\ (is_level level ["standard"; "advanced"] = true ->
      is_level level ["quick"; "standard"; "advanced"] = true).
Proof.
  unfold is_level. cbn [existsb]. split; intro H; rewrite H; apply orb_true_r.
Qed.

(** The stages of a level are those of any lower level, then further ones. *)
Lemma stages_of_further (lo hi : jsstring) :
  1 <= depth lo -> depth lo <= depth hi ->
  stages_of hi = stages_of lo ++ further lo hi.
Proof.
  unfold depth, stages_of, further.
  destruct (depth_levels lo) as [La Ls], (depth_levels hi) as [Ha Hs].
  destruct (is_level lo ["quick"; "standard"; "advanced"]),
    (is_level lo ["standard"; "advanced"]), (is_level lo ["advanced"]),
    (is_level hi ["quick"; "standard"; "advanced"]),
    (is_level hi ["standard"; "advanced"]), (is_level hi ["advanced"]);
    cbn -[removeRedundancy improveClarity addFrameworkStructure correctAltitude
          applyModelSpecificRules addExamples addChainOfThought enhanceStructure];
    intros; try reflexivity; try lia;
    try (specialize (La eq_refl)); try (specialize (Ls eq_refl));
    try (specialize (Ha eq_refl)); try (specialize (Hs eq_refl)); discriminate.
Qed.

(** The further stages list what they change. *)
Lemma further_logs (model lo hi : jsstring) :
  plain_key model ->
  logs model (skipn 2 (technique_order model)) (fun t => t) (chain (further lo hi)).
Proof.
  intro K. unfold further.
  eapply logs_weaken;
    [| | apply logs_append;
         [ apply (logs_group model
                    (negb (is_level lo ["standard"; "advanced"])
                     && is_level hi ["standard"; "advanced"]));
           apply logs_cons; [apply addFrameworkStructure_logs|];
           apply logs_cons; [apply correctAltitude_logs|];
           apply logs_cons; [now apply applyModelSpecificRules_logs
                            | apply logs_nothing with (allowed := [])]
         | apply (logs_group model
                    (negb (is_level lo ["advanced"]) && is_level hi ["advanced"]));
           apply logs_cons; [apply addExamples_logs|];
           apply logs_cons; [apply addChainOfThought_logs|];
           apply logs_cons; [apply enhanceStructure_logs
                            | apply logs_nothing with (allowed := [])] ] ].
  - reflexivity.
  - intro t. cbv beta.
    destruct (negb _ && _), (negb _ && _); reflexivity.
Qed.

Lemma same_inputs_entered (text : jsstring) (analysis : Report.t) (model lo hi : jsstring)
  (options : Options.t) (s : Store.t) :
  same_inputs (entered text analysis model lo options s)
    (entered text analysis model hi options s).
Proof. repeat split. Qed.

(** X18. A level does what every lower level does and then runs its further
    stages: for a model key that names no inherited property, the techniques
    list of a call at a known level is the beginning of the techniques list
    of the same call at a higher level, and when the higher level lists
    nothing more it returns the same result. *)
Theorem higher_level_extends_lower :
  forall (text : jsstring) (analysis : Report.t) (model lo hi : jsstring)
         (options : Options.t) (s : Store.t),
    plain_key model -> 1 <= depth lo -> depth lo <= depth hi ->
    exists rl sl rh sh more,
      optimize text analysis model lo options s = Ok (rl, sl)
      /\ optimize text analysis model hi options s = Ok (rh, sh)
      /\ nth (Result.techniques rh) (Store.heap sh) []
         = nth (Result.techniques rl) (Store.heap sl) [] ++ more
      /\ (more = [] -> rh = rl).
Proof.
  intros text analysis model lo hi options s K Hl Hh.
  rewrite !optimize_pipeline, !pipeline_chain, (stages_of_further lo hi Hl Hh).
  set (sl := entered text analysis model lo options s).
  set (sh := entered text analysis model hi options s).
  assert (Rl : ready sl) by apply entered_ready.
  assert (Rh : ready sh) by apply entered_ready.
  pose proof (chain_level_free _ (stages_level_free lo) text sl sh
                (same_inputs_entered _ _ _ _ _ _ _) Rl Rh) as F.
  destruct (stages_log model lo K text sl (entered_prepared _ _ _ _ _ _))
    as (out & recs & El & _).
  rewrite El in F.
  destruct (chain (stages_of lo) text sh) as [[out' sh']| |] eqn:Eh; try contradiction.
  destruct F as (<- & recs' & Hr & ->).
  apply (record_inj sl _ _ Rl) in Hr. subst recs'.
  destruct (further_logs model lo hi K out (record sh recs)
              (prepared_record _ _ _ (entered_prepared _ _ _ _ _ _)))
    as (out2 & more & Ef & _ & Hq).
  rewrite (record_record _ _ _ Rh) in Ef.
  destruct (analyze_returns out model K) as [al Eal].
  destruct (analyze_returns out2 model K) as [ah Eah].
  unfold M.bind at 1 2. rewrite El. unfold M.lift, M.ret. rewrite Eal.
  rewrite record_techniques. cbn [sl entered Store.techniques].
  unfold M.bind at 1. rewrite chain_app. unfold M.bind. rewrite Eh, Ef, Eah.
  rewrite record_techniques. cbn [sh entered Store.techniques].
  do 4 eexists. exists more. split; [reflexivity|]. split; [reflexivity|].
  cbn [Result.techniques]. split.
  - rewrite (deref_current (record sh (recs ++ more)) _ (recs ++ more)),
      (deref_current (record sl recs) _ recs); trivial;
      try (now rewrite record_techniques);
      try (apply (current_record _ [] _), entered_current).
  - intro H0. specialize (Hq H0). subst out2. rewrite Eal in Eah.
    now inversion Eah.
Qed.

(** The theorem for the levels standard and advanced. *)
Lemma higher_level_extends_lower_witness :
  plain_key (str "gemini") /\ 1 <= depth (str "standard")
  /\ depth (str "standard") <= depth (str "advanced")
  /\ exists rl sl rh sh more,
       optimize (str "Explain how tides work") PromptAnalyzer.getEmptyAnalysis
         (str "gemini") (str "standard") no_options Store.initial = Ok (rl, sl)
       /\ optimize (str "Explain how tides work") PromptAnalyzer.getEmptyAnalysis
            (str "gemini") (str "advanced") no_options Store.initial = Ok (rh, sh)
       /\ nth (Result.techniques rh) (Store.heap sh) []
          = nth (Result.techniques rl) (Store.heap sl) [] ++ more
       /\ (more = [] -> rh = rl).
Proof.
  assert (K : plain_key (str "gemini")).
  { intro name. unfold get.
    change (find_own PromptAnalyzer.modelAnalyzers (str "gemini"))
      with (Some PromptAnalyzer.analyzeGeminiFit).
    discriminate. }
  assert (Hl : 1 <= depth (str "standard")) by (vm_compute; lia).
  assert (Hh : depth (str "standard") <= depth (str "advanced")) by (vm_compute; lia).
  repeat (split; [assumption|]).
  exact (higher_level_extends_lower (str "Explain how tides work")
           PromptAnalyzer.getEmptyAnalysis (str "gemini") (str "standard")
           (str "advanced") no_options Store.initial K Hl Hh).
Defined.

End Levels.

(* ================================================================== *)
(** * The advanced stages on their own output *)
(* ================================================================== *)

Section Advanced.

Import PromptOptimizer PromptAnalyzer.

Lemma isAnalyticalTask_before (a b : jsstring) :
  ascii b = true -> isAnalyticalTask a = true -> isAnalyticalTask (a ++ b) = true.
Proof.
  intro Hb. unfold isAnalyticalTask. rewrite !existsb_exists. intros (word & Hin & H).
  exists word. split; [assumption|].
  destruct (toLowerCase_before_ascii a b Hb) as (a' & -> & F).
  apply includes_before. apply (includes_same_letter _ _ _ F); [|exact H].
  repeat (destruct Hin as [<-|Hin]; [reflexivity|]). destruct Hin.
Qed.

(** X19. Run on its own output with the same report, [addExamples] changes
    nothing: the example section it adds contains the word it looks for.
    [addChainOfThought] has no such guard that holds: once it has added its
    block, it adds the block again to its own output. *)
Theorem advanced_stages_on_their_own_output :
  (forall (text : jsstring) (s : Store.t) (out : jsstring) (s' : Store.t),
      ready s ->
      addExamples text s = Ok (out, s') ->
      addExamples out s' = Ok (out, s'))
  /\ (forall (text : jsstring) (s : Store.t) (out : jsstring) (s' : Store.t),
        ready s ->
        addChainOfThought text s = Ok (out, s') ->
        out <> text ->
        exists s'', addChainOfThought out s' = Ok (out ++ reasoning_block, s'')).
Proof.
  split; intros text s out s' R H.
  - unfold addExamples, M.bind, M.read in H.
    destruct (Store.analysis s) as [a|] eqn:A; [|discriminate].
    destruct (has Flags.examples (Report.components a)) eqn:F.
    + inversion H; subst out s'. unfold addExamples, M.bind, M.read. now rewrite A, F.
    + cbv zeta in H.
      destruct (includes (toLowerCase text) (str "format")
                && negb (includes (toLowerCase text) (str "example"))) eqn:C.
      * rewrite (push_record _ _ R) in H. inversion H; subst out s'; clear H.
        unfold addExamples, M.bind, M.read.
        rewrite (proj1 (record_fields s _)), A, F. cbv zeta.
        match goal with
        | |- context [toLowerCase (text ++ ?block)] =>
            destruct (toLowerCase_before_ascii text block) as (a' & -> & _);
            [vm_compute; reflexivity|]
        end.
        rewrite (includes_after a' _ (str "example")) by (vm_compute; reflexivity).
        rewrite andb_false_r. reflexivity.
      * inversion H; subst out s'. unfold addExamples, M.bind, M.read.
        rewrite A, F. cbv zeta. now rewrite C.
  - intro Hne. unfold addChainOfThought in H.
    destruct (hasChainOfThought text) eqn:E; [inversion H; subst; now elim Hne|].
    cbv zeta in H.
    destruct (isAnalyticalTask text || (300 <? List.length text)) eqn:C;
      [|inversion H; subst; now elim Hne].
    unfold M.bind in H. rewrite (push_record _ _ R) in H.
    inversion H; subst out s'; clear H.
    match goal with
    | |- context [addChainOfThought (text ++ ?block)] => change block with reasoning_block
    end.
    assert (E' : hasChainOfThought (text ++ reasoning_block) = false).
    { unfold reasoning_block. cbn [app]. rewrite hasChainOfThought_lines, E.
      vm_compute. reflexivity. }
    assert (C' : isAnalyticalTask (text ++ reasoning_block)
                 || (300 <? List.length (text ++ reasoning_block)) = true).
    { apply orb_true_iff in C as [C|C].
      - rewrite (isAnalyticalTask_before text reasoning_block); [reflexivity| |exact C].
        vm_compute. reflexivity.
      - apply orb_true_iff. right. apply Nat.ltb_lt in C. apply Nat.ltb_lt.
        rewrite length_app. lia. }
    unfold addChainOfThought. rewrite E'. cbv zeta. rewrite C'.
    unfold M.bind. rewrite (push_record _ _ (ready_record _ _ R)).
    eexists. reflexivity.
Qed.

(** The theorem for a prompt that asks for a format and a comparison. *)
Lemma advanced_stages_on_their_own_output_witness :
  (exists out s',
      addExamples (str "Compare both in this format") in_progress = Ok (out, s')
      /\ out <> str "Compare both in this format"
      /\ addExamples out s' = Ok (out, s'))
  /\ (exists out s' s'',
        addChainOfThought (str "Compare both in this format") in_progress = Ok (out, s')
        /\ addChainOfThought out s' = Ok (out ++ reasoning_block, s'')).
Proof.
  assert (R : ready in_progress) by (exists []; reflexivity).
  split.
  - do 2 eexists. split; [vm_compute; reflexivity|]. split; [vm_compute; discriminate|].
    refine (proj1 advanced_stages_on_their_own_output
              (str "Compare both in this format") in_progress _ _ R _).
    vm_compute. reflexivity.
  - assert (E : exists out s',
               addChainOfThought (str "Compare both in this format") in_progress
               = Ok (out, s')
               /\ out <> str "Compare both in this format")
      by (do 2 eexists; split; [vm_compute; reflexivity | vm_compute; discriminate]).
    destruct E as (out & s' & E & Hne).
    destruct (proj2 advanced_stages_on_their_own_output
                (str "Compare both in this format") in_progress out s' R E Hne)
      as [s'' E2].
    now exists out, s', s''.
Defined.

End Advanced.

(* ================================================================== *)
(** * Conversion to XML *)
(* ================================================================== *)

Section Conversion.

Import PromptOptimizer PromptAnalyzer.

(** A global replacement whose replacement strings hold a tag either leaves
    the text as it is or returns a text with a tag. *)
Lemma scan_replace_tag (p : pattern) (f : jsstring -> jsstring) :
  (forall m, hasXMLStructure (f m) = true) ->
  forall rest prev skip,
    scan_replace p f prev rest skip = skipn skip rest
    \/ hasXMLStructure (scan_replace p f prev rest skip) = true.
Proof.
  intro H. unfold hasXMLStructure in *.
  assert (F : context_free (re (plain xml_tag)) = true) by reflexivity.
  induction rest as [|c rest IH]; intros prev skip.
  - destruct skip; cbn [scan_replace skipn]; [|now left].
    destruct (match_here p prev []) as [n|]; [|now left].
    right. apply test_before; auto.
  - destruct skip as [|k]; cbn [scan_replace skipn]; [|apply IH].
    destruct (match_here p prev (c :: rest)) as [n|].
    + right. apply test_before; auto.
    + destruct (IH (Some c) 0) as [E|E]; cbn [skipn] in E.
      * left. now rewrite E.
      * right. now apply (test_after _ [c]).
Qed.

Lemma replace_all_tag (p : pattern) (f : jsstring -> jsstring) (text : jsstring) :
  (forall m, hasXMLStructure (f m) = true) ->
  replace_all p f text = text \/ hasXMLStructure (replace_all p f text) = true.
Proof. intro H. exact (scan_replace_tag p f H text None 0). Qed.

(** X20. [enhanceStructure] converts once: a text it changes has, for the
    analyzer, an XML structure, and run on its own output it changes
    nothing and lists nothing. *)
Theorem enhanceStructure_converts_once :
  forall (text : jsstring) (s : Store.t) (out : jsstring) (s' : Store.t),
    ready s ->
    enhanceStructure text s = Ok (out, s') ->
    (out <> text -> hasXMLStructure out = true)
    /\ enhanceStructure out s' = Ok (out, s').
Proof.
  intros text s out s' R H.
  assert (X : out = text /\ s' = s \/ hasXMLStructure out = true).
  { unfold enhanceStructure in H.
    destruct (hasXMLStructure text) eqn:E; [inversion H; now left|].
    cbv zeta in H.
    set (r1 := replace_all (gi (L "[ROLE]:")) _ text) in H.
    set (r2 := replace_all (gi (L "[TASK]:")) _ r1) in H.
    set (r3 := replace_all (gi (L "[OUTPUT FORMAT]:")) _ r2) in H.
    set (r4 := replace_all (gi (L "[CONSTRAINTS]:")) _ r3) in H.
    assert (X4 : r4 = text \/ hasXMLStructure r4 = true).
    { destruct (replace_all_tag (gi (L "[ROLE]:")) (fun _ => str "<role>" ++ [nl]) text)
        as [E1|E1]; [intro; vm_compute; reflexivity| |];
        fold r1 in E1;
        (destruct (replace_all_tag (gi (L "[TASK]:"))
                     (fun _ => str "</role>" ++ [nl; nl] ++ str "<task>") r1)
          as [E2|E2]; [intro; vm_compute; reflexivity| |]);
        fold r2 in E2;
        (destruct (replace_all_tag (gi (L "[OUTPUT FORMAT]:"))
                     (fun _ => str "</task>" ++ [nl; nl] ++ str "<output_format>") r2)
          as [E3|E3]; [intro; vm_compute; reflexivity| |]);
        fold r3 in E3;
        (destruct (replace_all_tag (gi (L "[CONSTRAINTS]:"))
                     (fun _ => str "</output_format>" ++ [nl; nl] ++ str "<constraints>") r3)
          as [E4|E4]; [intro; vm_compute; reflexivity| |]);
        fold r4 in E4; try (now right);
        try (left; congruence); right; congruence. }
    clearbody r4. clear r1 r2 r3.
    match type of H with
    | context [M.when (negb (str_eqb ?r text))] => set (result := r) in H
    end.
    assert (Xr : result = text \/ hasXMLStructure result = true).
    { subst result. destruct (includes r4 _ && negb _); [|assumption].
      right. unfold hasXMLStructure.
      apply test_after; [reflexivity | vm_compute; reflexivity]. }
    clearbody result. unfold M.bind, M.when in H.
    destruct (negb (str_eqb result text)) eqn:N.
    - rewrite (push_record _ _ R) in H. inversion H; subst out s'.
      destruct Xr as [->|Xr]; [|now right].
      rewrite str_eqb_refl in N. discriminate.
    - inversion H; subst out s'. destruct Xr as [->|Xr]; [now left | now right]. }
  split.
  - intro Hne. destruct X as [[-> _]|X]; [now elim Hne | assumption].
  - destruct X as [[-> ->]|X]; [assumption|].
    unfold enhanceStructure. now rewrite X.
Qed.

(** The theorem for a prompt with a bracketed role section. *)
Lemma enhanceStructure_converts_once_witness :
  exists out s',
    enhanceStructure (str "[ROLE]: You are a tutor") in_progress = Ok (out, s')
    /\ out <> str "[ROLE]: You are a tutor"
    /\ hasXMLStructure out = true
    /\ enhanceStructure out s' = Ok (out, s').
Proof.
  assert (R : ready in_progress) by (exists []; reflexivity).
  assert (E : exists out s',
             enhanceStructure (str "[ROLE]: You are a tutor") in_progress = Ok (out, s')
             /\ out <> str "[ROLE]: You are a tutor")
    by (do 2 eexists; split; [vm_compute; reflexivity | vm_compute; discriminate]).
  destruct E as (out & s' & E & Hne).
  destruct (enhanceStructure_converts_once (str "[ROLE]: You are a tutor") in_progress
              out s' R E) as [Hx Hi].
  exists out, s'. auto.
Defined.

End Conversion.

(* ================================================================== *)
(** * The signal density *)
(* ================================================================== *)

Section Density.

Import FloatOps SpecFloat PromptAnalyzer.

Lemma iter_pos_keeps {A : Type} (P : A -> Prop) (f : A -> A) :
  (forall x, P x -> P (f x)) -> forall n x, P x -> P (iter_pos f n x).
Proof.
  intros H n. induction n as [n IH|n IH|]; intros x Px; cbn [iter_pos]; auto.
Qed.

Lemma shr_1_nonneg (mrs : shr_record) : (0 <= shr_m mrs)%Z -> (0 <= shr_m (shr_1 mrs))%Z.
Proof.
  destruct mrs as [m r s]. cbn [shr_m]. intro H. unfold shr_1.
  destruct m as [|[p|p|]|p]; cbn [shr_m]; lia.
Qed.

Lemma shr_nonneg (mrs : shr_record) (e n : Z) :
  (0 <= shr_m mrs)%Z -> (0 <= shr_m (fst (shr mrs e n)))%Z.
Proof.
  intro H. unfold shr. destruct n; cbn [fst]; auto.
  apply (iter_pos_keeps (fun x => (0 <= shr_m x)%Z)); auto using shr_1_nonneg.
Qed.

Lemma shr_record_of_loc_m (m : Z) (l : location) : shr_m (shr_record_of_loc m l) = m.
Proof. destruct l as [|[]]; reflexivity. Qed.

Lemma shr_fexp_nonneg (m e : Z) (l : location) :
  (0 <= m)%Z -> (0 <= shr_m (fst (shr_fexp prec emax m e l)))%Z.
Proof.
  intro H. unfold shr_fexp. apply shr_nonneg. now rewrite shr_record_of_loc_m.
Qed.

Lemma round_nearest_even_nonneg (m : Z) (l : location) :
  (0 <= m)%Z -> (0 <= round_nearest_even m l)%Z.
Proof. intro H. destruct l as [|[]]; cbn; try lia. destruct (Z.even m); lia. Qed.

(** Rounding a mantissa that is not negative never gives NaN. *)
Lemma binary_round_aux_real (s : bool) (m e : Z) (l : location) :
  (0 <= m)%Z -> real (binary_round_aux prec emax s m e l).
Proof.
  intro H. unfold binary_round_aux.
  pose proof (shr_fexp_nonneg m e l H) as H1.
  destruct (shr_fexp prec emax m e l) as [mrs' e']. cbn [fst] in H1.
  pose proof (shr_fexp_nonneg _ e' loc_Exact
                (round_nearest_even_nonneg _ (loc_of_shr_record mrs') H1)) as H2.
  destruct (shr_fexp prec emax _ e' loc_Exact) as [mrs'' e'']. cbn [fst] in H2.
  destruct (shr_m mrs''); [discriminate | | lia].
  destruct (_ <=? _)%Z; discriminate.
Qed.

Lemma binary_round_real (s : bool) (m : positive) (e : Z) :
  real (binary_round prec emax s m e).
Proof.
  unfold binary_round. destruct (shl_align _ _ _) as [mz ez].
  apply binary_round_aux_real. lia.
Qed.

Lemma binary_normalize_real (m e : Z) (s : bool) :
  real (binary_normalize prec emax m e s).
Proof.
  unfold binary_normalize. destruct m; [discriminate | |]; apply binary_round_real.
Qed.

Lemma digits2_pos_bound (p : positive) :
  forall k, (0 <= k)%Z -> (Zpos p < 2 ^ k)%Z -> (Zpos (digits2_pos p) <= k)%Z.
Proof.
  induction p as [p IH|p IH|]; intros k Hk H; cbn [digits2_pos].
  - assert (k <> 0)%Z by (intros ->; cbn in H; lia).
    replace k with (Z.succ (k - 1)) in H by lia. rewrite Z.pow_succ_r in H by lia.
    specialize (IH (k - 1)%Z ltac:(lia) ltac:(lia)). lia.
  - assert (k <> 0)%Z by (intros ->; cbn in H; lia).
    replace k with (Z.succ (k - 1)) in H by lia. rewrite Z.pow_succ_r in H by lia.
    specialize (IH (k - 1)%Z ltac:(lia) ltac:(lia)). lia.
  - assert (k <> 0)%Z by (intros ->; cbn in H; lia). lia.
Qed.

Lemma Zdigits2_bound (m k : Z) :
  (0 <= k)%Z -> (0 <= m < 2 ^ k)%Z -> (0 <= Zdigits2 m <= k)%Z.
Proof.
  intros Hk [H0 H]. destruct m as [|p|p]; cbn [Zdigits2]; [lia | | lia].
  split; [lia|]. now apply digits2_pos_bound.
Qed.

Lemma shr_1_le (mrs : shr_record) (b : Z) :
  (0 <= shr_m mrs <= b)%Z -> (0 <= shr_m (shr_1 mrs) <= b)%Z.
Proof.
  destruct mrs as [m r s]. cbn [shr_m]. intro H. unfold shr_1.
  destruct m as [|[p|p|]|p]; cbn [shr_m]; lia.
Qed.

Lemma shr_le (mrs : shr_record) (e n b : Z) :
  (0 <= shr_m mrs <= b)%Z -> (0 <= shr_m (fst (shr mrs e n)) <= b)%Z.
Proof.
  intro H. unfold shr. destruct n; cbn [fst]; auto.
  apply (iter_pos_keeps (fun x => (0 <= shr_m x <= b)%Z)); auto using shr_1_le.
Qed.

Lemma shr_exp (mrs : shr_record) (e n : Z) : snd (shr mrs e n) = (e + Z.max 0 n)%Z.
Proof. unfold shr. destruct n; cbn [snd]; lia. Qed.

(** Rounding a mantissa below 2^k at an exponent that is not positive gives
    an exponent of at most k + 1. *)
Lemma shr_fexp_bounds (m e k : Z) (l : location) :
  (0 <= k)%Z -> (0 <= m < 2 ^ k)%Z -> (e <= k)%Z ->
  (0 <= shr_m (fst (shr_fexp prec emax m e l)) < 2 ^ k)%Z
  /\ (snd (shr_fexp prec emax m e l) <= 2 * k)%Z.
Proof.
  intros Hk Hm He. unfold shr_fexp. split.
  - assert (B : (0 <= shr_m (shr_record_of_loc m l) <= 2 ^ k - 1)%Z)
      by (rewrite shr_record_of_loc_m; lia).
    pose proof (shr_le _ e (fexp prec emax (Zdigits2 m + e) - e) _ B). lia.
  - rewrite shr_exp. pose proof (Zdigits2_bound m k Hk Hm).
    unfold fexp, emin, prec, emax. change IntDef.Z.max with Z.max. lia.
Qed.

Lemma binary_round_aux_finite (s : bool) (m e k : Z) (l : location) :
  (0 <= k <= 200)%Z -> (0 <= m < 2 ^ k)%Z -> (e <= k)%Z ->
  match binary_round_aux prec emax s m e l with
  | S754_zero _ | S754_finite _ _ _ => True
  | _ => False
  end.
Proof.
  intros Hk Hm He. unfold binary_round_aux.
  destruct (shr_fexp_bounds m e k l ltac:(lia) Hm He) as [M1 E1].
  destruct (shr_fexp prec emax m e l) as [mrs' e']. cbn [fst snd] in M1, E1.
  assert (R : (0 <= round_nearest_even (shr_m mrs') (loc_of_shr_record mrs')
               < 2 ^ (2 * k + 1))%Z).
  { assert (2 ^ k < 2 ^ (2 * k + 1))%Z by (apply Z.pow_lt_mono_r; lia).
    destruct (loc_of_shr_record mrs') as [|[]]; cbn [round_nearest_even]; try lia.
    destruct (Z.even (shr_m mrs')); lia. }
  destruct (shr_fexp_bounds _ e' (2 * k + 1)%Z loc_Exact ltac:(lia) R ltac:(lia)) as [M2 E2].
  destruct (shr_fexp prec emax _ e' loc_Exact) as [mrs'' e'']. cbn [fst snd] in M2, E2.
  destruct (shr_m mrs''); [exact I | | lia].
  assert (X : (e'' <=? emax - prec)%Z = true) by (apply Z.leb_le; unfold emax, prec; lia).
  now rewrite X.
Qed.

Lemma iter_xO (m d : positive) : Zpos (Pos.iter xO m d) = (Zpos m * 2 ^ Zpos d)%Z.
Proof.
  induction d as [|d IH] using Pos.peano_ind.
  - cbn [Pos.iter]. rewrite Z.pow_1_r. lia.
  - rewrite Pos.iter_succ, Pos2Z.inj_succ, Z.pow_succ_r by lia.
    rewrite Pos2Z.inj_xO, IH. lia.
Qed.

(** The number of an unsigned integer is zero or finite. *)
Lemma of_uint63_finite (n : Uint63.int) : finite (Prim2SF (of_uint63 n)).
Proof.
  unfold finite.
  rewrite FloatAxioms.of_uint63_spec.
  pose proof (Uint63.to_Z_bounded n) as B. unfold Uint63.wB, Uint63.size in B.
  change (2 ^ Z.of_nat 63)%Z with (2 ^ 63)%Z in B.
  unfold binary_normalize. destruct (Uint63.to_Z n) as [|m|m]; [exact I | | lia].
  unfold binary_round.
  assert (D : (1 <= Zpos (digits2_pos m) <= 63)%Z)
    by (split; [lia | apply digits2_pos_bound; lia]).
  unfold shl_align.
  destruct (fexp prec emax (Zpos (digits2_pos m) + 0) - 0)%Z as [|d|d] eqn:E.
  - apply (binary_round_aux_finite false (Zpos m) 0 63); lia.
  - apply (binary_round_aux_finite false (Zpos m) 0 63); lia.
  - unfold fexp, emin, prec, emax in *. change IntDef.Z.max with Z.max in *.
    assert (Hd : (Zpos d <= 52)%Z) by lia.
    apply (binary_round_aux_finite false _ _ 115); [lia | | lia].
    rewrite iter_xO. split; [lia|].
    assert ((2 ^ Zpos d <= 2 ^ 52)%Z) by (apply Z.pow_le_mono_r; lia).
    change (2 ^ 115)%Z with (2 ^ 63 * 2 ^ 52)%Z. nia.
Qed.

Lemma finite_real (x : spec_float) : finite x -> real x.
Proof.
  destruct x; cbn; intros H; [discriminate | contradiction | contradiction | discriminate].
Qed.

Lemma num_finite (n : nat) : finite (Prim2SF (num n)).
Proof.
  unfold num, of_Z. destruct (Z.ltb_spec (Z.of_nat n) 0); [lia|]. apply of_uint63_finite.
Qed.

Lemma of_Z_real (z : Z) : real (Prim2SF (of_Z z)).
Proof.
  unfold of_Z. destruct (z <? 0)%Z.
  - rewrite FloatAxioms.opp_spec.
    pose proof (of_uint63_finite (Uint63.of_Z (- z))) as F.
    destruct (Prim2SF (of_uint63 (Uint63.of_Z (- z)))); cbn in *; try contradiction; discriminate.
  - apply finite_real, of_uint63_finite.
Qed.

Lemma sub_real (x y : float) :
  finite (Prim2SF x) -> finite (Prim2SF y) -> real (Prim2SF (x - y)).
Proof.
  rewrite FloatAxioms.sub_spec. unfold FloatAxioms.SF64sub, SFsub.
  destruct (Prim2SF x) as [sx|sx| |sx mx ex], (Prim2SF y) as [sy|sy| |sy my ey];
    cbn [finite]; try contradiction; intros _ _; try discriminate.
  - destruct sx, sy; discriminate.
  - apply binary_normalize_real.
Qed.

Lemma div_real (x y : float) :
  real (Prim2SF x) -> finite (Prim2SF y) -> (0 <? y)%float = true ->
  real (Prim2SF (x / y)).
Proof.
  rewrite FloatAxioms.div_spec, FloatAxioms.ltb_spec. unfold FloatAxioms.SF64div, SFdiv, real.
  change (Prim2SF 0) with (S754_zero false).
  destruct (Prim2SF x) as [sx|sx| |sx mx ex], (Prim2SF y) as [sy|sy| |sy my ey];
    cbn [finite SFltb SFcompare]; try contradiction; try discriminate; intros Hx _ Hy;
    try discriminate; try (now elim Hx).
  unfold SFdiv_core_binary.
  set (m' := match _ with Zpos _ => _ | Z0 => _ | Zneg _ => _ end).
  assert (H : (0 <= m')%Z).
  { subst m'. destruct (_ - _ - _)%Z; try lia. apply Z.shiftl_nonneg. lia. }
  pose proof (Z_div_mod m' (Zpos my) ltac:(lia)) as D.
  destruct (Z.div_eucl m' (Zpos my)) as [q r].
  apply binary_round_aux_real. destruct D as [D1 D2]. nia.
Qed.

Lemma mul_real (x y : float) :
  real (Prim2SF x) -> (exists s m e, Prim2SF y = S754_finite s m e) ->
  real (Prim2SF (x * y)).
Proof.
  rewrite FloatAxioms.mul_spec. intros Hx (s & m & e & ->).
  unfold FloatAxioms.SF64mul, SFmul, real in *.
  destruct (Prim2SF x) as [sx|sx| |sx mx ex]; try discriminate; [now elim Hx|].
  apply binary_round_aux_real. lia.
Qed.

Lemma add_real (x y : float) :
  real (Prim2SF x) -> (exists s m e, Prim2SF y = S754_finite s m e) ->
  real (Prim2SF (x + y)).
Proof.
  rewrite FloatAxioms.add_spec. intros Hx (s & m & e & ->).
  unfold FloatAxioms.SF64add, SFadd, real in *.
  destruct (Prim2SF x) as [sx|sx| |sx mx ex]; try discriminate; [now elim Hx|].
  apply binary_normalize_real.
Qed.

Lemma round_real (x : float) : real (Prim2SF x) -> real (Prim2SF (Math.round x)).
Proof.
  intro H. unfold Math.round.
  destruct (Prim2SF x) as [s|s| |s m e] eqn:E; try (now rewrite E).
  destruct (0 <=? e)%Z; [now rewrite E|].
  unfold integral. destruct (_ && _); [discriminate | apply of_Z_real].
Qed.

Lemma compare_antisym (x y : spec_float) (c : comparison) :
  SFcompare x y = Some c -> SFcompare y x = Some (CompOpp c).
Proof.
  destruct x as [sx|sx| |sx mx ex], y as [sy|sy| |sy my ey]; cbn [SFcompare];
    try discriminate; intros [= <-]; try reflexivity;
    try (destruct sx; reflexivity); try (destruct sy; reflexivity);
    try (destruct sx, sy; reflexivity).
  destruct sx, sy; try reflexivity; rewrite (Z.compare_antisym ex ey);
    destruct (ex ?= ey)%Z; cbn [CompOpp]; try reflexivity;
    rewrite (Pos.compare_cont_antisym mx my Eq); cbn [CompOpp];
    destruct (Pos.compare_cont Eq mx my); reflexivity.
Qed.

Lemma compare_real (x y : spec_float) :
  real x -> real y -> exists c, SFcompare x y = Some c.
Proof.
  unfold real. intros Hx Hy.
  destruct x, y; try (now elim Hx); try (now elim Hy); cbn [SFcompare]; eauto.
Qed.

Lemma not_above_below (x y : float) :
  real (Prim2SF x) -> real (Prim2SF y) -> (y <? x)%float = false -> (x <=? y)%float = true.
Proof.
  rewrite FloatAxioms.ltb_spec, FloatAxioms.leb_spec. unfold SFltb, SFleb. intros Hx Hy.
  destruct (compare_real _ _ Hy Hx) as [c E]. rewrite E, (compare_antisym _ _ _ E).
  destruct c; cbn [CompOpp]; congruence.
Qed.

Lemma below_weak (x y : float) : (x <? y)%float = true -> (x <=? y)%float = true.
Proof.
  rewrite FloatAxioms.ltb_spec, FloatAxioms.leb_spec. unfold SFltb, SFleb.
  destruct (SFcompare _ _) as [[]|]; congruence.
Qed.

Lemma real_is_nan (x : float) : real (Prim2SF x) -> is_nan x = false.
Proof.
  intro H. unfold is_nan. rewrite FloatAxioms.eqb_spec. unfold SFeqb.
  destruct (compare_real _ _ H H) as [c E]. pose proof (compare_antisym _ _ _ E) as A.
  rewrite E in *. destruct c; try reflexivity; cbn in A; discriminate.
Qed.

Lemma clamp_within (x : float) :
  real (Prim2SF x) ->
  (0 <=? Math.max 0 (Math.min 100 x))%float = true
  /\ (Math.max 0 (Math.min 100 x) <=? 100)%float = true.
Proof.
  intro H. unfold Math.min. change (is_nan 100) with false. rewrite (real_is_nan _ H).
  cbn [orb]. destruct (100 <? x)%float eqn:E1; [vm_compute; split; reflexivity|].
  assert (Y : (if (x <? 100)%float then x else if Math.is_neg_zero 100 then 100%float else x)
              = x) by (destruct (x <? 100)%float; reflexivity).
  rewrite Y. unfold Math.max. change (is_nan 0) with false. rewrite (real_is_nan _ H).
  cbn [orb]. destruct (0 <? x)%float eqn:E3.
  - split; [now apply below_weak | apply not_above_below; [exact H | discriminate | exact E1]].
  - destruct (x <? 0)%float; vm_compute; split; reflexivity.
Qed.

Lemma density_real (h f t : nat) :
  real (Prim2SF (if 0 <? num t then ((num h - num f) / num t) * 100 + 50 else 50)%float).
Proof.
  destruct (0 <? num t)%float eqn:E; [|discriminate].
  apply add_real; [|vm_compute; eauto].
  apply mul_real; [|vm_compute; eauto].
  apply div_real; [apply sub_real; apply num_finite | apply num_finite | exact E].
Qed.

(** X15. The density that [calculateSignalDensity] reports is a number from 0 to
    100: for every text, [0 <= density] and [density <= 100] both hold, so it is
    not NaN either. *)
Theorem signal_density_within_bounds :
  forall (text : jsstring),
    let density := SignalDensity.density (calculateSignalDensity text) in
    (0 <=? density)%float = true /\ (density <=? 100)%float = true.
Proof.
  intro text. unfold calculateSignalDensity. cbv zeta. cbn [SignalDensity.density].
  apply clamp_within, round_real, density_real.
Qed.

End Density.
